(** * TaskTracker: the task store, the extraction parser and the ranking engine

    A shallow embedding of [main.py].  Python values that travel through
    [json] are embedded as [pyval]; a Python [str] is the list of its code
    points; the functions of the module that touch the task list, the store
    file or the language model are written in a state-and-exception monad
    over [state].

    The library functions the module calls are embedded from their
    documented behaviour and from CPython's implementation: [json.loads] and
    [json.dump] (module [Decoder], module [Encoder]), [re.search] on the one
    pattern the module uses (module [Re]), [str.strip], [list.sort] and
    [list.pop].  What is left out:
    - a float is kept as its literal, no arithmetic is done on one;
    - the recursion limit of the interpreter, which [json.loads] hits on
      arrays or objects nested about a thousand deep;
    - a failure to start the model process: [ollama_generate] always gets
      the text of its standard output;
    - the file dialog, [ffmpeg] and the speech model: what they return is
      given ([media]), and [transcribe_audio] is given the texts of the
      segments;
    - the text of the exception in the box [upload_media] shows, and what
      it prints;
    - the widgets other than the rows of the list, the input line and the
      message boxes.

    The handlers of the window are written over [window], which adds to
    [state] the input line, the warnings shown and the two sources
    [add_tasks] draws on, [uuid.uuid4] and [time.time].  The [text] of a
    [Task] is a string: a run that would put another JSON value there
    leaves the embedding, and [extract_text_ai] and [__init__]
    return [None] for it. *)

From Stdlib Require Import ZArith NArith Ascii String Lia DecimalFacts DecimalPos.
From stdpp Require Import base option list gmap sorting.

Set Warnings "-register-all".
Local Open Scope N_scope.

(** ** Python strings *)

(** A [str] is a sequence of code points. *)
Abbreviation pystr := (list N) (only parsing).

Definition chr (a : ascii) : N := N_of_ascii a.
Arguments chr : simpl never.

(** A literal of the source, character by character. *)
Definition py (s : string) : pystr := map chr (list_ascii_of_string s).

Definition QUOTE : N := 34.
Definition BACKSLASH : N := 92.
Definition NL : N := 10.

(** ["sep".join(parts)] *)
Fixpoint join (sep : pystr) (parts : list pystr) : pystr :=
  match parts with
  | [] => []
  | [p] => p
  | p :: ps => p ++ sep ++ join sep ps
  end.

(** [str.isspace] on one character, as [Py_UNICODE_ISSPACE] has it. *)
Definition py_isspace (c : N) : bool :=
  ((9 <=? c) && (c <=? 13)) || ((28 <=? c) && (c <=? 32))
  || (c =? 133) || (c =? 160) || (c =? 5760)
  || ((8192 <=? c) && (c <=? 8202))
  || (c =? 8232) || (c =? 8233) || (c =? 8239) || (c =? 8287) || (c =? 12288).

Fixpoint lstrip (s : pystr) : pystr :=
  match s with
  | c :: r => if py_isspace c then lstrip r else s
  | [] => []
  end.

(** [s.strip()] *)
Definition strip (s : pystr) : pystr := reverse (lstrip (reverse (lstrip s))).

(** ** Exceptions and results *)

Inductive exn : Type :=
| JSONDecodeError
| RecursionError
| TypeError
| IndexError
| ValueError
| OSError
| UnicodeDecodeError.

Inductive outcome (A : Type) : Type :=
| Ok (a : A)
| Raise (e : exn).
Arguments Ok {A} a.
Arguments Raise {A} e.

#[global] Instance outcome_ret : MRet outcome := @Ok.
#[global] Instance outcome_bind : MBind outcome := fun A B f m =>
  match m with
  | Ok a => f a
  | Raise e => Raise e
  end.
#[global] Instance outcome_fmap : FMap outcome := fun A B f m =>
  match m with
  | Ok a => Ok (f a)
  | Raise e => Raise e
  end.

(** ** Python values built by [json] *)

(** A float is kept as the literal it was read from: its numeric value is not
    interpreted, and no function below computes with one. *)
Inductive pyval : Type :=
| PyNone
| PyBool (b : bool)
| PyInt (z : Z)
| PyFloat (literal : pystr)
| PyStr (s : pystr)
| PyList (l : list pyval)
| PyDict (d : list (pystr * pyval)).

(** [d[k] = v] on a dict, kept as the list of its items in insertion order. *)
Fixpoint dict_set (k : pystr) (v : pyval) (d : list (pystr * pyval))
  : list (pystr * pyval) :=
  match d with
  | [] => [(k, v)]
  | (k', v') :: d' =>
      if decide (k' = k) then (k', v) :: d' else (k', v') :: dict_set k v d'
  end.

(** [dict(pairs)]: a key met again keeps its place and takes the later
    value. *)
Definition dict_of_pairs (pairs : list (pystr * pyval)) : list (pystr * pyval) :=
  fold_left (fun d kv => dict_set kv.1 kv.2 d) pairs [].

(** ** [json.loads]: the decoder *)

Module Decoder.

(** [WHITESPACE = re.compile(r'[ \t\n\r]*')] *)
Definition is_ws (c : N) : bool :=
  (c =? 32) || (c =? 9) || (c =? 10) || (c =? 13).

Fixpoint skip_ws (s : pystr) : pystr :=
  match s with
  | c :: r => if is_ws c then skip_ws r else s
  | [] => []
  end.

Definition is_digit (c : N) : bool := (48 <=? c) && (c <=? 57).

Definition hex_val (c : N) : option N :=
  if (48 <=? c) && (c <=? 57) then Some (c - 48)
  else if (97 <=? c) && (c <=? 102) then Some (c - 87)
  else if (65 <=? c) && (c <=? 70) then Some (c - 55)
  else None.

(** Four hex digits of a [\uXXXX] escape: [c <<= 4; c |= digit]. *)
Definition hex4 (a b c d : N) : option N :=
  ha ← hex_val a; hb ← hex_val b; hc ← hex_val c; hd ← hex_val d;
  Some (N.lor (N.shiftl (N.lor (N.shiftl (N.lor (N.shiftl ha 4) hb) 4) hc) 4) hd).

Definition is_high_surrogate (c : N) : bool := (55296 <=? c) && (c <=? 56319).
Definition is_low_surrogate (c : N) : bool := (56320 <=? c) && (c <=? 57343).

(** [Py_UNICODE_JOIN_SURROGATES] *)
Definition join_surrogates (hi lo : N) : N :=
  65536 + N.lor (N.shiftl (N.land hi 1023) 10) (N.land lo 1023).

(** The one-character escapes after a backslash. *)
Definition simple_escape (c : N) : option N :=
  if c =? QUOTE then Some QUOTE
  else if c =? BACKSLASH then Some BACKSLASH
  else if c =? chr "/" then Some (chr "/")
  else if c =? chr "b" then Some 8
  else if c =? chr "f" then Some 12
  else if c =? chr "n" then Some 10
  else if c =? chr "r" then Some 13
  else if c =? chr "t" then Some 9
  else None.

(** [scanstring(s, end, strict=True)], started after the opening quote:
    the decoded string and the text after the closing quote. *)
Fixpoint scanstring (s : pystr) : outcome (pystr * pystr) :=
  match s with
  | [] => Raise JSONDecodeError
  | c :: rest =>
      if c =? QUOTE then Ok ([], rest)
      else if c =? BACKSLASH then
        match rest with
        | [] => Raise JSONDecodeError
        | e :: rest1 =>
            if e =? chr "u" then
              match rest1 with
              | h1 :: h2 :: h3 :: h4 :: rest2 =>
                  match hex4 h1 h2 h3 h4 with
                  | None => Raise JSONDecodeError
                  | Some cp =>
                      match rest2 with
                      | b :: u :: g1 :: g2 :: g3 :: g4 :: rest3 =>
                          if is_high_surrogate cp && (b =? BACKSLASH) && (u =? chr "u")
                          then
                            match hex4 g1 g2 g3 g4 with
                            | None => Raise JSONDecodeError
                            | Some c2 =>
                                if is_low_surrogate c2
                                then '(str, r) ← scanstring rest3;
                                     Ok (join_surrogates cp c2 :: str, r)
                                else '(str, r) ← scanstring rest2;
                                     Ok (cp :: str, r)
                            end
                          else '(str, r) ← scanstring rest2; Ok (cp :: str, r)
                      | _ => '(str, r) ← scanstring rest2; Ok (cp :: str, r)
                      end
                  end
              | _ => Raise JSONDecodeError
              end
            else
              match simple_escape e with
              | Some ch => '(str, r) ← scanstring rest1; Ok (ch :: str, r)
              | None => Raise JSONDecodeError
              end
        end
      else if c <=? 31 then Raise JSONDecodeError
      else '(str, r) ← scanstring rest; Ok (c :: str, r)
  end.

(** The longest prefix of decimal digits, and what follows it. *)
Fixpoint take_digits (s : pystr) : pystr * pystr :=
  match s with
  | c :: r =>
      if is_digit c then let '(ds, r') := take_digits r in (c :: ds, r')
      else ([], s)
  | [] => ([], [])
  end.

(** [sys.int_info.default_max_str_digits]: [int] refuses a literal of more
    digits, with a [ValueError]. *)
Definition max_str_digits : nat := 4300.

(** The value of a run of decimal digits. *)
Definition digits_value (ds : pystr) : N :=
  fold_left (fun acc d => 10 * acc + (d - 48)) ds 0.

(** The fraction [\.\d+] of a number, when one follows. *)
Definition match_frac (s : pystr) : pystr * pystr :=
  match s with
  | p :: d :: r =>
      if (p =? chr ".") && is_digit d
      then let '(ds, r') := take_digits (d :: r) in (p :: ds, r')
      else ([], s)
  | _ => ([], s)
  end.

(** The exponent [[eE][-+]?\d+] of a number, when one follows. *)
Definition match_exp (s : pystr) : pystr * pystr :=
  match s with
  | e :: r =>
      if (e =? chr "e") || (e =? chr "E") then
        let '(sign, r1) :=
          match r with
          | sg :: r1 =>
              if (sg =? chr "-") || (sg =? chr "+") then ([sg], r1) else ([], r)
          | [] => ([], r)
          end in
        let '(ds, r2) := take_digits r1 in
        match ds with
        | [] => ([], s)
        | _ => (e :: sign ++ ds, r2)
        end
      else ([], s)
  | [] => ([], s)
  end.

(** [_match_number]: an integer literal becomes an [int], unless it has too
    many digits; a literal with a fraction or an exponent becomes a
    [float]. *)
Definition match_number (s : pystr) : outcome (pyval * pystr) :=
  let '(sign, s1) :=
    match s with
    | c :: r => if c =? chr "-" then ([c], r) else ([], s)
    | [] => ([], s)
    end in
  match s1 with
  | [] => Raise JSONDecodeError
  | c :: r =>
      let '(int_part, r1) :=
        if (49 <=? c) && (c <=? 57)
        then let '(ds, r') := take_digits r in (c :: ds, r')
        else if c =? 48 then ([c], r)
        else ([], s1) in
      match int_part with
      | [] => Raise JSONDecodeError
      | _ =>
          let '(frac, r2) := match_frac r1 in
          let '(ex, r3) := match_exp r2 in
          match frac, ex with
          | [], [] =>
              if (max_str_digits <? length int_part)%nat then Raise ValueError
              else
                let n := Z.of_N (digits_value int_part) in
                Ok (PyInt (match sign with [] => n | _ => (- n)%Z end), r3)
          | _, _ => Ok (PyFloat (sign ++ int_part ++ frac ++ ex), r3)
          end
      end
  end.

(** [s] starts with the literal [lit]: what follows it. *)
Fixpoint expect (lit s : pystr) : option pystr :=
  match lit, s with
  | [], _ => Some s
  | a :: lit', b :: s' => if a =? b then expect lit' s' else None
  | _ :: _, [] => None
  end.

(** [scan_once], [_parse_array] and [_parse_object].  The recursion of the
    scanner is bounded by [fuel]; [loads] below starts it with enough. *)
Fixpoint scan_once (fuel : nat) (s : pystr) {struct fuel}
  : outcome (pyval * pystr) :=
  match fuel with
  | O => Raise RecursionError
  | S fuel =>
      match s with
      | [] => Raise JSONDecodeError
      | c :: rest =>
          if c =? QUOTE then
            '(str, r) ← scanstring rest; Ok (PyStr str, r)
          else if c =? chr "{" then
            match skip_ws rest with
            | c' :: r' =>
                if c' =? chr "}" then Ok (PyDict [], r')
                else '(d, r) ← parse_members fuel (c' :: r');
                     Ok (PyDict (dict_of_pairs d), r)
            | [] => Raise JSONDecodeError
            end
          else if c =? chr "[" then
            match skip_ws rest with
            | c' :: r' =>
                if c' =? chr "]" then Ok (PyList [], r')
                else '(l, r) ← parse_items fuel (c' :: r'); Ok (PyList l, r)
            | [] => Raise JSONDecodeError
            end
          else if c =? chr "n" then
            match expect (py "ull") rest with
            | Some r => Ok (PyNone, r)
            | None => Raise JSONDecodeError
            end
          else if c =? chr "t" then
            match expect (py "rue") rest with
            | Some r => Ok (PyBool true, r)
            | None => Raise JSONDecodeError
            end
          else if c =? chr "f" then
            match expect (py "alse") rest with
            | Some r => Ok (PyBool false, r)
            | None => Raise JSONDecodeError
            end
          else if c =? chr "N" then
            match expect (py "aN") rest with
            | Some r => Ok (PyFloat (py "NaN"), r)
            | None => Raise JSONDecodeError
            end
          else if c =? chr "I" then
            match expect (py "nfinity") rest with
            | Some r => Ok (PyFloat (py "Infinity"), r)
            | None => Raise JSONDecodeError
            end
          else if c =? chr "-" then
            match expect (py "Infinity") rest with
            | Some r => Ok (PyFloat (py "-Infinity"), r)
            | None => match_number s
            end
          else match_number s
      end
  end

(** The values of a non-empty array, from its first value to the closing
    bracket. *)
with parse_items (fuel : nat) (s : pystr) {struct fuel}
  : outcome (list pyval * pystr) :=
  match fuel with
  | O => Raise RecursionError
  | S fuel =>
      '(v, r) ← scan_once fuel s;
      match skip_ws r with
      | c :: r' =>
          if c =? chr "]" then Ok ([v], r')
          else if c =? chr "," then
            '(vs, r'') ← parse_items fuel (skip_ws r'); Ok (v :: vs, r'')
          else Raise JSONDecodeError
      | [] => Raise JSONDecodeError
      end
  end

(** The members of a non-empty object, from its first key to the closing
    brace; a key met again takes the later value. *)
with parse_members (fuel : nat) (s : pystr) {struct fuel}
  : outcome (list (pystr * pyval) * pystr) :=
  match fuel with
  | O => Raise RecursionError
  | S fuel =>
      match s with
      | q :: r0 =>
          if q =? QUOTE then
            '(key, r1) ← scanstring r0;
            match skip_ws r1 with
            | colon :: r2 =>
                if colon =? chr ":" then
                  '(v, r3) ← scan_once fuel (skip_ws r2);
                  match skip_ws r3 with
                  | c :: r' =>
                      if c =? chr "}" then Ok ([(key, v)], r')
                      else if c =? chr "," then
                        '(d, r'') ← parse_members fuel (skip_ws r');
                        Ok ((key, v) :: d, r'')
                      else Raise JSONDecodeError
                  | [] => Raise JSONDecodeError
                  end
                else Raise JSONDecodeError
            | [] => Raise JSONDecodeError
            end
          else Raise JSONDecodeError
      | [] => Raise JSONDecodeError
      end
  end.

(** [JSONDecoder.decode]: leading white space, one value, trailing white
    space, and nothing else. *)
Definition loads (s : pystr) : outcome pyval :=
  '(v, r) ← scan_once (2 * length s + 2) (skip_ws s);
  match skip_ws r with
  | [] => Ok v
  | _ :: _ => Raise JSONDecodeError
  end.
Arguments loads : simpl never.

End Decoder.

(** ** [json.dump(tasks, f, indent=2)]: the encoder *)

Module Encoder.

(** ["0123456789abcdef"[d]] *)
Definition hex_digit (d : N) : N := if d <? 10 then 48 + d else 87 + d.

(** ['\\u{0:04x}'.format(n)] *)
Definition u_escape (n : N) : pystr :=
  [BACKSLASH; chr "u";
   hex_digit (N.land (N.shiftr n 12) 15); hex_digit (N.land (N.shiftr n 8) 15);
   hex_digit (N.land (N.shiftr n 4) 15); hex_digit (N.land n 15)].

(** The replacement of one character outside [' '..'~'] or equal to a quote
    or a backslash ([ESCAPE_DCT], then the [\u] forms). *)
Definition escape_char (c : N) : pystr :=
  if c =? BACKSLASH then [BACKSLASH; BACKSLASH]
  else if c =? QUOTE then [BACKSLASH; QUOTE]
  else if c =? 8 then [BACKSLASH; chr "b"]
  else if c =? 12 then [BACKSLASH; chr "f"]
  else if c =? 10 then [BACKSLASH; chr "n"]
  else if c =? 13 then [BACKSLASH; chr "r"]
  else if c =? 9 then [BACKSLASH; chr "t"]
  else if c <? 65536 then u_escape c
  else
    let n := c - 65536 in
    let s1 := N.lor 55296 (N.land (N.shiftr n 10) 1023) in
    let s2 := N.lor 56320 (N.land n 1023) in
    u_escape s1 ++ u_escape s2.

(** [ESCAPE_ASCII]: a backslash, a quote, or anything outside [' '..'~']. *)
Definition needs_escape (c : N) : bool :=
  (c =? BACKSLASH) || (c =? QUOTE) || negb ((32 <=? c) && (c <=? 126)).

Fixpoint escape_all (s : pystr) : pystr :=
  match s with
  | [] => []
  | c :: r => (if needs_escape c then escape_char c else [c]) ++ escape_all r
  end.

(** [encode_basestring_ascii] *)
Definition encode_basestring_ascii (s : pystr) : pystr :=
  QUOTE :: escape_all s ++ [QUOTE].

Fixpoint uint_chars (u : Decimal.uint) : pystr :=
  match u with
  | Decimal.Nil => []
  | Decimal.D0 u => 48 :: uint_chars u
  | Decimal.D1 u => 49 :: uint_chars u
  | Decimal.D2 u => 50 :: uint_chars u
  | Decimal.D3 u => 51 :: uint_chars u
  | Decimal.D4 u => 52 :: uint_chars u
  | Decimal.D5 u => 53 :: uint_chars u
  | Decimal.D6 u => 54 :: uint_chars u
  | Decimal.D7 u => 55 :: uint_chars u
  | Decimal.D8 u => 56 :: uint_chars u
  | Decimal.D9 u => 57 :: uint_chars u
  end.

(** [int.__repr__], for an integer of at most [Decoder.max_str_digits]
    digits; every integer the module builds or loads is one. *)
Definition repr_int (z : Z) : pystr :=
  match z with
  | Z0 => [48]
  | Zpos p => uint_chars (Pos.to_uint p)
  | Zneg p => chr "-" :: uint_chars (Pos.to_uint p)
  end.

Definition encode_bool (b : bool) : pystr := if b then py "true" else py "false".

(** A line break followed by the indentation of [level]: ['\n' + ' ' * (2 * level)]. *)
Definition newline_indent (level : nat) : pystr := NL :: repeat 32 (2 * level).
Arguments newline_indent : simpl never.

(** [_iterencode_dict] on already encoded values: a non-empty dict whose
    keys are strings, at nesting [level]. *)
Definition encode_dict (level : nat) (items : list (pystr * pystr)) : pystr :=
  match items with
  | [] => py "{}"
  | _ =>
      py "{" ++ newline_indent (S level)
      ++ join (py "," ++ newline_indent (S level))
           (map (fun kv => encode_basestring_ascii kv.1 ++ py ": " ++ kv.2) items)
      ++ newline_indent level ++ py "}"
  end.

(** [_iterencode_list] on already encoded values, at nesting [level]. *)
Definition encode_list (level : nat) (items : list pystr) : pystr :=
  match items with
  | [] => py "[]"
  | _ =>
      py "[" ++ newline_indent (S level)
      ++ join (py "," ++ newline_indent (S level)) items
      ++ newline_indent level ++ py "]"
  end.

End Encoder.

(** ** Tasks *)

(** The dict built by [add_tasks], one field per key, in the order of the
    literal. *)
Record Task : Type := mkTask {
  id : pystr;
  text : pystr;
  completed : bool;
  timestamp : Z;
  priority_score : Z;
  source : pystr;
}.

Definition set_priority_score (score : Z) (t : Task) : Task :=
  {| id := id t; text := text t; completed := completed t;
     timestamp := timestamp t; priority_score := score; source := source t |}.

(** The Python value of a task. *)
Definition task_to_py (t : Task) : pyval :=
  PyDict [(py "id", PyStr (id t)); (py "text", PyStr (text t));
          (py "completed", PyBool (completed t));
          (py "timestamp", PyInt (timestamp t));
          (py "priority_score", PyInt (priority_score t));
          (py "source", PyStr (source t))].

Definition tasks_to_py (tasks : list Task) : pyval :=
  PyList (map task_to_py tasks).

(** Reading a task back from a Python value of that shape. *)
Definition task_of_py (v : pyval) : option Task :=
  match v with
  | PyDict [(k1, PyStr i); (k2, PyStr t); (k3, PyBool c);
            (k4, PyInt ts); (k5, PyInt p); (k6, PyStr s)] =>
      if decide ([k1; k2; k3; k4; k5; k6]
                 = [py "id"; py "text"; py "completed"; py "timestamp";
                    py "priority_score"; py "source"])
      then Some (mkTask i t c ts p s) else None
  | _ => None
  end.

Definition tasks_of_py (v : pyval) : option (list Task) :=
  match v with
  | PyList l => mapM task_of_py l
  | _ => None
  end.

(** The text [json.dump(tasks, f, indent=2)] writes. *)
Definition dump_task (level : nat) (t : Task) : pystr :=
  Encoder.encode_dict level
    [(py "id", Encoder.encode_basestring_ascii (id t));
     (py "text", Encoder.encode_basestring_ascii (text t));
     (py "completed", Encoder.encode_bool (completed t));
     (py "timestamp", Encoder.repr_int (timestamp t));
     (py "priority_score", Encoder.repr_int (priority_score t));
     (py "source", Encoder.encode_basestring_ascii (source t))].

Definition dump_tasks (tasks : list Task) : pystr :=
  Encoder.encode_list 0 (map (dump_task 1) tasks).

(** ** [re.search(r'\[.*?\]', response, re.DOTALL)] *)

Module Re.

(** The lazy [.*?\]]: the closing bracket is tried first, and only when the
    next character is not one is a character (any one, with [DOTALL])
    consumed. *)
Fixpoint lazy_to_close (s : pystr) : option pystr :=
  match s with
  | [] => None
  | c :: r => if c =? chr "]" then Some [c] else cons c <$> lazy_to_close r
  end.

(** The pattern tried at the first position of [s]. *)
Definition match_here (s : pystr) : option pystr :=
  match s with
  | c :: r => if c =? chr "[" then cons c <$> lazy_to_close r else None
  | [] => None
  end.

(** [re.search]: the start positions from left to right; [group(0)] of the
    first match. *)
Fixpoint search (s : pystr) : option pystr :=
  match match_here s with
  | Some m => Some m
  | None =>
      match s with
      | [] => None
      | _ :: r => search r
      end
  end.

End Re.

(** ** The program state *)

(** [tasks.json] as [load_tasks] and [save_tasks] can find it. *)
Inductive file_state : Type :=
| Absent                (* no such path *)
| Denied                (* the path exists, [open] raises [OSError] *)
| Undecodable           (* the bytes are not UTF-8: reading raises *)
| Content (s : pystr).  (* the decoded text of the file *)

(** The one task list of the window ([self.tasks], the list every function
    is called with), the rows of its list widget, the store file, and the
    language model: the prompts it was run with so far, oldest first, and
    the text its process writes to standard output for the next one. *)
Record state : Type := mkState {
  tasks : list Task;
  task_list : list pystr;
  TASK_FILE : file_state;
  prompts : list pystr;
  ollama_stdout : list pystr -> pystr -> pystr;
}.

Definition set_tasks (l : list Task) (st : state) : state :=
  mkState l (task_list st) (TASK_FILE st) (prompts st) (ollama_stdout st).
Definition set_task_list (rows : list pystr) (st : state) : state :=
  mkState (tasks st) rows (TASK_FILE st) (prompts st) (ollama_stdout st).
Definition set_TASK_FILE (f : file_state) (st : state) : state :=
  mkState (tasks st) (task_list st) f (prompts st) (ollama_stdout st).
Definition set_prompts (ps : list pystr) (st : state) : state :=
  mkState (tasks st) (task_list st) (TASK_FILE st) ps (ollama_stdout st).

(** A statement: it returns or raises, and leaves a state either way. *)
Definition M (A : Type) : Type := state -> outcome A * state.

Definition ret {A} (a : A) : M A := fun st => (Ok a, st).
Definition bind {A B} (m : M A) (f : A -> M B) : M B := fun st =>
  match m st with
  | (Ok a, st') => f a st'
  | (Raise e, st') => (Raise e, st')
  end.
Definition lift {A} (o : outcome A) : M A := fun st => (o, st).
Definition get : M state := fun st => (Ok st, st).
Definition modify (f : state -> state) : M unit := fun st => (Ok tt, f st).

(** [try: body / except: handler], the bare [except] of the source. *)
Definition try_except {A} (body handler : M A) : M A := fun st =>
  match body st with
  | (Ok a, st') => (Ok a, st')
  | (Raise _, st') => handler st'
  end.

#[global] Instance M_ret : MRet M := @ret.
#[global] Instance M_bind : MBind M := fun A B f m => bind m f.

(** ** Language model *)

(** [ollama_generate(prompt)]: the process is run on the prompt and its
    output stripped. *)
Definition ollama_generate (prompt : pystr) : M pystr :=
  st ← get;
  modify (set_prompts (prompts st ++ [prompt]));;
  ret (strip (ollama_stdout st (prompts st) prompt)).

(** ** Storage *)

Definition path_exists : M bool :=
  st ← get;
  ret (match TASK_FILE st with Absent => false | _ => true end).

(** [open(TASK_FILE, "r", encoding="utf-8")] and [f.read()] *)
Definition read_file : M pystr :=
  st ← get;
  match TASK_FILE st with
  | Absent | Denied => lift (Raise OSError)
  | Undecodable => lift (Raise UnicodeDecodeError)
  | Content s => ret s
  end.

(** [open(TASK_FILE, "w", encoding="utf-8")] and the writes of [json.dump] *)
Definition write_file (s : pystr) : M unit :=
  st ← get;
  match TASK_FILE st with
  | Denied => lift (Raise OSError)
  | _ => modify (set_TASK_FILE (Content s))
  end.

Definition load_tasks : M pyval :=
  e ← path_exists;
  if e : bool then
    try_except
      (s ← read_file; lift (Decoder.loads s))
      (ret (PyList []))
  else ret (PyList []).

Definition save_tasks (tasks : list Task) : M unit :=
  write_file (dump_tasks tasks).

(** ** AI task extraction *)

Definition lines (ls : list pystr) : pystr := join [NL] ls.

Definition extract_prompt (text : pystr) : pystr :=
  lines [ [];
          py "Extract tasks from the text below.";
          [];
          py "Return ONLY a valid JSON array of strings.";
          py "No explanations.";
          py "No markdown.";
          py "No extra text.";
          [];
          py "Text:";
          text;
          [] ].

Definition extract_tasks_from_text (text : pystr) : M pyval :=
  response ← ollama_generate (extract_prompt text);
  match Re.search response with
  | None => ret (PyList [])
  | Some m =>
      try_except (lift (Decoder.loads m)) (ret (PyList []))
  end.

(** ** Task logic *)

(** What [enumerate(v)] runs over and [len(v)] counts: the items of a list,
    the characters of a string, the keys of a dict. *)
Definition py_iter (v : pyval) : outcome (list pyval) :=
  match v with
  | PyList l => Ok l
  | PyStr s => Ok (map (fun c => PyStr [c]) s)
  | PyDict d => Ok (map (fun kv => PyStr kv.1) d)
  | _ => Raise TypeError
  end.

(** A list or a dict cannot be the key of a dict. *)
Definition hashable (v : pyval) : bool :=
  match v with
  | PyList _ | PyDict _ => false
  | _ => true
  end.

(** The dict comprehension
    [{task_id: len(ranked_ids) - i for i, task_id in enumerate(ranked_ids)}],
    from position [i] on, with [len_ranked] the length of the whole list.
    The dict is only ever looked up with the [id] of a task, a [str], and a
    [str] equals no number, boolean or [None]: the map holds the [str] keys
    of the dict, and a hashable key of another type leaves it unchanged. *)
Fixpoint id_to_score_from (len_ranked i : Z) (ranked_ids : list pyval)
    (d : gmap pystr Z) : outcome (gmap pystr Z) :=
  match ranked_ids with
  | [] => Ok d
  | task_id :: rest =>
      match task_id with
      | PyStr s =>
          id_to_score_from len_ranked (i + 1) rest (<[s := (len_ranked - i)%Z]> d)
      | PyList _ | PyDict _ => Raise TypeError
      | _ => id_to_score_from len_ranked (i + 1) rest d
      end
  end.

Definition build_id_to_score (ranked_ids : list pyval) : outcome (gmap pystr Z) :=
  id_to_score_from (Z.of_nat (length ranked_ids)) 0 ranked_ids ∅.

(** The body of the loop [for task in tasks]. *)
Definition assign_score (id_to_score : gmap pystr Z) (task : Task) : Task :=
  match id_to_score !! id task with
  | Some score => set_priority_score score task
  | None => set_priority_score 0 task
  end.

Section Sort.
Context {A : Type} (key : A -> Z).

(** [x], which stood before every element of the sorted [l], goes before
    the first element whose key is not smaller than its own. *)
Fixpoint insert_by (x : A) (l : list A) : list A :=
  match l with
  | [] => [x]
  | y :: l' => if (key y <? key x)%Z then y :: insert_by x l' else x :: l
  end.

(** The stable ascending sort. *)
Definition sorted_stable (l : list A) : list A := foldr insert_by [] l.

(** [l.sort(key=key, reverse=rev)]: with [reverse=True] the list is
    reversed, sorted ascending and reversed again. *)
Definition list_sort (rev : bool) (l : list A) : list A :=
  if rev then reverse (sorted_stable (reverse l)) else sorted_stable l.

(** Ascending and descending order of the keys. *)
Definition key_le : relation A := fun a b => (key a <= key b)%Z.
Definition key_ge : relation A := fun a b => (key b <= key a)%Z.
End Sort.

Definition task_line (i : nat) (t : Task) : pystr :=
  Encoder.repr_int (Z.of_nat i + 1) ++ py ". ID: " ++ id t
  ++ py " | Task: " ++ text t.

Definition rank_prompt (task_list_text : pystr) : pystr :=
  lines [ [];
          py "    You are a productivity AI.";
          [];
          py "    Rank the following tasks from MOST important to LEAST important.";
          [];
          py "    Consider:";
          py "    - Urgency";
          py "    - Practical importance";
          py "    - Likely deadlines";
          py "    - Real-world impact";
          [];
          py "    Return ONLY a JSON array of task IDs in ranked order.";
          py "    No explanations.";
          py "    No markdown.";
          py "    No extra text.";
          [];
          py "    Tasks:";
          py "    " ++ task_list_text;
          py "    " ].

(** The scores and the sort, once [ranked_ids] is parsed. *)
Definition apply_ranking (ranked_ids : pyval) : M unit :=
  ids ← lift (py_iter ranked_ids);
  id_to_score ← lift (build_id_to_score ids);
  modify (fun st => set_tasks (map (assign_score id_to_score) (tasks st)) st);;
  modify (fun st => set_tasks (list_sort priority_score true (tasks st)) st).

Definition rank_tasks : M unit :=
  st ← get;
  let incomplete_tasks := filter (fun t => completed t = false) (tasks st) in
  match incomplete_tasks with
  | [] => ret tt
  | _ :: _ =>
      let task_list_text := join [NL] (imap task_line incomplete_tasks) in
      response ← ollama_generate (rank_prompt task_list_text);
      match Re.search response with
      | None => ret tt
      | Some m =>
          match Decoder.loads m with
          | Raise _ => ret tt
          | Ok ranked_ids => apply_ranking ranked_ids
          end
      end
  end.

(** ** The window *)

Definition display (t : Task) : pystr :=
  text t ++ py "  (score: " ++ Encoder.repr_int (priority_score t) ++ py ")".

Definition refresh_list : M unit :=
  modify (fun st => set_task_list (map display (tasks st)) st).

(** [self.tasks.pop(index)] *)
Definition tasks_pop (index : Z) : M Task :=
  st ← get;
  let n := Z.of_nat (length (tasks st)) in
  let i := if (index <? 0)%Z then (index + n)%Z else index in
  if ((i <? 0) || (n <=? i))%Z then lift (Raise IndexError)
  else
    match tasks st !! Z.to_nat i with
    | Some t => modify (set_tasks (delete (Z.to_nat i) (tasks st)));; ret t
    | None => lift (Raise IndexError)
    end.

(** [self.task_list.takeItem(row)]: no row, no effect. *)
Definition takeItem (row : Z) : M unit :=
  if (row <? 0)%Z then ret tt
  else modify (fun st => set_task_list (delete (Z.to_nat row) (task_list st)) st).

(** [complete_selected], with [selected] the row [currentRow()] returns
    ([-1] when no row is selected). *)
Definition complete_selected (selected : Z) : M unit :=
  if (0 <=? selected)%Z then
    tasks_pop selected;;
    st ← get;
    save_tasks (tasks st);;
    takeItem selected
  else ret tt.

(** ** Transcription *)

(** [transcribe_audio], with [segments] the texts of the segments that
    [whisper_model.transcribe(file_path)] yields, in their order. *)
Definition transcribe_audio (segments : list pystr) : pystr :=
  strip (fold_left (fun text segment => text ++ (segment ++ py " ")) segments []).

(** ** The window: what its handlers draw on *)

(** The window around the task list: the text of the input line, the
    warning boxes shown so far (title and text, oldest first), and the two
    sources [add_tasks] draws on, [str(uuid.uuid4())] and
    [int(time.time())], each with the number of calls made so far. *)
Record window : Type := mkWindow {
  core : state;
  input_field : pystr;
  warnings : list (pystr * pystr);
  uuid4 : nat -> pystr;
  uuid4_calls : nat;
  time_time : nat -> Z;
  time_calls : nat;
}.

Definition set_core (st : state) (w : window) : window :=
  mkWindow st (input_field w) (warnings w) (uuid4 w) (uuid4_calls w)
    (time_time w) (time_calls w).
Definition set_input_field (s : pystr) (w : window) : window :=
  mkWindow (core w) s (warnings w) (uuid4 w) (uuid4_calls w)
    (time_time w) (time_calls w).
Definition set_warnings (ws : list (pystr * pystr)) (w : window) : window :=
  mkWindow (core w) (input_field w) ws (uuid4 w) (uuid4_calls w)
    (time_time w) (time_calls w).
Definition set_uuid4_calls (n : nat) (w : window) : window :=
  mkWindow (core w) (input_field w) (warnings w) (uuid4 w) n
    (time_time w) (time_calls w).
Definition set_time_calls (n : nat) (w : window) : window :=
  mkWindow (core w) (input_field w) (warnings w) (uuid4 w) (uuid4_calls w)
    (time_time w) n.

(** A statement of a handler. *)
Definition W (A : Type) : Type := window -> outcome A * window.

Definition retW {A} (a : A) : W A := fun w => (Ok a, w).
Definition bindW {A B} (m : W A) (f : A -> W B) : W B := fun w =>
  match m w with
  | (Ok a, w') => f a w'
  | (Raise e, w') => (Raise e, w')
  end.
Definition getW : W window := fun w => (Ok w, w).
Definition modifyW (f : window -> window) : W unit := fun w => (Ok tt, f w).

#[global] Instance W_ret : MRet W := @retW.
#[global] Instance W_bind : MBind W := fun A B f m => bindW m f.

(** A statement on the task list, the store or the model, run in the
    window. *)
Definition in_core {A} (m : M A) : W A := fun w =>
  match m (core w) with
  | (o, st) => (o, set_core st w)
  end.

(** [str(uuid.uuid4())] *)
Definition uuid4_str : W pystr := fun w =>
  (Ok (uuid4 w (uuid4_calls w)), set_uuid4_calls (S (uuid4_calls w)) w).

(** [int(time.time())] *)
Definition time_int : W Z := fun w =>
  (Ok (time_time w (time_calls w)), set_time_calls (S (time_calls w)) w).

(** [QMessageBox.warning(self, title, text)] *)
Definition warning (title text : pystr) : W unit :=
  modifyW (fun w => set_warnings (warnings w ++ [(title, text)]) w).

(** ** Task logic: adding *)

(** The loop of [add_tasks]: one task per text, appended to the list. *)
Fixpoint add_tasks_loop (new_texts : list pystr) (source : pystr) : W unit :=
  match new_texts with
  | [] => mret tt
  | text :: rest =>
      i ← uuid4_str;
      ts ← time_int;
      in_core (modify (fun st =>
                set_tasks (tasks st ++ [mkTask i text false ts 0 source]) st));;
      add_tasks_loop rest source
  end.

Definition add_tasks (new_texts : list pystr) (source : pystr) : W unit :=
  add_tasks_loop new_texts source;;
  in_core rank_tasks.

(** ** The window: adding tasks *)

Definition is_empty_str (s : pystr) : bool :=
  match s with [] => true | _ => false end.

Definition add_manual : W unit :=
  w ← getW;
  let text := strip (input_field w) in
  if is_empty_str text then mret tt
  else
    add_tasks [text] (py "manual");;
    w1 ← getW;
    in_core (save_tasks (tasks (core w1)));;
    in_core rank_tasks;;
    in_core refresh_list;;
    modifyW (set_input_field []).

(** [bool(v)], the test of [if not extracted].  A float is kept as its
    literal, and whether it denotes zero is not decided here. *)
Definition truthy (v : pyval) : option bool :=
  match v with
  | PyNone => Some false
  | PyBool b => Some b
  | PyInt z => Some (negb (z =? 0)%Z)
  | PyFloat _ => None
  | PyStr s => Some (negb (is_empty_str s))
  | PyList l => Some (match l with [] => false | _ => true end)
  | PyDict d => Some (match d with [] => false | _ => true end)
  end.

(** The items of an extraction as texts of tasks.  The [text] of a [Task]
    is a string: an item of another type is outside what the record
    holds. *)
Definition texts_of (items : list pyval) : option (list pystr) :=
  mapM (fun v => match v with PyStr s => Some s | _ => None end) items.

(** [extract_text_ai].  [None]: the run leaves the embedding, on a float
    tested for truth or on an extracted item that is not a string. *)
Definition extract_text_ai (w : window) : option (outcome unit * window) :=
  let text := strip (input_field w) in
  if is_empty_str text then Some (Ok tt, w)
  else
    match in_core (extract_tasks_from_text text) w with
    | (Raise e, w1) => Some (Raise e, w1)
    | (Ok extracted, w1) =>
        match truthy extracted with
        | None => None
        | Some false =>
            Some (warning (py "AI Error") (py "No tasks extracted.") w1)
        | Some true =>
            match py_iter extracted with
            | Raise e => Some (Raise e, w1)
            | Ok items =>
                match texts_of items with
                | None => None
                | Some texts =>
                    Some ((add_tasks texts (py "ai");;
                           in_core rank_tasks;;
                           w2 ← getW;
                           in_core (save_tasks (tasks (core w2)));;
                           in_core refresh_list;;
                           modifyW (set_input_field [])) w1)
                end
            end
        end
    end.

(** [TaskTracker.__init__]: the tasks are loaded, the input line is empty,
    the rows are filled.  [None]: the store file holds JSON that is not a
    list of task records, which the task list of the embedding cannot
    hold. *)
Definition __init__ (w : window) : option (outcome unit * window) :=
  match in_core load_tasks w with
  | (Raise e, w1) => Some (Raise e, w1)
  | (Ok v, w1) =>
      match tasks_of_py v with
      | None => None
      | Some l =>
          Some ((in_core (modify (set_tasks l));;
                 modifyW (set_input_field []);;
                 in_core refresh_list) w1)
      end
  end.

(** ** The window: tasks from a media file *)

(** What [upload_media] finds outside the program: the path the file
    dialog returns (empty when it is cancelled), whether [ffmpeg] converts
    the video at a path, the resolved path of [temp_audio.wav], and the
    texts of the segments the speech model yields for the audio at a path
    ([None] when it raises). *)
Record media : Type := mkMedia {
  chosen_file : pystr;
  ffmpeg_runs : pystr -> bool;
  temp_audio_wav : pystr;
  whisper_segments : pystr -> option (list pystr);
}.

(** How [upload_media] ends: it returns, or it shows the box [Error] with
    the text of the exception it caught ([None]: an exception of one of
    the media tools) and returns. *)
Inductive ending : Type :=
| Returned
| ErrorBox (caught : option exn).

(** [s.startswith(prefix)] and [s.endswith(suffix)] *)
Fixpoint startswith (s prefix : pystr) : bool :=
  match prefix, s with
  | [], _ => true
  | p :: prefix', c :: s' => (p =? c) && startswith s' prefix'
  | _ :: _, [] => false
  end.

Definition endswith (s suffix : pystr) : bool :=
  startswith (reverse s) (reverse suffix).

(** [extract_audio_from_video]: the path of the audio, or [None] when the
    conversion raises. *)
Definition extract_audio_from_video (env : media) (video_path : pystr)
  : option pystr :=
  if ffmpeg_runs env video_path then Some (temp_audio_wav env) else None.

(** What the [try] block of [upload_media] does once tasks are extracted:
    [add_tasks], [save_tasks], [refresh_list]. *)
Definition add_media_tasks (texts : list pystr) : W unit :=
  add_tasks texts (py "media");;
  w ← getW;
  in_core (save_tasks (tasks (core w)));;
  in_core refresh_list.

(** [upload_media]: every exception of the [try] block is caught and
    shown.  [None]: the run leaves the embedding, as in
    [extract_text_ai]. *)
Definition upload_media (env : media) (w : window) : option (ending * window) :=
  let file_path := chosen_file env in
  if is_empty_str file_path then Some (Returned, w)
  else
    let audio :=
      if endswith file_path (py ".mp4")
      then extract_audio_from_video env file_path
      else Some file_path in
    match audio with
    | None => Some (ErrorBox None, w)
    | Some audio_path =>
        match whisper_segments env audio_path with
        | None => Some (ErrorBox None, w)
        | Some segments =>
            let transcript := transcribe_audio segments in
            if is_empty_str transcript then
              Some (Returned,
                    (warning (py "Transcription Error")
                       (py "Could not transcribe audio.") w).2)
            else
              match in_core (extract_tasks_from_text transcript) w with
              | (Raise e, w1) => Some (ErrorBox (Some e), w1)
              | (Ok extracted, w1) =>
                  match truthy extracted with
                  | None => None
                  | Some false =>
                      Some (Returned,
                            (warning (py "AI Error") (py "No tasks extracted.")
                               w1).2)
                  | Some true =>
                      match py_iter extracted with
                      | Raise e => Some (ErrorBox (Some e), w1)
                      | Ok items =>
                          match texts_of items with
                          | None => None
                          | Some texts =>
                              match add_media_tasks texts w1 with
                              | (Ok _, w2) => Some (Returned, w2)
                              | (Raise e, w2) => Some (ErrorBox (Some e), w2)
                              end
                          end
                      end
                  end
              end
        end
    end.

(** * Vocabulary of the statements *)

(** ** What the model is asked and what it answers *)

(** The prompt [rank_tasks] builds in a state. *)
Definition rank_prompt_of (st : state) : pystr :=
  rank_prompt
    (join [NL] (imap task_line (filter (fun t => completed t = false) (tasks st)))).

(** The response [ollama_generate] returns for a prompt in a state, and the
    state it leaves. *)
Definition response_to (prompt : pystr) (st : state) : pystr :=
  strip (ollama_stdout st (prompts st) prompt).

Definition after_prompt (prompt : pystr) (st : state) : state :=
  set_prompts (prompts st ++ [prompt]) st.

(** ** Strings and tasks that [json] can carry *)

(** A string [json] can carry: code points of Unicode, and no high
    surrogate followed by a low one (two such code points are written as
    two escapes, which the decoder reads back as one character). *)
Fixpoint wf_str (s : pystr) : bool :=
  match s with
  | [] => true
  | c :: r =>
      (c <? 1114112)
      && negb (Decoder.is_high_surrogate c
               && match r with
                  | c' :: _ => Decoder.is_low_surrogate c'
                  | [] => false
                  end)
      && wf_str r
  end.

(** An integer [json] can carry: one that [int] converts from and to its
    decimal form. *)
Definition wf_int (z : Z) : bool :=
  (length (Encoder.repr_int (Z.abs z)) <=? Decoder.max_str_digits)%nat.

(** A task whose strings and integers [json] can carry. *)
Definition wf_task (t : Task) : bool :=
  wf_str (id t) && wf_str (text t) && wf_str (source t)
  && wf_int (timestamp t) && wf_int (priority_score t).

(** A text decoded from UTF-8, as the text of the store file or the output
    of the model is: code points of Unicode, none of them a surrogate. *)
Definition scalar (c : N) : bool :=
  (c <? 1114112)
  && negb (Decoder.is_high_surrogate c) && negb (Decoder.is_low_surrogate c).

Definition utf8_text (s : pystr) : Prop := Forall (fun c => scalar c = true) s.

(** A Python value whose strings and integers [json] can carry. *)
Fixpoint wf_val (v : pyval) : Prop :=
  match v with
  | PyInt z => wf_int z = true
  | PyStr s => wf_str s = true
  | PyList l =>
      (fix all (l : list pyval) : Prop :=
         match l with
         | [] => True
         | x :: l' => wf_val x /\ all l'
         end) l
  | PyDict d =>
      (fix all (d : list (pystr * pyval)) : Prop :=
         match d with
         | [] => True
         | kx :: d' => wf_val kx.2 /\ all d'
         end) d
  | _ => True
  end.

(** ** Reading back what the encoder wrote *)

(** The character [c] put before the string of a scan. *)
Definition then_cons (c : N) (o : outcome (pystr * pystr)) : outcome (pystr * pystr) :=
  '(str, r) ← o; Ok (c :: str, r).

(** What stands after a [\u] escape does not complete a surrogate pair. *)
Definition no_low_escape (X : pystr) : Prop :=
  match X with
  | b :: u :: X' =>
      (b =? BACKSLASH) && (u =? chr "u") = true ->
      match X' with
      | g1 :: g2 :: g3 :: g4 :: _ =>
          exists c2, Decoder.hex4 g1 g2 g3 g4 = Some c2
                     /\ Decoder.is_low_surrogate c2 = false
      | _ => True
      end
  | _ => True
  end.

(** What may follow an integer literal: not a digit, and nothing that
    starts a fraction or an exponent. *)
Definition number_end (rest : pystr) : Prop :=
  match rest with
  | c :: _ =>
      Decoder.is_digit c = false
      /\ c <> chr "." /\ c <> chr "e" /\ c <> chr "E"
  | [] => True
  end.

(** Inside what the encoder writes, a value is followed by a comma or by a
    line break. *)
Definition value_end (after : pystr) : Prop :=
  exists r, after = chr "," :: r \/ after = NL :: r.

(** [enc] is read back as [v], with any fuel from [fuel0] on. *)
Definition parses (fuel0 : nat) (enc : pystr) (v : pyval) : Prop :=
  forall fuel after, (fuel0 <= fuel)%nat -> value_end after ->
    Decoder.scan_once fuel (enc ++ after) = Ok (v, after).

(** [enc] starts with a character that is not white space. *)
Definition starts_value (enc : pystr) : Prop :=
  match enc with
  | c :: _ => Decoder.is_ws c = false
  | [] => False
  end.

(** A scan ends well: it consumed at least one character and left the
    text that followed, or it failed on the text (and not for lack of
    fuel). *)
Definition scans_well {A} (o : outcome (A * pystr)) (s : pystr) : Prop :=
  match o with
  | Ok (_, r) => r `suffix_of` s /\ (length r < length s)%nat
  | Raise e => e <> RecursionError
  end.

(** ** Example states *)

(** The literal [s] between double quotes. *)
Definition quoted (s : string) : pystr := QUOTE :: py s ++ [QUOTE].

(** A manual task with id [i]. *)
Definition example_task (i : string) (done : bool) (score : Z) : Task :=
  mkTask (py i) (py "task " ++ py i) done 1700000000 score (py "manual").

(** A window over [l], no store file yet, and a model that answers every
    prompt with [stdout]. *)
Definition example_state (l : list Task) (stdout : pystr) : state :=
  mkState l (map display l) Absent [] (fun _ _ => stdout).

(** Tasks A and B, both at score 0, and the response [["B","A"]]. *)
Definition example_AB : state :=
  example_state [example_task "A" false 0; example_task "B" false 0]
    (py "[" ++ quoted "B" ++ py "," ++ quoted "A" ++ py "]").

(** Task A, and a response that names it twice: [["A","A"]]. *)
Definition example_AA : state :=
  example_state [example_task "A" false 0]
    (py "[" ++ quoted "A" ++ py "," ++ quoted "A" ++ py "]").

(** Tasks A, B and a completed C, and a response that ranks B, A, B. *)
Definition example_BAB : state :=
  example_state
    [example_task "A" false 0; example_task "B" false 0; example_task "C" true 7]
    (py "Ranked: [" ++ quoted "B" ++ py ", " ++ quoted "A" ++ py ", "
     ++ quoted "B" ++ py "]").

(** Only a completed task. *)
Definition example_done : state :=
  example_state [example_task "C" true 7] (py "[]").

(** A model that answers in prose. *)
Definition example_prose : state :=
  example_state [example_task "A" false 3; example_task "B" false 5]
    (py "I cannot rank these tasks.").

(** A model that answers with an array it does not close properly. *)
Definition example_broken : state :=
  example_state [example_task "A" false 3; example_task "B" false 5]
    (py "[" ++ quoted "B" ++ py ", ]").

(** A store file that holds a text which is not JSON. *)
Definition example_bad_file : state :=
  mkState [] [] (Content (py "{not json")) [] (fun _ _ => []).

(** The response of the extraction example. *)
Definition example_sure : state :=
  example_state []
    (py "Sure! [" ++ quoted "buy milk" ++ py ", " ++ quoted "call mom" ++ py "]").

(** Tasks with a quote, a backslash, a line break, an accent, a character
    beyond the basic plane and a lone surrogate in their text. *)
Definition example_texts : list Task :=
  [ mkTask (py "3f2a") ([QUOTE; BACKSLASH; NL; 233; 128512; 55357] ++ py " x")
      false 1700000000 (-3) (py "manual");
    mkTask (py "77b1") [] true 0 12 (py "ai") ].

(** A store file that holds those tasks. *)
Definition example_stored : state :=
  mkState [] [] (Content (dump_tasks example_texts)) [] (fun _ _ => []).

(** The ways [scanstring] reads one character of a string: the closing
    quote, a plain character, a one-character escape, a [\u] escape on its
    own, two [\u] escapes that make a surrogate pair. *)
Inductive scan_step (s str r : pystr) : Prop :=
| step_quote :
    s = QUOTE :: r -> str = [] -> scan_step s str r
| step_plain c X str' :
    s = c :: X -> c <> QUOTE -> c <> BACKSLASH -> 32 <= c ->
    str = c :: str' -> Decoder.scanstring X = Ok (str', r) ->
    scan_step s str r
| step_simple e ch X str' :
    s = BACKSLASH :: e :: X -> Decoder.simple_escape e = Some ch ->
    str = ch :: str' -> Decoder.scanstring X = Ok (str', r) ->
    scan_step s str r
| step_lone h1 h2 h3 h4 cp X str' :
    s = BACKSLASH :: chr "u" :: h1 :: h2 :: h3 :: h4 :: X ->
    Decoder.hex4 h1 h2 h3 h4 = Some cp ->
    (Decoder.is_high_surrogate cp = true -> no_low_escape X) ->
    str = cp :: str' -> Decoder.scanstring X = Ok (str', r) ->
    scan_step s str r
| step_pair h1 h2 h3 h4 g1 g2 g3 g4 cp c2 X str' :
    s = BACKSLASH :: chr "u" :: h1 :: h2 :: h3 :: h4
        :: BACKSLASH :: chr "u" :: g1 :: g2 :: g3 :: g4 :: X ->
    Decoder.hex4 h1 h2 h3 h4 = Some cp ->
    Decoder.hex4 g1 g2 g3 g4 = Some c2 ->
    Decoder.is_high_surrogate cp = true ->
    Decoder.is_low_surrogate c2 = true ->
    str = Decoder.join_surrogates cp c2 :: str' ->
    Decoder.scanstring X = Ok (str', r) ->
    scan_step s str r.

(** ** What the handlers keep *)





(** ** Tasks that are added *)

(** The tasks [add_tasks] builds in a window for [new_texts]: the [k]-th
    one takes the next [k]-th value of each source. *)
Definition new_tasks (w : window) (new_texts : list pystr) (source : pystr)
  : list Task :=
  imap (fun k text =>
          mkTask (uuid4 w (uuid4_calls w + k)) text false
            (time_time w (time_calls w + k)) 0 source)
    new_texts.

(** The window once they are appended to its list. *)
Definition with_new_tasks (new_texts : list pystr) (source : pystr) (w : window)
  : window :=
  mkWindow
    (set_tasks (tasks (core w) ++ new_tasks w new_texts source) (core w))
    (input_field w) (warnings w)
    (uuid4 w) (uuid4_calls w + length new_texts)
    (time_time w) (time_calls w + length new_texts).

(** Row [i] shows task [i]. *)
Definition rows_shown (st : state) : Prop :=
  task_list st = map display (tasks st).


(** The store file holds the list of the window. *)
Definition store_in_step (st : state) : Prop :=
  TASK_FILE st = Content (dump_tasks (tasks st)).

(** ** Example windows *)

(** A window over [st] with [input] in its input line: [uuid4] gives the
    ids [u], [uu], [uuu], ..., and the clock stands still. *)
Definition example_window (st : state) (input : pystr) : window :=
  mkWindow st input [] (fun n => repeat (chr "u") (S n)) 0
    (fun _ => 1700000000%Z) 0.

(** Tasks A and B, a store file that cannot be opened, and a model that
    answers with an empty array. *)
Definition example_denied : state :=
  mkState [example_task "A" false 0; example_task "B" false 0]
    (map display [example_task "A" false 0; example_task "B" false 0])
    Denied [] (fun _ _ => py "[]").


(** The audio [upload_media] transcribes: the chosen file, or what
    [extract_audio_from_video] makes of it when its name ends in [.mp4]. *)
Definition audio_of (env : media) : option pystr :=
  if endswith (chosen_file env) (py ".mp4")
  then extract_audio_from_video env (chosen_file env)
  else Some (chosen_file env).

(** A chosen file [talk.mp3] of which the speech model hears [segments]. *)
Definition example_media (segments : option (list pystr)) : media :=
  mkMedia (py "talk.mp3") (fun _ => true) (py "/tmp/temp_audio.wav")
    (fun _ => segments).

(** A chosen video that [ffmpeg] cannot convert. *)
Definition example_bad_video : media :=
  mkMedia (py "talk.mp4") (fun _ => false) (py "/tmp/temp_audio.wav")
    (fun _ => Some []).

(** * Properties *)

Ltac run :=
  cbv [mbind M_bind bind mret M_ret ret get modify lift try_except
       ollama_generate path_exists read_file write_file].

(** ** The bracket scan *)

Lemma lazy_to_close_Some s m :
  Re.lazy_to_close s = Some m ->
  exists body post,
    s = body ++ (chr "]" :: post) /\ (chr "]" ∉ body) /\ m = body ++ [chr "]"].
Proof.
  revert m. induction s as [|c r IH]; intros m; simpl; [discriminate|].
  destruct (N.eqb_spec c (chr "]")) as [->|Hc].
  - intros [= <-]. exists [], r. split_and!; [done|apply not_elem_of_nil|done].
  - destruct (Re.lazy_to_close r) as [m'|]; cbn; [|discriminate].
    intros [= <-]. destruct (IH m' eq_refl) as (body & post & -> & Hb & ->).
    exists (c :: body), post. split_and!; [done| |done].
    rewrite elem_of_cons. intros [?|?]; congruence.
Qed.

Lemma lazy_to_close_app body post :
  chr "]" ∉ body ->
  Re.lazy_to_close (body ++ (chr "]" :: post)) = Some (body ++ [chr "]"]).
Proof.
  induction body as [|c body IH]; intros Hb; simpl.
  - done.
  - apply not_elem_of_cons in Hb as [Hc Hb].
    destruct (N.eqb_spec c (chr "]")); [congruence|]. by rewrite IH.
Qed.

Lemma lazy_to_close_None s :
  Re.lazy_to_close s = None <-> chr "]" ∉ s.
Proof.
  induction s as [|c r IH]; simpl.
  - split; [intros _; apply not_elem_of_nil|done].
  - destruct (N.eqb_spec c (chr "]")) as [->|Hc].
    + split; [discriminate|]. intros H. destruct H. left.
    + rewrite not_elem_of_cons, <- IH.
      destruct (Re.lazy_to_close r); cbn; split; try done; intros []; congruence.
Qed.

(** [search] finds a match exactly when an opening bracket is followed,
    somewhere, by a closing one: the match runs from the first opening
    bracket to the first closing bracket after it. *)
Lemma search_Some s m :
  Re.search s = Some m <->
  exists pre body post,
    s = pre ++ (chr "[" :: body) ++ (chr "]" :: post)
    /\ (chr "[" ∉ pre) /\ (chr "]" ∉ body)
    /\ m = chr "[" :: body ++ [chr "]"].
Proof.
  split.
  - revert m. induction s as [|c r IH]; intros m; simpl; [discriminate|].
    destruct (N.eqb_spec c (chr "[")) as [->|Hc].
    + destruct (Re.lazy_to_close r) as [m'|] eqn:Hl; cbn.
      * intros [= <-].
        destruct (lazy_to_close_Some _ _ Hl) as (body & post & -> & Hb & ->).
        exists [], body, post. split_and!; [done|apply not_elem_of_nil|done|done].
      * intros Hs. destruct (IH m Hs) as (pre & body & post & -> & _ & _ & _).
        apply lazy_to_close_None in Hl. destruct Hl.
        rewrite elem_of_app. right. right. rewrite elem_of_app. right. left.
    + intros Hs. destruct (IH m Hs) as (pre & body & post & -> & Hp & Hb & ->).
      exists (c :: pre), body, post. split_and!; [done| |done|done].
      rewrite elem_of_cons. intros [?|?]; congruence.
  - intros (pre & body & post & -> & Hp & Hb & ->).
    induction pre as [|c pre IH]; simpl.
    + by rewrite lazy_to_close_app.
    + apply not_elem_of_cons in Hp as [Hc Hp].
      destruct (N.eqb_spec c (chr "[")); [congruence|]. by apply IH.
Qed.

Lemma search_starts_with_bracket s m :
  Re.search s = Some m -> exists r, m = chr "[" :: r.
Proof.
  intros H. apply search_Some in H as (? & body & ? & _ & _ & _ & ->). eauto.
Qed.

(** ** What the scanner returns for a text that starts with a bracket *)



(** ** Ranking: the passes that change nothing *)

Lemma filter_incomplete_nil (l : list Task) :
  Forall (fun t => completed t = true) l ->
  filter (fun t => completed t = false) l = [].
Proof.
  induction 1 as [|t l Ht _ IH]; [done|].
  rewrite filter_cons, IH. destruct (decide (completed t = false)); congruence.
Qed.

(** C5. When no task of the list is incomplete, the ranking pass is a no-op:
    it returns at once, no prompt is sent to the model, and the task list,
    the rows, the store file and the prompt log are what they were. *)
Theorem rank_tasks_no_incomplete (st : state) :
  Forall (fun t => completed t = true) (tasks st) ->
  rank_tasks st = (Ok tt, st) /\ prompts (rank_tasks st).2 = prompts st.
Proof.
  intros H. unfold rank_tasks. run.
  rewrite (filter_incomplete_nil _ H). done.
Qed.

(** What [rank_tasks] does once the model was asked. *)
Lemma rank_tasks_asked (st : state) :
  filter (fun t => completed t = false) (tasks st) <> [] ->
  rank_tasks st =
    match Re.search (response_to (rank_prompt_of st) st) with
    | None => (Ok tt, after_prompt (rank_prompt_of st) st)
    | Some m =>
        match Decoder.loads m with
        | Raise _ => (Ok tt, after_prompt (rank_prompt_of st) st)
        | Ok ranked_ids =>
            apply_ranking ranked_ids (after_prompt (rank_prompt_of st) st)
        end
    end.
Proof.
  intros H. unfold rank_tasks, rank_prompt_of, response_to, after_prompt. run.
  destruct (filter _ (tasks st)) as [|t l]; [done|].
  destruct (Re.search _) as [m|]; [|done].
  by destruct (Decoder.loads m).
Qed.

(** C3. When the response of the model holds no bracketed substring, or the
    first one does not parse as JSON, the ranking pass returns normally and
    the task list is the one it was called with: same tasks, same fields,
    same order.  The rows and the store file are untouched as well. *)
Theorem rank_tasks_parse_failure (st : state) :
  let response := response_to (rank_prompt_of st) st in
  Re.search response = None \/
  (exists m e, Re.search response = Some m /\ Decoder.loads m = Raise e) ->
  (rank_tasks st).1 = Ok tt
  /\ tasks (rank_tasks st).2 = tasks st
  /\ task_list (rank_tasks st).2 = task_list st
  /\ TASK_FILE (rank_tasks st).2 = TASK_FILE st.
Proof.
  intros response H.
  destruct (decide (filter (fun t => completed t = false) (tasks st) = []))
    as [Hnil|Hne].
  - unfold rank_tasks. run. by rewrite Hnil.
  - rewrite (rank_tasks_asked _ Hne). fold response.
    destruct H as [->|(m & e & -> & ->)]; done.
Qed.

(** ** Storage: loading *)

(** C4. [load_tasks] never raises, and it returns the empty list when the
    store file is absent, cannot be opened or decoded, is empty, or holds a
    text that is not JSON.  The state is left as it was. *)
Theorem load_tasks_failure_empty (st : state) :
  (exists v, load_tasks st = (Ok v, st))
  /\ (TASK_FILE st = Absent \/ TASK_FILE st = Denied
      \/ TASK_FILE st = Undecodable \/ TASK_FILE st = Content []
      \/ (exists s e, TASK_FILE st = Content s /\ Decoder.loads s = Raise e) ->
      load_tasks st = (Ok (PyList []), st)).
Proof.
  unfold load_tasks. run. destruct st as [ts rows f ps o]. simpl. split.
  - destruct f as [| | |s]; simpl; eauto.
    destruct (Decoder.loads s); eauto.
  - intros [->|[->|[->|[->|(s & e & -> & H)]]]]; simpl; rewrite ?H; done.
Qed.

(** ** Extraction *)

(** C6. [extract_tasks_from_text] parses, as JSON, the substring of the
    response that runs from its first opening bracket to the first closing
    bracket after it; it returns the parsed value, and the empty list when
    there is no such substring or when it does not parse.  Two examples: a
    response with prose before an array of two strings, and a response
    without brackets. *)
Theorem extract_tasks_from_text_spec (text : pystr) (st : state) :
  let response := response_to (extract_prompt text) st in
  let result := (extract_tasks_from_text text st).1 in
  (forall m, Re.search response = Some m <->
     exists pre body post,
       response = pre ++ (chr "[" :: body) ++ (chr "]" :: post)
       /\ (chr "[" ∉ pre) /\ (chr "]" ∉ body)
       /\ m = chr "[" :: body ++ [chr "]"])
  /\ (Re.search response = None -> result = Ok (PyList []))
  /\ (forall m e, Re.search response = Some m -> Decoder.loads m = Raise e ->
        result = Ok (PyList []))
  /\ (forall m v, Re.search response = Some m -> Decoder.loads m = Ok v ->
        result = Ok v)
  /\ (response = py "Sure! [" ++ [QUOTE] ++ py "buy milk" ++ [QUOTE] ++ py ", "
                 ++ [QUOTE] ++ py "call mom" ++ [QUOTE] ++ py "]" ->
        result = Ok (PyList [PyStr (py "buy milk"); PyStr (py "call mom")]))
  /\ (chr "[" ∉ response -> chr "]" ∉ response -> result = Ok (PyList [])).
Proof.
  intros response result.
  assert (Hres : result =
    match Re.search response with
    | None => Ok (PyList [])
    | Some m =>
        match Decoder.loads m with Ok v => Ok v | Raise _ => Ok (PyList []) end
    end).
  { unfold result, extract_tasks_from_text. run. fold (response_to (extract_prompt text) st).
    fold response. destruct (Re.search response) as [m|]; [|done].
    by destruct (Decoder.loads m). }
  split_and!.
  - intros m. apply search_Some.
  - intros H. by rewrite Hres, H.
  - intros m e H1 H2. by rewrite Hres, H1, H2.
  - intros m v H1 H2. by rewrite Hres, H1, H2.
  - intros H. rewrite Hres, H. by vm_compute.
  - intros Ho _. rewrite Hres.
    destruct (Re.search response) as [m|] eqn:Hs; [|done].
    apply search_Some in Hs as (pre & body & post & Hr & _).
    destruct Ho. rewrite Hr, elem_of_app. right. left.
Qed.

(** ** The window: removing the selected task *)

(** C8. For a row [k] with [0 <= k < n], [complete_selected] removes from the
    task list exactly the task at position [k]: the tasks before it and the
    tasks after it stay, in their order, and the list is one shorter. *)
Theorem complete_selected_removes (st : state) (k : Z) :
  (0 <= k < Z.of_nat (length (tasks st)))%Z ->
  let st' := (complete_selected k st).2 in
  tasks st' = take (Z.to_nat k) (tasks st) ++ drop (S (Z.to_nat k)) (tasks st)
  /\ (length (tasks st') + 1 = length (tasks st))%nat
  /\ (forall i, (i < Z.to_nat k)%nat -> tasks st' !! i = tasks st !! i)
  /\ (forall i, (Z.to_nat k <= i)%nat -> tasks st' !! i = tasks st !! S i).
Proof.
  intros Hk st'.
  assert (Hlt : (Z.to_nat k < length (tasks st))%nat) by lia.
  assert (Ht : tasks st' = delete (Z.to_nat k) (tasks st)).
  { unfold st', complete_selected, tasks_pop, save_tasks, takeItem. run.
    destruct (0 <=? k)%Z eqn:H0; [|lia].
    destruct (k <? 0)%Z eqn:H1; [lia|].
    replace ((k <? 0)%Z || (Z.of_nat (length (tasks st)) <=? k)%Z) with false
      by (symmetry; apply orb_false_iff; split; lia).
    destruct (lookup_lt_is_Some_2 (tasks st) _ Hlt) as [t ->]. simpl.
    by destruct (TASK_FILE st). }
  rewrite Ht. split_and!.
  - by rewrite delete_take_drop.
  - rewrite length_delete by by apply lookup_lt_is_Some_2. lia.
  - intros i Hi. by rewrite list_lookup_delete_lt.
  - intros i Hi. by rewrite list_lookup_delete_ge.
Qed.

(** ** The sort *)

Section SortFacts.
Context {A : Type} (key : A -> Z).

Lemma insert_by_Permutation x l : insert_by key x l ≡ₚ x :: l.
Proof.
  induction l as [|y l IH]; simpl; [done|].
  destruct (key y <? key x)%Z; [|done].
  rewrite IH. apply Permutation_swap.
Qed.

Lemma sorted_stable_Permutation l : sorted_stable key l ≡ₚ l.
Proof.
  induction l as [|x l IH]; simpl; [done|].
  by rewrite insert_by_Permutation, IH.
Qed.

Lemma insert_by_sorted x l :
  StronglySorted (key_le key) l -> StronglySorted (key_le key) (insert_by key x l).
Proof.
  induction 1 as [|y l Hs IH Hy]; simpl.
  - repeat constructor.
  - destruct (Z.ltb_spec (key y) (key x)).
    + constructor; [done|].
      rewrite insert_by_Permutation. constructor; [unfold key_le; lia|done].
    + constructor; [by constructor|].
      constructor; [done|].
      eapply Forall_impl; [exact Hy|]. unfold key_le. intros; simpl in *; lia.
Qed.

Lemma sorted_stable_sorted l : StronglySorted (key_le key) (sorted_stable key l).
Proof.
  induction l; simpl; [constructor|]. by apply insert_by_sorted.
Qed.

(** Elements of equal key are not reordered. *)
Lemma insert_by_stable k x l :
  filter (fun a => key a = k) (insert_by key x l)
  = filter (fun a => key a = k) (x :: l).
Proof.
  induction l as [|y l IH]; simpl; [done|].
  destruct (Z.ltb_spec (key y) (key x)) as [Hlt|]; [|done].
  rewrite (filter_cons _ y), IH, !(filter_cons _ x), (filter_cons _ y).
  repeat case_decide; try done; lia.
Qed.

Lemma sorted_stable_stable k l :
  filter (fun a => key a = k) (sorted_stable key l)
  = filter (fun a => key a = k) l.
Proof.
  induction l as [|x l IH]; simpl; [done|].
  by rewrite insert_by_stable, !filter_cons, IH.
Qed.

Lemma StronglySorted_reverse (R : relation A) l :
  StronglySorted R l -> StronglySorted (flip R) (reverse l).
Proof.
  induction 1 as [|x l Hs IH Hx]; [constructor|].
  rewrite reverse_cons. apply StronglySorted_app_2; [|done|repeat constructor].
  intros a b Ha ->%list_elem_of_singleton. rewrite elem_of_reverse in Ha.
  rewrite Forall_forall in Hx. by apply Hx.
Qed.

(** The descending sort: a permutation, sorted from the largest key to
    the smallest, elements of equal key in the order they had. *)
Lemma list_sort_reverse_Permutation l : list_sort key true l ≡ₚ l.
Proof.
  unfold list_sort.
  by rewrite reverse_Permutation, sorted_stable_Permutation, reverse_Permutation.
Qed.

Lemma list_sort_reverse_sorted l : StronglySorted (key_ge key) (list_sort key true l).
Proof.
  unfold list_sort.
  apply (StronglySorted_reverse (key_le key)), sorted_stable_sorted.
Qed.

Lemma list_sort_reverse_stable k l :
  filter (fun a => key a = k) (list_sort key true l)
  = filter (fun a => key a = k) l.
Proof.
  unfold list_sort.
  by rewrite filter_reverse, sorted_stable_stable, filter_reverse,
    reverse_involutive.
Qed.
End SortFacts.

(** ** The scores *)

Lemma id_to_score_from_hashable len_ranked i ids d :
  Forall (fun v => hashable v = true) ids ->
  exists d', id_to_score_from len_ranked i ids d = Ok d'.
Proof.
  intros H. revert i d.
  induction H as [|v ids Hv _ IH]; intros i d; simpl; [eauto|].
  destruct v; try done; apply IH.
Qed.

(** A key keeps the score of its last position; a string that is not in
    the list keeps what the dict held for it. *)
Lemma id_to_score_from_lookup len_ranked i ids d d' :
  id_to_score_from len_ranked i ids d = Ok d' ->
  (forall s, PyStr s ∉ ids -> d' !! s = d !! s)
  /\ (forall s j,
        ids !! j = Some (PyStr s) ->
        (forall j', (j < j')%nat -> ids !! j' <> Some (PyStr s)) ->
        d' !! s = Some (len_ranked - (i + Z.of_nat j))%Z).
Proof.
  revert i d. induction ids as [|v ids IH]; intros i d; simpl.
  - intros [= <-]. split; [done|]. intros s j Hj. by destruct j.
  - assert (Hskip : forall d0,
      id_to_score_from len_ranked (i + 1) ids d0 = Ok d' ->
      (forall s, PyStr s ∉ ids -> d' !! s = d0 !! s)
      /\ (forall s j,
            (v :: ids) !! S j = Some (PyStr s) ->
            (forall j', (S j < j')%nat -> (v :: ids) !! j' <> Some (PyStr s)) ->
            d' !! s = Some (len_ranked - (i + Z.of_nat (S j)))%Z)).
    { intros d0 Hd0. destruct (IH _ _ Hd0) as [IH1 IH2]. split; [done|].
      intros s j Hj Hlast. rewrite (IH2 s j Hj).
      - f_equal. lia.
      - intros j' Hj'. apply (Hlast (S j')). lia. }
    assert (Hnotin : forall s j,
      (forall j', (j < j')%nat -> (v :: ids) !! j' <> Some (PyStr s)) ->
      j = 0%nat -> PyStr s ∉ ids).
    { intros s j Hlast -> Hin. apply list_elem_of_lookup in Hin as [k Hk].
      apply (Hlast (S k)); [lia|done]. }
    destruct v as [| | | |s0| |]; try discriminate; intros Hd';
      destruct (Hskip _ Hd') as [H1 H2]; (split;
        [ intros s Hs; apply not_elem_of_cons in Hs as [Hne Hs];
          rewrite (H1 s Hs); try done;
          apply lookup_insert_ne; congruence
        | intros s [|j] Hj Hlast; [|by apply H2];
          simpl in Hj; try discriminate ]).
    injection Hj as ->. rewrite (H1 s (Hnotin s 0%nat Hlast eq_refl)).
    rewrite lookup_insert_eq. f_equal. lia.
Qed.

Lemma build_id_to_score_lookup ids d :
  build_id_to_score ids = Ok d ->
  (forall s, PyStr s ∉ ids -> d !! s = None)
  /\ (forall s j,
        ids !! j = Some (PyStr s) ->
        (forall j', (j < j')%nat -> ids !! j' <> Some (PyStr s)) ->
        d !! s = Some (Z.of_nat (length ids) - Z.of_nat j)%Z).
Proof.
  intros H. destruct (id_to_score_from_lookup _ _ _ _ _ H) as [H1 H2]. split.
  - intros s Hs. by rewrite (H1 s Hs).
  - intros s j Hj Hlast. rewrite (H2 s j Hj Hlast). f_equal.
Qed.

(** [assign_score] writes the score and nothing else. *)
Lemma assign_score_frame d t :
  assign_score d t = set_priority_score (priority_score (assign_score d t)) t.
Proof. unfold assign_score. by destruct (d !! id t). Qed.

Lemma assign_score_id d t : id (assign_score d t) = id t.
Proof. unfold assign_score. by destruct (d !! id t). Qed.

Lemma assign_score_lookup d t :
  priority_score (assign_score d t) = default 0%Z (d !! id t).
Proof. unfold assign_score. by destruct (d !! id t). Qed.

(** ** Ranking: the pass that succeeds *)

Lemma filter_incomplete_cons (l : list Task) :
  Exists (fun t => completed t = false) l ->
  filter (fun t => completed t = false) l <> [].
Proof.
  intros H Hnil. apply Exists_exists in H as (t & Hin & Ht).
  assert (Hf : t ∈ filter (fun t => completed t = false) l)
    by (apply list_elem_of_filter; split; assumption).
  rewrite Hnil in Hf. by apply not_elem_of_nil in Hf.
Qed.

Lemma rank_tasks_ranked (st : state) (m : pystr) (ranked_ids : list pyval) :
  Exists (fun t => completed t = false) (tasks st) ->
  Re.search (response_to (rank_prompt_of st) st) = Some m ->
  Decoder.loads m = Ok (PyList ranked_ids) ->
  Forall (fun v => hashable v = true) ranked_ids ->
  exists d,
    build_id_to_score ranked_ids = Ok d
    /\ (rank_tasks st).1 = Ok tt
    /\ tasks (rank_tasks st).2
       = list_sort priority_score true (map (assign_score d) (tasks st)).
Proof.
  intros Hinc Hs Hl Hh.
  destruct (id_to_score_from_hashable (Z.of_nat (length ranked_ids)) 0
              ranked_ids ∅ Hh) as [d Hd].
  exists d. split; [exact Hd|].
  rewrite (rank_tasks_asked _ (filter_incomplete_cons _ Hinc)), Hs, Hl.
  unfold apply_ranking. run. simpl. unfold build_id_to_score in Hd |- *.
  by rewrite Hd.
Qed.

(** Whatever the response, the list [rank_tasks] leaves is the list it
    found, or that list scored from some dict and sorted. *)
Lemma rank_tasks_cases (st : state) :
  tasks (rank_tasks st).2 = tasks st
  \/ exists d, tasks (rank_tasks st).2
       = list_sort priority_score true (map (assign_score d) (tasks st)).
Proof.
  destruct (decide (filter (fun t => completed t = false) (tasks st) = []))
    as [Hnil|Hne].
  - left. unfold rank_tasks. run. by rewrite Hnil.
  - rewrite (rank_tasks_asked _ Hne).
    destruct (Re.search _) as [m|]; [|by left].
    destruct (Decoder.loads m) as [v|]; [|by left].
    unfold apply_ranking. run.
    destruct (py_iter v) as [ids|]; [|by left]. simpl.
    destruct (build_id_to_score ids) as [d|]; [|by left]. simpl.
    right. by exists d.
Qed.

(** ** Ranking: scores, order, frame *)

(** C1, as the code has it.  When the ranked list parses and its items are
    hashable, the pass returns normally and keeps the ids of the stored
    tasks; a task whose id occurs in the list gets [L - i], with [L] the
    length of the list and [i] the position of the last occurrence of the
    id; a task whose id does not occur gets 0. *)
Theorem rank_tasks_scores (st : state) (m : pystr) (ranked_ids : list pyval) :
  Exists (fun t => completed t = false) (tasks st) ->
  Re.search (response_to (rank_prompt_of st) st) = Some m ->
  Decoder.loads m = Ok (PyList ranked_ids) ->
  Forall (fun v => hashable v = true) ranked_ids ->
  let L := Z.of_nat (length ranked_ids) in
  let st' := (rank_tasks st).2 in
  (rank_tasks st).1 = Ok tt
  /\ map id (tasks st') ≡ₚ map id (tasks st)
  /\ forall t, t ∈ tasks st' ->
       (forall i : nat,
          ranked_ids !! i = Some (PyStr (id t)) ->
          (forall j : nat, (i < j)%nat -> ranked_ids !! j <> Some (PyStr (id t))) ->
          priority_score t = (L - Z.of_nat i)%Z)
       /\ (PyStr (id t) ∉ ranked_ids -> priority_score t = 0%Z).
Proof.
  intros Hinc Hs Hl Hh L st'.
  destruct (rank_tasks_ranked st m ranked_ids Hinc Hs Hl Hh) as (d & Hd & Hok & Ht).
  destruct (build_id_to_score_lookup _ _ Hd) as [Habsent Hlast].
  fold st' in Ht. split_and!; [done| |].
  - rewrite Ht, list_sort_reverse_Permutation, map_map.
    erewrite map_ext; [done|]. apply assign_score_id.
  - intros t Hin. rewrite Ht, list_sort_reverse_Permutation in Hin.
    apply list_elem_of_fmap in Hin as (t0 & -> & _).
    rewrite assign_score_id, assign_score_lookup. split.
    + intros i Hi Hlasti. by rewrite (Hlast _ _ Hi Hlasti).
    + intros Hni. by rewrite (Habsent _ Hni).
Qed.

(** C1 as stated fails on a list that repeats an id: with the response
    [["A","A"]] the id of task A is at position 0 of a list of length 2, and
    the task gets 1, not 2 - 0. *)
Lemma rank_tasks_scores_first_position_fails :
  let st := example_AA in
  let ranked_ids := [PyStr (py "A"); PyStr (py "A")] in
  exists m t,
    Re.search (response_to (rank_prompt_of st) st) = Some m
    /\ Decoder.loads m = Ok (PyList ranked_ids)
    /\ tasks (rank_tasks st).2 = [t]
    /\ ranked_ids !! 0%nat = Some (PyStr (id t))
    /\ priority_score t <> (Z.of_nat (length ranked_ids) - 0)%Z.
Proof.
  exists (py "[" ++ quoted "A" ++ py "," ++ quoted "A" ++ py "]"),
    (example_task "A" false 1).
  split_and!; [by vm_compute..|]. vm_compute. discriminate.
Qed.

(** C2. After a pass that succeeds, the whole task list, completed tasks
    included, is sorted from the highest score to the lowest, and the tasks
    of one score stand in the order they had before the sort.  With tasks A
    and B at score 0 and the response [["B","A"]], B gets 2, A gets 1 and the
    list is B, A. *)
Theorem rank_tasks_sorted_stable :
  (forall (st : state) (m : pystr) (ranked_ids : list pyval),
     Exists (fun t => completed t = false) (tasks st) ->
     Re.search (response_to (rank_prompt_of st) st) = Some m ->
     Decoder.loads m = Ok (PyList ranked_ids) ->
     Forall (fun v => hashable v = true) ranked_ids ->
     let result := tasks (rank_tasks st).2 in
     (rank_tasks st).1 = Ok tt
     /\ StronglySorted (fun a b => (priority_score b <= priority_score a)%Z) result
     /\ exists scored,
          Forall2 (fun t t' => t' = set_priority_score (priority_score t') t)
            (tasks st) scored
          /\ result ≡ₚ scored
          /\ forall k, filter (fun t => priority_score t = k) result
                       = filter (fun t => priority_score t = k) scored)
  /\ (rank_tasks example_AB).1 = Ok tt
  /\ tasks (rank_tasks example_AB).2
     = [example_task "B" false 2; example_task "A" false 1].
Proof.
  split; [|by vm_compute].
  intros st m ranked_ids Hinc Hs Hl Hh result.
  destruct (rank_tasks_ranked st m ranked_ids Hinc Hs Hl Hh) as (d & Hd & Hok & Ht).
  fold result in Ht. split_and!; [done| |].
  - rewrite Ht. apply (list_sort_reverse_sorted priority_score).
  - exists (map (assign_score d) (tasks st)). split_and!.
    + apply Forall2_fmap_r, Forall_Forall2_diag, Forall_forall.
      intros t _. unfold compose. apply assign_score_frame.
    + rewrite Ht. apply list_sort_reverse_Permutation.
    + intros k. rewrite Ht. apply list_sort_reverse_stable.
Qed.

(** C9. A ranking pass adds no task and removes none, and it changes no
    field of a task but the score: the list it leaves is a permutation of the
    list it found with new scores.  This holds for every response, parsed or
    not. *)
Theorem rank_tasks_frame (st : state) :
  exists scored,
    Forall2 (fun t t' =>
               id t' = id t /\ text t' = text t /\ completed t' = completed t
               /\ timestamp t' = timestamp t /\ source t' = source t)
      (tasks st) scored
    /\ tasks (rank_tasks st).2 ≡ₚ scored.
Proof.
  destruct (rank_tasks_cases st) as [->|[d ->]].
  - exists (tasks st). split; [|done].
    apply Forall_Forall2_diag, Forall_forall. done.
  - exists (map (assign_score d) (tasks st)). split.
    + apply Forall2_fmap_r, Forall_Forall2_diag, Forall_forall.
      intros t _. unfold compose, assign_score. by destruct (d !! id t).
    + apply list_sort_reverse_Permutation.
Qed.

(** C10. When an id stands at several positions of the ranked list, the
    task with that id gets the score of the last one: [L - j] for the last
    position [j], which is not the score [L - i] of an earlier position
    [i]. *)
Theorem rank_tasks_duplicate_id_last_wins
    (st : state) (m : pystr) (ranked_ids : list pyval) (s : pystr) (i j : nat) :
  Exists (fun t => completed t = false) (tasks st) ->
  Re.search (response_to (rank_prompt_of st) st) = Some m ->
  Decoder.loads m = Ok (PyList ranked_ids) ->
  Forall (fun v => hashable v = true) ranked_ids ->
  (i < j)%nat ->
  ranked_ids !! i = Some (PyStr s) ->
  ranked_ids !! j = Some (PyStr s) ->
  (forall j' : nat, (j < j')%nat -> ranked_ids !! j' <> Some (PyStr s)) ->
  forall t, t ∈ tasks (rank_tasks st).2 -> id t = s ->
    priority_score t = (Z.of_nat (length ranked_ids) - Z.of_nat j)%Z
    /\ priority_score t <> (Z.of_nat (length ranked_ids) - Z.of_nat i)%Z.
Proof.
  intros Hinc Hs Hl Hh Hij Hi Hj Hlast t Hin <-.
  destruct (rank_tasks_ranked st m ranked_ids Hinc Hs Hl Hh) as (d & Hd & Hok & Ht).
  destruct (build_id_to_score_lookup _ _ Hd) as [_ Hlook].
  rewrite Ht, list_sort_reverse_Permutation in Hin.
  apply list_elem_of_fmap in Hin as (t0 & -> & _).
  rewrite assign_score_id in Hj, Hlast. rewrite assign_score_lookup.
  rewrite (Hlook _ _ Hj Hlast). simpl. lia.
Qed.

(** ** Round trip of strings *)

Ltac norm_chr :=
  repeat match goal with
  | |- context [chr ?a] =>
      let v := eval vm_compute in (chr a) in change (chr a) with v
  | H : context [chr ?a] |- _ =>
      let v := eval vm_compute in (chr a) in change (chr a) with v in H
  end.

Ltac ndm := zify; Z.to_euclidean_division_equations; lia.

Ltac norm_app :=
  repeat first [rewrite <- app_assoc | rewrite <- app_comm_cons].

Lemma lor_shiftl_add a b k : b < 2 ^ k -> N.lor (N.shiftl a k) b = a * 2 ^ k + b.
Proof.
  intros Hb. rewrite N.shiftl_mul_pow2.
  assert (Hland : N.land (a * 2 ^ k) b = 0).
  { apply N.bits_inj. intros i. rewrite N.land_spec, N.bits_0.
    destruct (N.lt_ge_cases i k).
    - by rewrite N.mul_pow2_bits_low.
    - rewrite <- (N.mod_small b (2 ^ k)) by done.
      rewrite N.mod_pow2_bits_high by done. apply andb_false_r. }
  by rewrite <- N.lxor_lor, <- N.add_nocarry_lxor.
Qed.

Lemma land_15 n : N.land n 15 = n mod 16.
Proof. change 15 with (N.ones 4). by rewrite N.land_ones. Qed.

Lemma land_1023 n : N.land n 1023 = n mod 1024.
Proof. change 1023 with (N.ones 10). by rewrite N.land_ones. Qed.

Lemma hex_val_hex_digit d :
  d < 16 -> Decoder.hex_val (Encoder.hex_digit d) = Some d.
Proof.
  intros Hd. unfold Decoder.hex_val, Encoder.hex_digit.
  destruct (N.ltb_spec d 10).
  - replace ((48 <=? 48 + d) && (48 + d <=? 57)) with true
      by (symmetry; apply andb_true_iff; split; apply N.leb_le; lia).
    f_equal. lia.
  - replace ((48 <=? 87 + d) && (87 + d <=? 57)) with false
      by (symmetry; apply andb_false_iff; right; apply N.leb_gt; lia).
    replace ((97 <=? 87 + d) && (87 + d <=? 102)) with true
      by (symmetry; apply andb_true_iff; split; apply N.leb_le; lia).
    f_equal. lia.
Qed.

(** The four digits [u_escape] writes are the number, for a number of at
    most sixteen bits. *)
Lemma hex4_u_escape n :
  n < 65536 ->
  Decoder.hex4 (Encoder.hex_digit (N.land (N.shiftr n 12) 15))
    (Encoder.hex_digit (N.land (N.shiftr n 8) 15))
    (Encoder.hex_digit (N.land (N.shiftr n 4) 15))
    (Encoder.hex_digit (N.land n 15)) = Some n.
Proof.
  intros Hn. unfold Decoder.hex4.
  rewrite !land_15, !N.shiftr_div_pow2.
  rewrite !hex_val_hex_digit by (apply N.mod_lt; lia). cbn.
  rewrite !lor_shiftl_add by (apply N.mod_lt; lia).
  f_equal. change (2 ^ 12) with 4096. change (2 ^ 8) with 256.
  change (2 ^ 4) with 16. ndm.
Qed.

Lemma surrogates_of n :
  n < 1048576 ->
  let s1 := N.lor 55296 (N.land (N.shiftr n 10) 1023) in
  let s2 := N.lor 56320 (N.land n 1023) in
  s1 < 65536 /\ s2 < 65536
  /\ Decoder.is_high_surrogate s1 = true
  /\ Decoder.is_low_surrogate s1 = false
  /\ Decoder.is_low_surrogate s2 = true
  /\ Decoder.join_surrogates s1 s2 = 65536 + n.
Proof.
  intros Hn s1 s2.
  assert (H1 : s1 = 55296 + n / 1024).
  { unfold s1. change 55296 with (N.shiftl 54 10).
    rewrite land_1023, N.shiftr_div_pow2, lor_shiftl_add by (apply N.mod_lt; lia).
    change (2 ^ 10) with 1024. change (N.shiftl 54 10) with 55296. ndm. }
  assert (H2 : s2 = 56320 + n mod 1024).
  { unfold s2. change 56320 with (N.shiftl 55 10).
    rewrite land_1023, lor_shiftl_add by (apply N.mod_lt; lia). done. }
  unfold Decoder.is_high_surrogate, Decoder.is_low_surrogate,
    Decoder.join_surrogates.
  rewrite !land_1023, lor_shiftl_add by (apply N.mod_lt; lia).
  change (2 ^ 10) with 1024. rewrite H1, H2. split_and!.
  - ndm.
  - ndm.
  - apply andb_true_iff; split; apply N.leb_le; ndm.
  - apply andb_false_iff; left; apply N.leb_gt; ndm.
  - apply andb_true_iff; split; apply N.leb_le; ndm.
  - ndm.
Qed.

Lemma scanstring_plain c X :
  Encoder.needs_escape c = false ->
  Decoder.scanstring (c :: X) = then_cons c (Decoder.scanstring X).
Proof.
  unfold Encoder.needs_escape. intros H.
  apply orb_false_iff in H as [H Hr]. apply orb_false_iff in H as [Hb Hq].
  apply negb_false_iff, andb_true_iff in Hr as [Hlo _]. apply N.leb_le in Hlo.
  simpl. rewrite Hb, Hq.
  destruct (N.leb_spec c 31); [lia|done].
Qed.

Lemma scanstring_simple e ch X :
  e <> chr "u" -> Decoder.simple_escape e = Some ch ->
  Decoder.scanstring (BACKSLASH :: e :: X) = then_cons ch (Decoder.scanstring X).
Proof.
  intros He Hs. simpl. destruct (N.eqb_spec e (chr "u")); [done|]. by rewrite Hs.
Qed.

Lemma scanstring_u_lone cp h1 h2 h3 h4 X :
  Decoder.hex4 h1 h2 h3 h4 = Some cp ->
  Decoder.is_high_surrogate cp = false \/ no_low_escape X ->
  Decoder.scanstring (BACKSLASH :: chr "u" :: h1 :: h2 :: h3 :: h4 :: X)
  = then_cons cp (Decoder.scanstring X).
Proof.
  intros Hh Hx. cbn [Decoder.scanstring].
  change (BACKSLASH =? QUOTE) with false.
  change (BACKSLASH =? BACKSLASH) with true.
  change (chr "u" =? chr "u") with true. cbv iota. rewrite Hh.
  destruct X as [|b [|u [|g1 [|g2 [|g3 [|g4 rest3]]]]]]; try done.
  destruct Hx as [->|Hx]; [done|].
  destruct (Decoder.is_high_surrogate cp); [|done]. cbn [andb].
  destruct ((b =? BACKSLASH) && (u =? chr "u")) eqn:Hbu; [|done].
  destruct (Hx Hbu) as (c2 & -> & ->). done.
Qed.

Lemma scanstring_u_pair cp c2 h1 h2 h3 h4 g1 g2 g3 g4 X :
  Decoder.hex4 h1 h2 h3 h4 = Some cp ->
  Decoder.hex4 g1 g2 g3 g4 = Some c2 ->
  Decoder.is_high_surrogate cp = true ->
  Decoder.is_low_surrogate c2 = true ->
  Decoder.scanstring
    (BACKSLASH :: chr "u" :: h1 :: h2 :: h3 :: h4
     :: BACKSLASH :: chr "u" :: g1 :: g2 :: g3 :: g4 :: X)
  = then_cons (Decoder.join_surrogates cp c2) (Decoder.scanstring X).
Proof.
  intros Hh Hg Hhi Hlo. cbn [Decoder.scanstring].
  change (BACKSLASH =? QUOTE) with false.
  change (BACKSLASH =? BACKSLASH) with true.
  change (chr "u" =? chr "u") with true. cbv iota.
  rewrite Hh, Hhi, Hg, Hlo. done.
Qed.

(** The escape of one character, as [scanstring] reads it back. *)
Lemma scanstring_escape_char c X :
  c < 1114112 ->
  Encoder.needs_escape c = true ->
  Decoder.is_high_surrogate c = false \/ no_low_escape X ->
  Decoder.scanstring (Encoder.escape_char c ++ X)
  = then_cons c (Decoder.scanstring X).
Proof.
  intros Hc Hne Hx. unfold Encoder.escape_char.
  destruct (N.eqb_spec c BACKSLASH) as [->|?]; [by apply scanstring_simple|].
  destruct (N.eqb_spec c QUOTE) as [->|?]; [by apply scanstring_simple|].
  destruct (N.eqb_spec c 8) as [->|?]; [by apply scanstring_simple|].
  destruct (N.eqb_spec c 12) as [->|?]; [by apply scanstring_simple|].
  destruct (N.eqb_spec c 10) as [->|?]; [by apply scanstring_simple|].
  destruct (N.eqb_spec c 13) as [->|?]; [by apply scanstring_simple|].
  destruct (N.eqb_spec c 9) as [->|?]; [by apply scanstring_simple|].
  destruct (N.ltb_spec c 65536) as [Hlt|Hge].
  - apply scanstring_u_lone; [by apply hex4_u_escape|done].
  - destruct (surrogates_of (c - 65536)) as (H1 & H2 & Hhi & _ & Hlo & Hj); [lia|].
    cbv zeta. rewrite <- app_assoc.
    replace c with (Decoder.join_surrogates
      (N.lor 55296 (N.land (N.shiftr (c - 65536) 10) 1023))
      (N.lor 56320 (N.land (c - 65536) 1023))) at 3 by (rewrite Hj; lia).
    apply scanstring_u_pair; [by apply hex4_u_escape..|done|done].
Qed.

(** The first escape of what the encoder writes for [r] is not that of a
    low surrogate, unless [r] starts with one. *)
Lemma escape_all_no_low_escape r rest :
  wf_str r = true ->
  match r with c' :: _ => Decoder.is_low_surrogate c' = false | [] => True end ->
  no_low_escape (Encoder.escape_all r ++ QUOTE :: rest).
Proof.
  destruct r as [|c r]; intros Hwf Hlow.
  - simpl. by destruct rest.
  - simpl in Hwf. apply andb_true_iff in Hwf as [Hwf _].
    apply andb_true_iff in Hwf as [Hc _]. apply N.ltb_lt in Hc.
    cbn [Encoder.escape_all]. rewrite <- app_assoc.
    set (Y := Encoder.escape_all r ++ QUOTE :: rest).
    destruct (Encoder.needs_escape c) eqn:Hne.
    + unfold Encoder.escape_char.
      repeat match goal with
      | |- context [if ?a =? ?b then _ else _] =>
          destruct (N.eqb_spec a b) as [->|?]; [by intros [=]|]
      end.
      destruct (N.ltb_spec c 65536) as [Hlt|Hge].
      * intros _. exists c. split; [by apply hex4_u_escape|done].
      * destruct (surrogates_of (c - 65536)) as (H1 & _ & _ & Hnl & _); [lia|].
        intros _. eexists. split; [by apply hex4_u_escape|done].
    + apply orb_false_iff in Hne as [Hne _]. apply orb_false_iff in Hne as [Hb _].
      simpl. destruct Y; [done|]. by rewrite Hb.
Qed.

(** Why [wf_str] asks for it: a high surrogate followed by a low one is
    written as two escapes and read back as one character. *)
Lemma surrogate_pair_joined :
  Decoder.loads (Encoder.encode_basestring_ascii [55357; 56832])
  = Ok (PyStr [128512]).
Proof. by vm_compute. Qed.

Lemma scanstring_escape_all s rest :
  wf_str s = true ->
  Decoder.scanstring (Encoder.escape_all s ++ QUOTE :: rest) = Ok (s, rest).
Proof.
  induction s as [|c r IH]; intros Hwf; [done|].
  pose proof Hwf as Hwf'. simpl in Hwf'.
  apply andb_true_iff in Hwf' as [Hwf' Hr].
  apply andb_true_iff in Hwf' as [Hc Hpair]. apply N.ltb_lt in Hc.
  cbn [Encoder.escape_all]. rewrite <- app_assoc.
  destruct (Encoder.needs_escape c) eqn:Hne.
  - rewrite scanstring_escape_char; [by rewrite IH| done | done |].
    destruct (Decoder.is_high_surrogate c); [right|by left].
    apply escape_all_no_low_escape; [done|].
    destruct r; [done|]. by apply negb_true_iff in Hpair.
  - simpl app. rewrite scanstring_plain by done. by rewrite IH.
Qed.

(** ** Round trip of integers *)

Lemma digits_fold_acc d acc :
  fold_left (fun a c => 10 * a + (c - 48)) (Encoder.uint_chars d) (N.pos acc)
  = N.pos (Pos.of_uint_acc d acc).
Proof.
  revert acc. induction d; intros acc; simpl; [done|..];
    rewrite <- IHd; f_equal; lia.
Qed.

Lemma digits_fold_0 d :
  fold_left (fun a c => 10 * a + (c - 48)) (Encoder.uint_chars d) 0
  = Pos.of_uint d.
Proof.
  induction d; simpl; [done|exact IHd|..]; apply digits_fold_acc.
Qed.

Lemma digits_value_pos p :
  Decoder.digits_value (Encoder.uint_chars (Pos.to_uint p)) = N.pos p.
Proof.
  unfold Decoder.digits_value. rewrite digits_fold_0.
  apply DecimalPos.Unsigned.of_to.
Qed.

Lemma uint_chars_digits d :
  Forall (fun c => Decoder.is_digit c = true) (Encoder.uint_chars d).
Proof. induction d; simpl; constructor; done. Qed.

(** The decimal form of a positive number starts with a digit that is not
    zero. *)
Lemma uint_chars_pos_head p :
  exists c ds,
    Encoder.uint_chars (Pos.to_uint p) = c :: ds /\ 49 <= c <= 57.
Proof.
  pose proof (DecimalPos.Unsigned.to_of (Pos.to_uint p)) as H.
  rewrite DecimalPos.Unsigned.of_to in H. simpl in H.
  pose proof (DecimalPos.Unsigned.to_uint_nonzero p) as Hnz.
  pose proof (DecimalPos.Unsigned.to_uint_nonnil p) as Hnn.
  destruct (Pos.to_uint p) as [|u|u|u|u|u|u|u|u|u|u] eqn:E; simpl;
    try (eexists _, _; split; [reflexivity|lia]); [done|].
  exfalso. rewrite DecimalFacts.unorm_D0 in H. unfold Decimal.unorm in H.
  destruct (Decimal.nzhead u) eqn:En; try discriminate.
  - injection H as ->. by apply Hnz.
  - by apply (DecimalFacts.nzhead_nonzero u u0).
Qed.

Lemma take_digits_app ds rest :
  Forall (fun c => Decoder.is_digit c = true) ds ->
  match rest with c :: _ => Decoder.is_digit c = false | [] => True end ->
  Decoder.take_digits (ds ++ rest) = (ds, rest).
Proof.
  intros Hds Hrest.
  induction Hds as [|c ds Hc _ IH]; cbn [app Decoder.take_digits].
  - destruct rest as [|c r]; [done|]. cbn [Decoder.take_digits]. by rewrite Hrest.
  - by rewrite Hc, IH.
Qed.

Lemma match_frac_end rest : number_end rest -> Decoder.match_frac rest = ([], rest).
Proof.
  destruct rest as [|p [|d r]]; try done; intros (_ & Hp & _); simpl;
    by destruct (N.eqb_spec p (chr ".")).
Qed.

Lemma match_exp_end rest : number_end rest -> Decoder.match_exp rest = ([], rest).
Proof.
  destruct rest as [|e r]; [done|]. intros (_ & _ & He1 & He2). simpl.
  destruct (N.eqb_spec e (chr "e")); [done|].
  by destruct (N.eqb_spec e (chr "E")).
Qed.

Lemma match_number_repr_int z rest :
  wf_int z = true ->
  number_end rest ->
  Decoder.match_number (Encoder.repr_int z ++ rest) = Ok (PyInt z, rest).
Proof.
  intros Hz Hend. apply Nat.leb_le in Hz.
  assert (Hnd : match rest with
                | c :: _ => Decoder.is_digit c = false | [] => True end)
    by (destruct rest; [done|apply Hend]).
  assert (Hpos : forall p,
    (length (Encoder.uint_chars (Pos.to_uint p)) <= Decoder.max_str_digits)%nat ->
    Decoder.match_number (Encoder.uint_chars (Pos.to_uint p) ++ rest)
    = Ok (PyInt (Z.pos p), rest)
    /\ exists c ds, Encoder.uint_chars (Pos.to_uint p) = c :: ds
                    /\ 49 <= c <= 57
                    /\ Decoder.take_digits (ds ++ rest) = (ds, rest)).
  { intros p Hlen. destruct (uint_chars_pos_head p) as (c & ds & Hp & Hc).
    pose proof (uint_chars_digits (Pos.to_uint p)) as Hd. rewrite Hp in Hd.
    apply Forall_cons in Hd as [_ Hd].
    pose proof (take_digits_app ds rest Hd Hnd) as Ht.
    split; [|by eauto 6].
    pose proof (digits_value_pos p) as Hv. rewrite Hp in Hv, Hlen |- *.
    unfold Decoder.match_number. cbn [app].
    destruct (N.eqb_spec c (chr "-")) as [->|_]; [norm_chr; lia|].
    replace ((49 <=? c) && (c <=? 57)) with true
      by (symmetry; apply andb_true_iff; split; apply N.leb_le; lia).
    rewrite Ht, match_frac_end, match_exp_end by done.
    destruct (Nat.ltb_spec Decoder.max_str_digits (length (c :: ds))); [lia|].
    by rewrite Hv. }
  destruct z as [|p|p]; simpl.
  - unfold Decoder.match_number. cbn [app].
    change (48 =? chr "-") with false. cbv iota.
    change ((49 <=? 48) && (48 <=? 57)) with false.
    change (48 =? 48) with true. cbv iota.
    by rewrite match_frac_end, match_exp_end.
  - by apply Hpos.
  - destruct (Hpos p Hz) as [_ (c & ds & Hp & Hc & Ht)].
    pose proof (digits_value_pos p) as Hv. simpl in Hz. rewrite Hp in Hv, Hz |- *.
    unfold Decoder.match_number. cbn [app].
    change (chr "-" =? chr "-") with true. cbv iota.
    replace ((49 <=? c) && (c <=? 57)) with true
      by (symmetry; apply andb_true_iff; split; apply N.leb_le; lia).
    rewrite Ht, match_frac_end, match_exp_end by done.
    destruct (Nat.ltb_spec Decoder.max_str_digits (length (c :: ds))); [lia|].
    by rewrite Hv.
Qed.

(** The scanner hands a text that starts like a number to
    [match_number]. *)
Lemma scan_once_digit fuel c X :
  Decoder.is_digit c = true ->
  Decoder.scan_once (S fuel) (c :: X) = Decoder.match_number (c :: X).
Proof.
  intros Hc. apply andb_true_iff in Hc as [H1 H2].
  apply N.leb_le in H1, H2. cbn [Decoder.scan_once].
  repeat match goal with
  | |- context [if c =? ?b then _ else _] =>
      destruct (N.eqb_spec c b) as [Heq|_];
        [unfold QUOTE in Heq; norm_chr; lia|]
  end.
  done.
Qed.

Lemma scan_once_minus fuel c X :
  Decoder.is_digit c = true ->
  Decoder.scan_once (S fuel) (chr "-" :: c :: X)
  = Decoder.match_number (chr "-" :: c :: X).
Proof.
  intros Hc. apply andb_true_iff in Hc as [H1 H2].
  apply N.leb_le in H1, H2. cbn [Decoder.scan_once].
  repeat match goal with
  | |- context [if ?a =? ?b then _ else _] =>
      let v := eval vm_compute in (a =? b) in change (a =? b) with v; cbv iota
  end.
  assert (Decoder.expect (py "Infinity") (c :: X) = None) as ->; [|done].
  change (py "Infinity") with (73 :: py "nfinity"). cbn [Decoder.expect].
  destruct (N.eqb_spec 73 c) as [Heq|_]; [lia|done].
Qed.

Lemma scan_once_repr_int fuel z rest :
  wf_int z = true ->
  number_end rest ->
  Decoder.scan_once (S fuel) (Encoder.repr_int z ++ rest) = Ok (PyInt z, rest).
Proof.
  intros Hz Hend. rewrite <- (match_number_repr_int z rest Hz Hend).
  destruct z as [|p|p]; cbn [Encoder.repr_int app].
  - by apply scan_once_digit.
  - destruct (uint_chars_pos_head p) as (c & ds & -> & Hc).
    apply scan_once_digit. apply andb_true_iff; split; apply N.leb_le; lia.
  - destruct (uint_chars_pos_head p) as (c & ds & -> & Hc).
    apply scan_once_minus. apply andb_true_iff; split; apply N.leb_le; lia.
Qed.

(** ** Round trip of the store file *)

Lemma value_end_number_end after : value_end after -> number_end after.
Proof. intros [r [->| ->]]; by vm_compute. Qed.

Lemma parses_str s :
  wf_str s = true -> parses 1 (Encoder.encode_basestring_ascii s) (PyStr s).
Proof.
  intros Hwf [|fuel] after Hf _; [lia|].
  unfold Encoder.encode_basestring_ascii.
  rewrite <- app_comm_cons, <- app_assoc. cbn [Decoder.scan_once].
  change (QUOTE =? QUOTE) with true. cbv iota.
  change ([QUOTE] ++ after) with (QUOTE :: after).
  by rewrite (scanstring_escape_all s after Hwf).
Qed.

Lemma parses_int z :
  wf_int z = true -> parses 1 (Encoder.repr_int z) (PyInt z).
Proof.
  intros Hz [|fuel] after Hf Hend; [lia|].
  by apply scan_once_repr_int, value_end_number_end.
Qed.

Lemma parses_bool b : parses 1 (Encoder.encode_bool b) (PyBool b).
Proof. intros [|fuel] after Hf _; [lia|]. by destruct b. Qed.

Lemma parses_mono fuel0 fuel1 enc v :
  (fuel0 <= fuel1)%nat -> parses fuel0 enc v -> parses fuel1 enc v.
Proof. intros Hle Hp fuel after Hf. apply Hp. lia. Qed.

Lemma skip_ws_repeat n c X :
  Decoder.is_ws c = false ->
  Decoder.skip_ws (repeat 32 n ++ c :: X) = c :: X.
Proof. intros Hc. induction n as [|n IH]; simpl; [by rewrite Hc|done]. Qed.

Lemma skip_ws_newline_indent level c X :
  Decoder.is_ws c = false ->
  Decoder.skip_ws (Encoder.newline_indent level ++ c :: X) = c :: X.
Proof. intros Hc. unfold Encoder.newline_indent. simpl. by apply skip_ws_repeat. Qed.

Lemma skip_ws_starts enc X :
  starts_value enc -> Decoder.skip_ws (enc ++ X) = enc ++ X.
Proof. destruct enc as [|c enc]; [done|]. simpl. by intros ->. Qed.

Lemma join_cons_cons sep p q ps :
  join sep (p :: q :: ps) = p ++ sep ++ join sep (q :: ps).
Proof. done. Qed.

Lemma length_join_ge sep ps :
  Forall (fun p => (1 <= length p)%nat) ps ->
  (length ps <= length (join sep ps))%nat.
Proof.
  induction 1 as [|p ps Hp Hps IH]; [done|].
  destruct ps as [|q ps]; [simpl; lia|].
  rewrite join_cons_cons, !length_app. simpl in *. lia.
Qed.

Lemma join_head sep p ps : exists tail, join sep (p :: ps) = p ++ tail.
Proof.
  destruct ps as [|q ps]; [exists []; simpl; by rewrite app_nil_r|].
  rewrite join_cons_cons. eauto.
Qed.

Lemma join_starts_with sep (ps : list pystr) c p ps' Y :
  ps = (c :: p) :: ps' -> exists tl, join sep ps ++ Y = c :: tl.
Proof.
  intros ->. destruct (join_head sep (c :: p) ps') as [tl ->].
  eexists. by rewrite <- app_assoc, <- app_comm_cons.
Qed.

Lemma skip_ws_indent_join level sep p ps Y :
  starts_value p ->
  Decoder.skip_ws (Encoder.newline_indent level ++ join sep (p :: ps) ++ Y)
  = join sep (p :: ps) ++ Y.
Proof.
  intros Hp. destruct (join_head sep p ps) as [tail ->].
  destruct p as [|c p]; [done|].
  rewrite <- !app_assoc, <- !app_comm_cons. by apply skip_ws_newline_indent.
Qed.

Lemma skip_ws_nonws c X :
  Decoder.is_ws c = false -> Decoder.skip_ws (c :: X) = c :: X.
Proof. intros H. simpl. by rewrite H. Qed.

(** One turn of the loops of [_parse_array] and [_parse_object]. *)
Lemma parse_items_last fuel s v r rest :
  Decoder.scan_once fuel s = Ok (v, r) ->
  Decoder.skip_ws r = chr "]" :: rest ->
  Decoder.parse_items (S fuel) s = Ok ([v], rest).
Proof. intros H1 H2. cbn [Decoder.parse_items]. rewrite H1. cbn. by rewrite H2. Qed.

Lemma parse_items_more fuel s v r r' vs rest :
  Decoder.scan_once fuel s = Ok (v, r) ->
  Decoder.skip_ws r = chr "," :: r' ->
  Decoder.parse_items fuel (Decoder.skip_ws r') = Ok (vs, rest) ->
  Decoder.parse_items (S fuel) s = Ok (v :: vs, rest).
Proof.
  intros H1 H2 H3. cbn [Decoder.parse_items]. rewrite H1. cbn.
  rewrite H2. change (chr "," =? chr "]") with false.
  change (chr "," =? chr ",") with true. cbv iota. by rewrite H3.
Qed.

Lemma parse_members_last fuel X key r1 r2 v r3 rest :
  Decoder.scanstring X = Ok (key, r1) ->
  Decoder.skip_ws r1 = chr ":" :: r2 ->
  Decoder.scan_once fuel (Decoder.skip_ws r2) = Ok (v, r3) ->
  Decoder.skip_ws r3 = chr "}" :: rest ->
  Decoder.parse_members (S fuel) (QUOTE :: X) = Ok ([(key, v)], rest).
Proof.
  intros H1 H2 H3 H4. cbn [Decoder.parse_members].
  change (QUOTE =? QUOTE) with true. cbv iota. rewrite H1. cbn.
  rewrite H2. change (chr ":" =? chr ":") with true. cbv iota.
  rewrite H3. cbn. by rewrite H4.
Qed.

Lemma parse_members_more fuel X key r1 r2 v r3 r' d rest :
  Decoder.scanstring X = Ok (key, r1) ->
  Decoder.skip_ws r1 = chr ":" :: r2 ->
  Decoder.scan_once fuel (Decoder.skip_ws r2) = Ok (v, r3) ->
  Decoder.skip_ws r3 = chr "," :: r' ->
  Decoder.parse_members fuel (Decoder.skip_ws r') = Ok (d, rest) ->
  Decoder.parse_members (S fuel) (QUOTE :: X) = Ok ((key, v) :: d, rest).
Proof.
  intros H1 H2 H3 H4 H5. cbn [Decoder.parse_members].
  change (QUOTE =? QUOTE) with true. cbv iota. rewrite H1. cbn.
  rewrite H2. change (chr ":" =? chr ":") with true. cbv iota.
  rewrite H3. cbn. rewrite H4. change (chr "," =? chr "}") with false.
  change (chr "," =? chr ",") with true. cbv iota. by rewrite H5.
Qed.

(** The values of an array, as [_iterencode_list] lays them out. *)
Lemma parse_items_join level fuel0 (items : list (pystr * pyval)) rest fuel :
  items <> [] ->
  Forall (fun ev => starts_value ev.1 /\ parses fuel0 ev.1 ev.2) items ->
  (fuel0 + length items <= fuel)%nat ->
  Decoder.parse_items fuel
    (join (py "," ++ Encoder.newline_indent (S level)) (map fst items)
     ++ Encoder.newline_indent level ++ chr "]" :: rest)
  = Ok (map snd items, rest).
Proof.
  intros Hne Hall. revert fuel.
  induction Hall as [|[e v] items [Hs Hp] Hall IH]; [done|]. clear Hne.
  intros [|fuel] Hf; [simpl in Hf; lia|]. simpl in Hs, Hp.
  destruct items as [|[e' v'] items].
  - eapply parse_items_last.
    + apply Hp; [simpl in Hf; lia|by eexists; right].
    + by apply skip_ws_newline_indent.
  - cbn [map fst snd]. rewrite join_cons_cons, <- !app_assoc.
    eapply parse_items_more.
    + apply Hp; [simpl in Hf; lia|]. eexists. left. reflexivity.
    + reflexivity.
    + pose proof (Forall_inv Hall) as [Hs' _].
      rewrite (skip_ws_indent_join (S level) _ e' (map fst items)) by done.
      apply (IH ltac:(done)). simpl in Hf |- *. lia.
Qed.

(** The members of an object, as [_iterencode_dict] lays them out: key,
    encoded value and value of each. *)
Lemma parse_members_join level fuel0 (items : list (pystr * pystr * pyval))
    rest fuel :
  items <> [] ->
  Forall (fun kev => wf_str kev.1.1 = true /\ starts_value kev.1.2
                     /\ parses fuel0 kev.1.2 kev.2) items ->
  (fuel0 + length items <= fuel)%nat ->
  Decoder.parse_members fuel
    (join (py "," ++ Encoder.newline_indent (S level))
       (map (fun kev => Encoder.encode_basestring_ascii kev.1.1 ++ py ": "
                        ++ kev.1.2) items)
     ++ Encoder.newline_indent level ++ chr "}" :: rest)
  = Ok (map (fun kev => (kev.1.1, kev.2)) items, rest).
Proof.
  intros Hne Hall. revert fuel.
  induction Hall as [|[[k e] v] items (Hk & Hs & Hp) Hall IH]; [done|]. clear Hne.
  intros [|fuel] Hf; [simpl in Hf; lia|]. simpl in Hk, Hs, Hp.
  destruct items as [|[[k' e'] v'] items].
  - cbn [map fst snd join]. unfold Encoder.encode_basestring_ascii.
    norm_app. change (py ": " ++ ?W) with (58 :: 32 :: W).
    eapply parse_members_last.
    + by apply scanstring_escape_all.
    + reflexivity.
    + change (Decoder.skip_ws (32 :: ?Y)) with (Decoder.skip_ws Y).
      rewrite skip_ws_starts by done.
      apply Hp; [simpl in Hf; lia|by eexists; right].
    + by apply skip_ws_newline_indent.
  - cbn [map fst snd]. rewrite join_cons_cons.
    unfold Encoder.encode_basestring_ascii at 1.
    norm_app. change (py ": " ++ ?W) with (58 :: 32 :: W).
    change (py "," ++ ?W) with (44 :: W) at 1.
    eapply parse_members_more.
    + by apply scanstring_escape_all.
    + reflexivity.
    + change (Decoder.skip_ws (32 :: ?Y)) with (Decoder.skip_ws Y).
      rewrite skip_ws_starts by done.
      apply Hp; [simpl in Hf; lia|]. eexists. left. reflexivity.
    + reflexivity.
    + rewrite skip_ws_indent_join by done.
      apply (IH ltac:(done)). simpl in Hf |- *. lia.
Qed.

Lemma scan_once_object fuel rest s' d r :
  Decoder.skip_ws rest = s' ->
  match s' with c' :: _ => c' <> chr "}" | [] => False end ->
  Decoder.parse_members fuel s' = Ok (d, r) ->
  Decoder.scan_once (S fuel) (chr "{" :: rest) = Ok (PyDict (dict_of_pairs d), r).
Proof.
  intros H1 H2 H3. cbn [Decoder.scan_once].
  change (chr "{" =? QUOTE) with false. change (chr "{" =? chr "{") with true.
  cbv iota. rewrite H1. destruct s' as [|c' r']; [done|].
  destruct (N.eqb_spec c' (chr "}")); [done|]. by rewrite H3.
Qed.

Lemma scan_once_array fuel rest s' l r :
  Decoder.skip_ws rest = s' ->
  match s' with c' :: _ => c' <> chr "]" | [] => False end ->
  Decoder.parse_items fuel s' = Ok (l, r) ->
  Decoder.scan_once (S fuel) (chr "[" :: rest) = Ok (PyList l, r).
Proof.
  intros H1 H2 H3. cbn [Decoder.scan_once].
  change (chr "[" =? QUOTE) with false. change (chr "[" =? chr "{") with false.
  change (chr "[" =? chr "[") with true.
  cbv iota. rewrite H1. destruct s' as [|c' r']; [done|].
  destruct (N.eqb_spec c' (chr "]")); [done|]. by rewrite H3.
Qed.

Lemma parses_task level t :
  wf_task t = true -> parses 8 (dump_task level t) (task_to_py t).
Proof.
  intros Hwf. apply andb_true_iff in Hwf as [Hwf Hscore].
  apply andb_true_iff in Hwf as [Hwf Hts].
  apply andb_true_iff in Hwf as [Hwf Hsrc].
  apply andb_true_iff in Hwf as [Hid Htext].
  intros [|fuel] after Hf Hend; [lia|].
  set (items :=
    [(py "id", Encoder.encode_basestring_ascii (id t), PyStr (id t));
     (py "text", Encoder.encode_basestring_ascii (text t), PyStr (text t));
     (py "completed", Encoder.encode_bool (completed t), PyBool (completed t));
     (py "timestamp", Encoder.repr_int (timestamp t), PyInt (timestamp t));
     (py "priority_score", Encoder.repr_int (priority_score t),
      PyInt (priority_score t));
     (py "source", Encoder.encode_basestring_ascii (source t), PyStr (source t))]).
  change (task_to_py t)
    with (PyDict (dict_of_pairs (map (fun kev => (kev.1.1, kev.2)) items))).
  change (dump_task level t)
    with (py "{" ++ Encoder.newline_indent (S level)
          ++ join (py "," ++ Encoder.newline_indent (S level))
               (map (fun kev => Encoder.encode_basestring_ascii kev.1.1
                                ++ py ": " ++ kev.1.2) items)
          ++ Encoder.newline_indent level ++ py "}").
  rewrite <- !app_assoc.
  set (member := fun kev : pystr * pystr * pyval =>
         Encoder.encode_basestring_ascii kev.1.1 ++ py ": " ++ kev.1.2).
  set (sep := py "," ++ Encoder.newline_indent (S level)).
  apply (scan_once_object fuel _
           (join sep (map member items)
            ++ Encoder.newline_indent level ++ chr "}" :: after)).
  - by apply (skip_ws_indent_join (S level) sep
                (member (py "id", Encoder.encode_basestring_ascii (id t),
                         PyStr (id t)))
                (map member (tail items))).
  - destruct (join_starts_with sep (map member items) QUOTE _ _
                (Encoder.newline_indent level ++ chr "}" :: after) eq_refl)
      as [tl ->].
    by vm_compute.
  - apply (parse_members_join level 1); [done| |simpl; lia].
    assert (forall z, starts_value (Encoder.repr_int z)).
    { intros [|p|p]; [done| |done]. simpl.
      destruct (uint_chars_pos_head p) as (c & ds & -> & Hc). simpl.
      apply orb_false_iff; split; [|apply N.eqb_neq; lia].
      apply orb_false_iff; split; [|apply N.eqb_neq; lia].
      apply orb_false_iff; split; apply N.eqb_neq; lia. }
    unfold items. repeat constructor; simpl;
      auto using parses_str, parses_int, parses_bool.
    by destruct (completed t).
Qed.

Lemma dump_task_starts level t : starts_value (dump_task level t).
Proof. done. Qed.

(** [json.loads] reads what [json.dump] wrote. *)
Lemma loads_dump_tasks (l : list Task) :
  Forall (fun t => wf_task t = true) l ->
  Decoder.loads (dump_tasks l) = Ok (tasks_to_py l).
Proof.
  intros Hwf. destruct l as [|t l]; [done|].
  set (items := map (fun t => (dump_task 1 t, task_to_py t)) (t :: l)).
  set (sep := py "," ++ Encoder.newline_indent 1).
  assert (Hdump : dump_tasks (t :: l)
    = chr "[" :: Encoder.newline_indent 1 ++ join sep (map fst items)
      ++ Encoder.newline_indent 0 ++ [chr "]"]).
  { unfold dump_tasks, Encoder.encode_list, items. rewrite map_map.
    cbn [map fst]. norm_app. done. }
  assert (Hlen : (length (t :: l) + 6 <= length (dump_tasks (t :: l)))%nat).
  { rewrite Hdump. cbn [length]. rewrite !length_app.
    assert (length (t :: l) <= length (join sep (map fst items)))%nat.
    { replace (length (t :: l)) with (length (map fst items))
        by (unfold items; by rewrite !length_map).
      apply length_join_ge. unfold items. rewrite map_map.
      apply Forall_fmap, Forall_forall. intros t' _. simpl. lia. }
    change (length (Encoder.newline_indent 1)) with 3%nat.
    change (length (Encoder.newline_indent 0)) with 1%nat.
    cbn [length] in *. lia. }
  unfold Decoder.loads.
  replace (2 * length (dump_tasks (t :: l)) + 2)%nat
    with (S (2 * length (dump_tasks (t :: l)) + 1))%nat by lia.
  rewrite Hdump at 2. rewrite skip_ws_nonws by done.
  rewrite (scan_once_array _ _
             (join sep (map fst items) ++ Encoder.newline_indent 0
              ++ chr "]" :: []) (map snd items) []).
  - cbn. unfold tasks_to_py, items. by rewrite map_map.
  - by apply (skip_ws_indent_join 1 sep (dump_task 1 t)
                (map fst (map (fun t => (dump_task 1 t, task_to_py t)) l))).
  - destruct (join_starts_with sep (map fst items) (chr "{") _ _
                (Encoder.newline_indent 0 ++ [chr "]"]) eq_refl) as [tl ->].
    by vm_compute.
  - apply (parse_items_join 0 8); [done| |].
    + unfold items. apply Forall_fmap, Forall_forall. intros t' Ht'. simpl.
      split; [done|]. apply parses_task.
      by eapply Forall_forall in Hwf.
    + unfold items. rewrite length_map. lia.
Qed.

Lemma task_of_py_to_py t : task_of_py (task_to_py t) = Some t.
Proof. by destruct t. Qed.

Lemma tasks_of_py_to_py l : tasks_of_py (tasks_to_py l) = Some l.
Proof.
  unfold tasks_of_py, tasks_to_py. induction l as [|t l IH]; [done|].
  cbn [map mapM]. rewrite task_of_py_to_py. cbn. rewrite IH. done.
Qed.

(** ** The fuel of the scanner is enough *)

Ltac suffix_forward :=
  repeat match goal with
  | H : (?x :: ?l) `suffix_of` ?y |- _ =>
      lazymatch goal with
      | _ : l `suffix_of` y |- _ => fail
      | _ => pose proof (suffix_cons_l _ _ _ H)
      end
  end.

Ltac solve_suffix :=
  suffix_forward;
  solve [ repeat first
            [ assumption | reflexivity
            | etransitivity; [eassumption|]
            | apply suffix_cons_r ] ].

Ltac suffix_lengths :=
  repeat match goal with
  | H : _ `suffix_of` _ |- _ => apply suffix_length in H
  end.

Ltac solve_scan :=
  first [ done | split; [solve_suffix | suffix_lengths; simpl in *; lia] ].

Lemma scans_well_then {A B} (o : outcome (A * pystr)) (f : A -> B) s s' :
  scans_well o s -> s `suffix_of` s' ->
  scans_well ('(a, r) ← o; Ok (f a, r)) s'.
Proof.
  destruct o as [[a r]|e]; simpl; [|done]. intros [H1 H2] H3.
  split; [by etransitivity|]. apply suffix_length in H3. lia.
Qed.

Lemma skip_ws_suffix s : Decoder.skip_ws s `suffix_of` s.
Proof.
  induction s as [|c r IH]; simpl; [done|].
  destruct (Decoder.is_ws c); [by apply suffix_cons_r|done].
Qed.

Lemma expect_suffix lit s r : Decoder.expect lit s = Some r -> r `suffix_of` s.
Proof.
  revert s. induction lit as [|a lit IH]; intros [|b s]; simpl;
    try discriminate; try (by intros [= <-]).
  destruct (a =? b); [|discriminate]. intros H. by apply suffix_cons_r, IH.
Qed.

Lemma take_digits_suffix s : (Decoder.take_digits s).2 `suffix_of` s.
Proof.
  induction s as [|c r IH]; simpl; [done|].
  destruct (Decoder.is_digit c); [|done].
  destruct (Decoder.take_digits r); simpl in *. by apply suffix_cons_r.
Qed.

Lemma match_frac_suffix s : (Decoder.match_frac s).2 `suffix_of` s.
Proof.
  destruct s as [|p [|d r]]; try done. unfold Decoder.match_frac.
  destruct ((p =? chr ".") && Decoder.is_digit d); [|done].
  pose proof (take_digits_suffix (d :: r)).
  destruct (Decoder.take_digits (d :: r)); simpl in *. by apply suffix_cons_r.
Qed.

Lemma match_exp_suffix s : (Decoder.match_exp s).2 `suffix_of` s.
Proof.
  destruct s as [|e r]; [done|]. unfold Decoder.match_exp.
  destruct ((e =? chr "e") || (e =? chr "E")); [|done].
  assert (H : forall r1, r1 `suffix_of` r ->
    forall sign, (let '(ds, r2) := Decoder.take_digits r1 in
       match ds with [] => ([], e :: r) | _ :: _ => (e :: sign ++ ds, r2) end).2
     `suffix_of` e :: r).
  { intros r1 Hr1 sign. pose proof (take_digits_suffix r1).
    destruct (Decoder.take_digits r1) as [[|d ds] r2]; simpl in *; [done|].
    apply suffix_cons_r. by etransitivity. }
  destruct r as [|sg r1]; [by apply H|].
  destruct ((sg =? chr "-") || (sg =? chr "+")); apply H;
    [by apply suffix_cons_r|done].
Qed.

Ltac suffix_facts :=
  repeat match goal with
  | H : Decoder.take_digits ?r = _ |- _ =>
      let L := fresh in
      pose proof (take_digits_suffix r) as L; rewrite H in L; clear H
  | H : Decoder.match_frac ?r = _ |- _ =>
      let L := fresh in
      pose proof (match_frac_suffix r) as L; rewrite H in L; clear H
  | H : Decoder.match_exp ?r = _ |- _ =>
      let L := fresh in
      pose proof (match_exp_suffix r) as L; rewrite H in L; clear H
  | H : Decoder.expect _ _ = Some _ |- _ => apply expect_suffix in H
  end.

Lemma match_number_well s : scans_well (Decoder.match_number s) s.
Proof.
  unfold Decoder.match_number, scans_well.
  repeat case_match; simplify_eq; try done; suffix_facts; simpl in *;
    solve_scan.
Qed.

Lemma scanstring_well s : scans_well (Decoder.scanstring s) s.
Proof.
  assert (H : forall n s, (length s < n)%nat ->
            scans_well (Decoder.scanstring s) s).
  { clear s. induction n as [|n IH]; intros s Hn; [lia|].
    destruct s as [|c rest]; [done|]. cbn [Decoder.scanstring].
    repeat case_match; simplify_eq; try done; try (simpl; solve_scan);
      (eapply (scans_well_then _ (cons _));
       [apply IH; simpl in *; lia|solve_suffix]). }
  apply (H (S (length s))). lia.
Qed.

(** With fuel for twice the length of the text, no scan runs out. *)
Lemma scanner_fuel fuel :
  (forall s, (2 * length s + 1 <= fuel)%nat ->
     scans_well (Decoder.scan_once fuel s) s)
  /\ (forall s, (2 * length s + 2 <= fuel)%nat ->
        scans_well (Decoder.parse_items fuel s) s)
  /\ (forall s, (2 * length s + 2 <= fuel)%nat ->
        scans_well (Decoder.parse_members fuel s) s).
Proof.
  induction fuel as [|fuel (IHv & IHi & IHm)];
    [split_and!; intros s Hs; lia|].
  split_and!.
  - intros [|c rest] Hs; [done|]. cbn [Decoder.scan_once].
    pose proof (scanstring_well rest) as Hstr.
    pose proof (match_number_well (c :: rest)) as Hnum.
    pose proof (skip_ws_suffix rest) as Hws.
    pose proof (suffix_length _ _ Hws) as Hwl.
    repeat case_match; simplify_eq; try done; suffix_facts;
      try (simpl in *; solve_scan);
      try (eapply scans_well_then; [eassumption|solve_suffix]).
    + eapply (scans_well_then _ (fun d => PyDict (dict_of_pairs d))).
      * apply IHm. simpl in *. lia.
      * solve_suffix.
    + eapply (scans_well_then _ PyList).
      * apply IHi. simpl in *. lia.
      * solve_suffix.
  - intros s Hs. cbn [Decoder.parse_items].
    pose proof (IHv s ltac:(lia)) as Hv.
    destruct (Decoder.scan_once fuel s) as [[v r]|e]; [|done]. cbn in *.
    destruct Hv as [Hv Hvl].
    pose proof (skip_ws_suffix r) as Hws.
    pose proof (suffix_length _ _ Hws) as Hwl.
    destruct (Decoder.skip_ws r) as [|c r'] eqn:Hr; [done|].
    repeat case_match; simplify_eq; try done; try (simpl in *; solve_scan).
    pose proof (skip_ws_suffix r') as Hws'.
    pose proof (suffix_length _ _ Hws') as Hwl'.
    eapply (scans_well_then _ (cons v)).
    + apply IHi. simpl in *. lia.
    + solve_suffix.
  - intros s Hs. cbn [Decoder.parse_members].
    destruct s as [|q r0]; [done|]. destruct (q =? QUOTE); [|done].
    pose proof (scanstring_well r0) as Hstr.
    destruct (Decoder.scanstring r0) as [[key r1]|e]; [|done]. cbn in *.
    destruct Hstr as [Hstr Hstrl].
    pose proof (skip_ws_suffix r1) as Hws1.
    pose proof (suffix_length _ _ Hws1) as Hwl1.
    destruct (Decoder.skip_ws r1) as [|colon r2]; [done|].
    destruct (colon =? chr ":"); [|done].
    pose proof (skip_ws_suffix r2) as Hws2.
    pose proof (suffix_length _ _ Hws2) as Hwl2.
    pose proof (IHv (Decoder.skip_ws r2) ltac:(simpl in *; lia)) as Hv.
    destruct (Decoder.scan_once fuel (Decoder.skip_ws r2)) as [[v r3]|e];
      [|done]. cbn in *. destruct Hv as [Hv Hvl].
    pose proof (skip_ws_suffix r3) as Hws3.
    pose proof (suffix_length _ _ Hws3) as Hwl3.
    destruct (Decoder.skip_ws r3) as [|c r']; [done|].
    destruct (c =? chr "}"); [simpl in *; solve_scan|].
    destruct (c =? chr ","); [|done].
    pose proof (skip_ws_suffix r') as Hws'.
    pose proof (suffix_length _ _ Hws') as Hwl'.
    eapply (scans_well_then _ (cons (key, v))).
    + apply IHm. simpl in *. lia.
    + solve_suffix.
Qed.

(** [loads] fails only on the text. *)
Lemma loads_Raise s e : Decoder.loads s = Raise e -> e <> RecursionError.
Proof.
  unfold Decoder.loads.
  pose proof (suffix_length _ _ (skip_ws_suffix s)) as Hws.
  destruct (scanner_fuel (2 * length s + 2)) as [Hv _].
  specialize (Hv (Decoder.skip_ws s) ltac:(lia)).
  destruct (Decoder.scan_once _ _) as [[v r]|e']; cbn in *.
  - destruct (Decoder.skip_ws r); [done|]. by intros [= <-].
  - by intros [= <-].
Qed.

(** ** What the decoder returns can be saved *)

Lemma wf_val_list l : wf_val (PyList l) <-> Forall wf_val l.
Proof.
  induction l as [|x l IH]; [by split|].
  rewrite Forall_cons, <- IH. done.
Qed.

Lemma wf_val_dict d : wf_val (PyDict d) <-> Forall (fun kx => wf_val kx.2) d.
Proof.
  induction d as [|x d IH]; [by split|].
  rewrite Forall_cons, <- IH. done.
Qed.

Lemma hex_val_lt c h : Decoder.hex_val c = Some h -> h < 16.
Proof.
  unfold Decoder.hex_val. repeat case_match; intros [= <-];
    repeat match goal with
    | H : _ && _ = true |- _ => apply andb_true_iff in H as [? ?]
    | H : (_ <=? _) = true |- _ => apply N.leb_le in H
    end; lia.
Qed.

Lemma hex4_lt a b c d cp : Decoder.hex4 a b c d = Some cp -> cp < 65536.
Proof.
  unfold Decoder.hex4.
  destruct (Decoder.hex_val a) as [ha|] eqn:Ha; [|done].
  destruct (Decoder.hex_val b) as [hb|] eqn:Hb; [|done].
  destruct (Decoder.hex_val c) as [hc|] eqn:Hc; [|done].
  destruct (Decoder.hex_val d) as [hd|] eqn:Hd; [|done].
  apply hex_val_lt in Ha, Hb, Hc, Hd. cbn. intros [= <-].
  rewrite !lor_shiftl_add by done. change (2 ^ 4) with 16. lia.
Qed.

Lemma join_surrogates_range hi lo :
  65536 <= Decoder.join_surrogates hi lo < 1114112.
Proof.
  unfold Decoder.join_surrogates.
  rewrite !land_1023, lor_shiftl_add by (apply N.mod_lt; lia).
  change (2 ^ 10) with 1024. ndm.
Qed.

Lemma simple_escape_lt e ch : Decoder.simple_escape e = Some ch -> ch < 128.
Proof.
  unfold Decoder.simple_escape. repeat case_match; intros [= <-]; by vm_compute.
Qed.

Lemma wf_str_cons c str :
  c < 1114112 ->
  (Decoder.is_high_surrogate c = true ->
   match str with c' :: _ => Decoder.is_low_surrogate c' = false | [] => True end) ->
  wf_str str = true -> wf_str (c :: str) = true.
Proof.
  intros Hc Hhi Hstr. cbn [wf_str]. rewrite Hstr, andb_true_r.
  apply andb_true_iff. split; [by apply N.ltb_lt|].
  apply negb_true_iff. destruct (Decoder.is_high_surrogate c); [|done].
  specialize (Hhi eq_refl). destruct str; [done|]. by rewrite Hhi.
Qed.

Ltac open_scan H :=
  match type of H with
  | context [Decoder.scanstring ?Y] =>
      let E := fresh "Hscan" in
      destruct (Decoder.scanstring Y) as [[? ?]|] eqn:E;
      cbn [mbind outcome_bind] in H; [|discriminate H]; injection H as <- <-
  end.

Lemma scanstring_step s str r :
  Decoder.scanstring s = Ok (str, r) -> scan_step s str r.
Proof.
  destruct s as [|c rest]; [done|]. cbn [Decoder.scanstring].
  intros H. repeat case_match; simplify_eq; try open_scan H.
  all: repeat match goal with
       | H : _ && _ = true |- _ => apply andb_true_iff in H as [? ?]
       | H : (_ =? _) = true |- _ => apply N.eqb_eq in H; subst
       | H : (_ =? _) = false |- _ => apply N.eqb_neq in H
       | H : (_ <=? _) = false |- _ => apply N.leb_gt in H
       end.
  all: try (by apply step_quote).
  all: try (by eapply step_simple).
  all: try (by eapply step_plain; eauto; lia).
  all: try (by eapply step_pair; eauto).
  all: eapply step_lone; eauto; cbn [no_low_escape]; intros Hhi; try done.
  - intros _. eauto.
  - intros Hbu. rewrite Hhi in *. cbn [andb] in *. congruence.
Qed.

Lemma scalar_spec c :
  scalar c = true ->
  c < 1114112 /\ Decoder.is_high_surrogate c = false
  /\ Decoder.is_low_surrogate c = false.
Proof.
  unfold scalar. intros H. apply andb_true_iff in H as [H Hl].
  apply andb_true_iff in H as [Hc Hh]. apply N.ltb_lt in Hc.
  by apply negb_true_iff in Hh, Hl.
Qed.

Lemma not_surrogate_lt c :
  c < 55296 ->
  Decoder.is_high_surrogate c = false /\ Decoder.is_low_surrogate c = false.
Proof.
  intros Hc. unfold Decoder.is_high_surrogate, Decoder.is_low_surrogate.
  split; apply andb_false_iff; left; apply N.leb_gt; lia.
Qed.

Lemma not_surrogate_ge c :
  65536 <= c ->
  Decoder.is_high_surrogate c = false /\ Decoder.is_low_surrogate c = false.
Proof.
  intros Hc. unfold Decoder.is_high_surrogate, Decoder.is_low_surrogate.
  split; apply andb_false_iff; right; apply N.leb_gt; lia.
Qed.

(** After a high surrogate that stayed alone, the string does not go on
    with a low one. *)
Lemma scanstring_head_not_low X c' str' r :
  utf8_text X -> no_low_escape X ->
  Decoder.scanstring X = Ok (c' :: str', r) ->
  Decoder.is_low_surrogate c' = false.
Proof.
  intros Htext Hno H.
  apply scanstring_step in H
    as [? ?|c X' s' -> ? ? ? [= -> ->] ?|e ch X' s' -> He [= -> ->] ?
       |h1 h2 h3 h4 cp X' s' -> Hh _ [= -> ->] ?
       |h1 h2 h3 h4 g1 g2 g3 g4 cp c2 X' s' -> ? ? ? ? [= -> ->] ?];
    [done|..].
  - apply Forall_cons in Htext as [Hc _]. by apply scalar_spec in Hc as (_ & _ & ?).
  - apply simple_escape_lt in He. apply not_surrogate_lt. lia.
  - destruct (Hno eq_refl) as (c2 & Hh' & Hlow). congruence.
  - apply not_surrogate_ge, join_surrogates_range.
Qed.

(** The strings [scanstring] returns from a text without surrogates are
    strings [json] can carry. *)
Lemma scanstring_wf s str r :
  utf8_text s -> Decoder.scanstring s = Ok (str, r) -> wf_str str = true.
Proof.
  assert (H : forall n s str r, (length s < n)%nat ->
            utf8_text s -> Decoder.scanstring s = Ok (str, r) ->
            wf_str str = true).
  { clear. induction n as [|n IH]; intros s str r Hn Htext H; [lia|].
    apply scanstring_step in H
      as [? ->|c X' s' -> ? ? ? -> Hs|e ch X' s' -> He -> Hs
         |h1 h2 h3 h4 cp X' s' -> Hh Hno -> Hs
         |h1 h2 h3 h4 g1 g2 g3 g4 cp c2 X' s' -> ? ? ? ? -> Hs];
      [done|..];
      unfold utf8_text in *;
      repeat match goal with
      | H : Forall _ (_ :: _) |- _ => apply Forall_cons in H as [? H]
      end.
    - match goal with H : scalar c = true |- _ =>
        apply scalar_spec in H as (? & Hhi & ?) end.
      apply wf_str_cons; [done|congruence|].
      eapply IH; [|done|done]. simpl in Hn. lia.
    - apply simple_escape_lt in He.
      destruct (not_surrogate_lt ch) as [Hhi _]; [lia|].
      apply wf_str_cons; [lia|congruence|].
      eapply IH; [|done|done]. simpl in Hn. lia.
    - apply hex4_lt in Hh.
      apply wf_str_cons; [lia| |].
      + intros Hhi. destruct s' as [|c' s'']; [done|].
        by eapply scanstring_head_not_low; [|apply Hno|].
      + eapply IH; [|done|done]. simpl in Hn. lia.
    - pose proof (join_surrogates_range cp c2) as Hj.
      destruct (not_surrogate_ge _ (proj1 Hj)) as [Hhi _].
      apply wf_str_cons; [lia|congruence|].
      eapply IH; [|done|done]. simpl in Hn. lia. }
  intros Ht Hs. apply (H (S (length s)) s str r); [lia|done|done].
Qed.

Lemma uint_of_digits ds :
  Forall (fun c => Decoder.is_digit c = true) ds ->
  exists d, Encoder.uint_chars d = ds.
Proof.
  induction 1 as [|c ds Hc _ [d <-]]; [by exists Decimal.Nil|].
  apply andb_true_iff in Hc as [H1 H2]. apply N.leb_le in H1, H2.
  assert (Hcases : c = 48 \/ c = 49 \/ c = 50 \/ c = 51 \/ c = 52 \/ c = 53
                   \/ c = 54 \/ c = 55 \/ c = 56 \/ c = 57) by lia.
  destruct Hcases as [->|[->|[->|[->|[->|[->|[->|[->|[->| ->]]]]]]]]];
    [by exists (Decimal.D0 d)|by exists (Decimal.D1 d)|by exists (Decimal.D2 d)
    |by exists (Decimal.D3 d)|by exists (Decimal.D4 d)|by exists (Decimal.D5 d)
    |by exists (Decimal.D6 d)|by exists (Decimal.D7 d)|by exists (Decimal.D8 d)
    |by exists (Decimal.D9 d)].
Qed.

Lemma length_uint_chars d : length (Encoder.uint_chars d) = Decimal.nb_digits d.
Proof. induction d; simpl; congruence. Qed.

(** The decimal form of the value of a run of digits is no longer than the
    run. *)
Lemma repr_of_digits_length ds :
  Forall (fun c => Decoder.is_digit c = true) ds -> ds <> [] ->
  (length (Encoder.repr_int (Z.of_N (Decoder.digits_value ds))) <= length ds)%nat.
Proof.
  intros Hd Hne. destruct (uint_of_digits ds Hd) as [d <-].
  unfold Decoder.digits_value. rewrite digits_fold_0.
  pose proof (DecimalPos.Unsigned.to_of d) as Hto.
  destruct (Pos.of_uint d) as [|p]; simpl in *.
  - destruct d; simpl in *; try done; lia.
  - rewrite Hto, !length_uint_chars.
    apply DecimalFacts.nb_digits_unorm. by intros ->.
Qed.

Lemma take_digits_digits s :
  Forall (fun c => Decoder.is_digit c = true) (Decoder.take_digits s).1.
Proof.
  induction s as [|c r IH]; simpl; [done|].
  destruct (Decoder.is_digit c) eqn:Hc; [|done].
  destruct (Decoder.take_digits r); simpl in *. by constructor.
Qed.

(** The integers [match_number] returns are within the conversion
    limit. *)
Lemma match_number_wf s v r : Decoder.match_number s = Ok (v, r) -> wf_val v.
Proof.
  unfold Decoder.match_number.
  assert (Hint : forall int_part,
    Forall (fun c => Decoder.is_digit c = true) int_part -> int_part <> [] ->
    (Decoder.max_str_digits <? length int_part)%nat = false ->
    wf_int (Z.of_N (Decoder.digits_value int_part)) = true
    /\ wf_int (- Z.of_N (Decoder.digits_value int_part)) = true).
  { intros ip Hd Hne Hlen. apply Nat.ltb_ge in Hlen.
    pose proof (repr_of_digits_length ip Hd Hne) as Hr.
    unfold wf_int.
    replace (Z.abs (- Z.of_N (Decoder.digits_value ip)))
      with (Z.of_N (Decoder.digits_value ip)) by lia.
    replace (Z.abs (Z.of_N (Decoder.digits_value ip)))
      with (Z.of_N (Decoder.digits_value ip)) by lia.
    split; apply Nat.leb_le; lia. }
  intros H. repeat case_match; simplify_eq; try done; simpl;
    match goal with
    | H : (Decoder.max_str_digits <? length ?ip)%nat = false |- _ =>
        apply (Hint ip); [|done|done]
    end.
  all: repeat match goal with
       | H : Decoder.take_digits ?r = _ |- _ =>
           let L := fresh in
           pose proof (take_digits_digits r) as L; rewrite H in L; clear H
       | H : (_ =? _) = true |- _ => apply N.eqb_eq in H; subst
       end; simpl in *.
  all: try (constructor; [|done]).
  all: try done.
  all: match goal with
       | H : (49 <=? ?c) && (?c <=? 57) = true |- _ =>
           apply andb_true_iff in H as [H1 H2];
           apply N.leb_le in H1, H2;
           apply andb_true_iff; split; apply N.leb_le; lia
       end.
Qed.

Lemma utf8_text_suffix r s : r `suffix_of` s -> utf8_text s -> utf8_text r.
Proof. intros [k ->] H. by apply Forall_app in H as [_ H]. Qed.

Lemma dict_set_wf k v d :
  wf_val v -> Forall (fun kx => wf_val kx.2) d ->
  Forall (fun kx => wf_val kx.2) (dict_set k v d).
Proof.
  intros Hv. induction 1 as [|[k' v'] d Hkv Hd IH]; simpl.
  - by repeat constructor.
  - destruct (decide (k' = k)); constructor; done.
Qed.

Lemma dict_of_pairs_wf pairs :
  Forall (fun kx => wf_val kx.2) pairs ->
  Forall (fun kx => wf_val kx.2) (dict_of_pairs pairs).
Proof.
  unfold dict_of_pairs.
  assert (H : forall acc, Forall (fun kx => wf_val kx.2) acc ->
    Forall (fun kx => wf_val kx.2) pairs ->
    Forall (fun kx => wf_val kx.2)
      (fold_left (fun d kv => dict_set kv.1 kv.2 d) pairs acc)).
  { induction pairs as [|[k v] pairs IH]; intros acc Hacc Hp; [done|].
    apply Forall_cons in Hp as [Hv Hp]. simpl.
    apply IH; [|done]. by apply dict_set_wf. }
  by apply H.
Qed.

(** From a text without surrogates the scanner returns values that can be
    saved. *)
Lemma scanner_wf fuel :
  (forall s v r, (2 * length s + 1 <= fuel)%nat -> utf8_text s ->
     Decoder.scan_once fuel s = Ok (v, r) -> wf_val v)
  /\ (forall s l r, (2 * length s + 2 <= fuel)%nat -> utf8_text s ->
        Decoder.parse_items fuel s = Ok (l, r) -> Forall wf_val l)
  /\ (forall s d r, (2 * length s + 2 <= fuel)%nat -> utf8_text s ->
        Decoder.parse_members fuel s = Ok (d, r) ->
        Forall (fun kx => wf_val kx.2) d).
Proof.
  induction fuel as [|fuel (IHv & IHi & IHm)];
    [split_and!; intros s ? ? Hs; lia|].
  destruct (scanner_fuel fuel) as (Fv & _ & _).
  split_and!.
  - intros [|c rest] v r Hs Htext; [done|]. cbn [Decoder.scan_once].
    apply Forall_cons in Htext as [_ Htext].
    pose proof (skip_ws_suffix rest) as Hws.
    pose proof (suffix_length _ _ Hws) as Hwl.
    pose proof (utf8_text_suffix _ _ Hws Htext) as Hwt.
    intros H. repeat case_match; simplify_eq; try done;
      try match goal with
          | E : Decoder.skip_ws rest = _ |- _ => rewrite E in Hwt, Hwl
          end.
    + destruct (Decoder.scanstring rest) as [[str rr]|] eqn:Hstr; [|done].
      cbn in H. simplify_eq. exact (scanstring_wf rest _ _ Htext Hstr).
    + destruct (Decoder.parse_members fuel _) as [[dd rr]|] eqn:Hm; [|done].
      cbn in H. simplify_eq. apply wf_val_dict, dict_of_pairs_wf.
      eapply IHm; [|exact Hwt|exact Hm]. simpl in *. lia.
    + destruct (Decoder.parse_items fuel _) as [[ll rr]|] eqn:Hi; [|done].
      cbn in H. simplify_eq. apply wf_val_list.
      eapply IHi; [|exact Hwt|exact Hi]. simpl in *. lia.
    + exact (match_number_wf _ _ _ H).
    + exact (match_number_wf _ _ _ H).
  - intros s l r Hs Htext. cbn [Decoder.parse_items].
    pose proof (Fv s ltac:(lia)) as Hsw.
    destruct (Decoder.scan_once fuel s) as [[v r0]|e] eqn:Hv; [|done].
    destruct Hsw as [Hsuf Hlen]. cbn.
    pose proof (skip_ws_suffix r0) as Hws.
    destruct (Decoder.skip_ws r0) as [|c r'] eqn:Hr; [done|].
    assert (Hwv : wf_val v) by (eapply IHv; [|exact Htext|exact Hv]; lia).
    pose proof (skip_ws_suffix r') as Hws'.
    intros H. repeat case_match; simplify_eq; [by repeat constructor|].
    destruct (Decoder.parse_items fuel _) as [[vs r'']|] eqn:Hi; [|done].
    cbn in H. simplify_eq. constructor; [done|].
    apply suffix_cons_l in Hws.
    eapply IHi; [| |exact Hi].
    + apply suffix_length in Hws, Hws', Hsuf. simpl in *. lia.
    + eapply utf8_text_suffix; [|exact Htext].
      etransitivity; [exact Hws'|]. etransitivity; [exact Hws|exact Hsuf].
  - intros s d r Hs Htext. cbn [Decoder.parse_members].
    destruct s as [|q r0]; [done|]. destruct (q =? QUOTE); [|done].
    apply Forall_cons in Htext as [_ Htext].
    pose proof (scanstring_well r0) as Hstr.
    destruct (Decoder.scanstring r0) as [[key r1]|e]; [|done]. cbn.
    destruct Hstr as [Hs1 Hl1].
    pose proof (skip_ws_suffix r1) as Hws1.
    destruct (Decoder.skip_ws r1) as [|colon r2]; [done|].
    destruct (colon =? chr ":"); [|done].
    apply suffix_cons_l in Hws1.
    pose proof (skip_ws_suffix r2) as Hws2.
    assert (Hs2 : Decoder.skip_ws r2 `suffix_of` r0)
      by (etransitivity; [exact Hws2|]; by etransitivity).
    pose proof (Fv (Decoder.skip_ws r2)) as Hsw.
    destruct (Decoder.scan_once fuel (Decoder.skip_ws r2)) as [[v r3]|e] eqn:Hv;
      [|done].
    destruct Hsw as [Hs3 Hl3];
      [apply suffix_length in Hs2; simpl in *; lia|]. cbn.
    assert (Hwv : wf_val v).
    { eapply IHv; [|eapply utf8_text_suffix; [exact Hs2|exact Htext]|exact Hv].
      apply suffix_length in Hs2. simpl in *. lia. }
    pose proof (skip_ws_suffix r3) as Hws3.
    destruct (Decoder.skip_ws r3) as [|c r'] eqn:Hr3; [done|].
    pose proof (skip_ws_suffix r') as Hws'.
    intros H. repeat case_match; simplify_eq; [by repeat constructor|].
    destruct (Decoder.parse_members fuel _) as [[d' r'']|] eqn:Hm; [|done].
    cbn in H. simplify_eq. constructor; [done|].
    apply suffix_cons_l in Hws3.
    assert (Hs' : Decoder.skip_ws r' `suffix_of` r0).
    { etransitivity; [exact Hws'|]. etransitivity; [exact Hws3|].
      by etransitivity. }
    eapply IHm; [| |exact Hm].
    + apply suffix_length in Hs'. simpl in *. lia.
    + by eapply utf8_text_suffix.
Qed.

Lemma loads_wf s v : utf8_text s -> Decoder.loads s = Ok v -> wf_val v.
Proof.
  intros Htext. unfold Decoder.loads.
  pose proof (skip_ws_suffix s) as Hws.
  destruct (Decoder.scan_once _ _) as [[v' r]|] eqn:Hv; [|done]. cbn.
  destruct (Decoder.skip_ws r); [|done]. intros [= <-].
  destruct (scanner_wf (2 * length s + 2)) as [Hwf _].
  eapply Hwf; [|by eapply utf8_text_suffix|exact Hv].
  apply suffix_length in Hws. lia.
Qed.

Lemma task_of_py_Some v t : task_of_py v = Some t -> v = task_to_py t.
Proof.
  unfold task_of_py. intros H.
  repeat case_match; simplify_eq.
  match goal with E : [_; _; _; _; _; _] = _ |- _ => injection E as -> -> -> -> -> -> end.
  reflexivity.
Qed.

Lemma tasks_of_py_Some v l : tasks_of_py v = Some l -> v = tasks_to_py l.
Proof.
  destruct v as [| | | | |vs|]; try done. simpl. intros H.
  apply mapM_Some in H. unfold tasks_to_py. f_equal.
  induction H as [|x t vs l Hx _ IH]; [done|].
  simpl. by rewrite (task_of_py_Some _ _ Hx), IH.
Qed.

Lemma wf_val_task t : wf_val (task_to_py t) -> wf_task t = true.
Proof.
  simpl. intros (Hid & Htext & _ & Hts & Hscore & Hsrc & _).
  unfold wf_task. by rewrite Hid, Htext, Hts, Hscore, Hsrc.
Qed.

Lemma wf_val_tasks l :
  wf_val (tasks_to_py l) -> Forall (fun t => wf_task t = true) l.
Proof.
  unfold tasks_to_py. rewrite wf_val_list, Forall_fmap. intros H.
  eapply Forall_impl; [exact H|]. intros t. apply wf_val_task.
Qed.

(** The tasks read from a store file are well-formed. *)
Lemma loaded_tasks_wf c v l :
  utf8_text c -> Decoder.loads c = Ok v -> tasks_of_py v = Some l ->
  v = tasks_to_py l /\ Forall (fun t => wf_task t = true) l.
Proof.
  intros Htext Hv Hl. pose proof (tasks_of_py_Some _ _ Hl) as ->.
  split; [done|]. by eapply wf_val_tasks, loads_wf.
Qed.

(** ** Storage: saving, then loading *)

Lemma save_then_load (st : state) (l : list Task) :
  Forall (fun t => wf_task t = true) l ->
  TASK_FILE st <> Denied ->
  (save_tasks l ;; load_tasks) st
  = (Ok (tasks_to_py l), set_TASK_FILE (Content (dump_tasks l)) st).
Proof.
  intros Hwf Hfile. unfold save_tasks, load_tasks. run.
  destruct st as [ts rows f ps o]. simpl in *.
  destruct f; try done; simpl; by rewrite (loads_dump_tasks l Hwf).
Qed.

(** C7. Saving a well-formed task list (one whose strings and integers
    [json] can carry) to a store file that can be opened, and loading the
    file with nothing in between, returns the Python value of the list that
    was saved: the same records in the same order, every field what it was.
    The tasks loaded from a store file are well-formed: saving them again
    and loading returns what the first load returned. *)
Theorem save_load_roundtrip :
  (forall (st : state) (l : list Task),
     Forall (fun t => wf_task t = true) l ->
     TASK_FILE st <> Denied ->
     (save_tasks l ;; load_tasks) st
     = (Ok (tasks_to_py l), set_TASK_FILE (Content (dump_tasks l)) st)
     /\ tasks_of_py (tasks_to_py l) = Some l)
  /\ (forall (st : state) (c : pystr) (v : pyval) (l : list Task),
        TASK_FILE st = Content c -> utf8_text c ->
        load_tasks st = (Ok v, st) -> tasks_of_py v = Some l ->
        (save_tasks l ;; load_tasks) st
        = (Ok v, set_TASK_FILE (Content (dump_tasks l)) st)).
Proof.
  split.
  - intros st l Hwf Hfile. split; [by apply save_then_load|].
    apply tasks_of_py_to_py.
  - intros st c v l Hfile Htext Hload Hl.
    assert (Hv : v = tasks_to_py l /\ Forall (fun t => wf_task t = true) l).
    { revert Hload. unfold load_tasks. run.
      destruct st as [ts rows f ps o]. simpl in *. subst f. simpl.
      destruct (Decoder.loads c) as [v'|e] eqn:Hc; simpl; intros Hload;
        simplify_eq.
      - by eapply loaded_tasks_wf.
      - cbv in Hl. simplify_eq. by split. }
    destruct Hv as [-> Hwf]. apply save_then_load; [done|]. by rewrite Hfile.
Qed.

(** * Further properties *)

(** ** [str.strip] *)

Lemma lstrip_spec s :
  exists pre,
    s = pre ++ lstrip s
    /\ Forall (fun c => py_isspace c = true) pre
    /\ (forall c, head (lstrip s) = Some c -> py_isspace c = false).
Proof.
  induction s as [|c r (pre & Hs & Hpre & Hhd)]; simpl.
  - exists []. by split_and!.
  - destruct (py_isspace c) eqn:Hc.
    + exists (c :: pre). split_and!; [simpl; by f_equal|by constructor|done].
    + exists []. split_and!; [done|constructor|]. by intros ? [= <-].
Qed.

Lemma lstrip_nil s :
  lstrip s = [] <-> Forall (fun c => py_isspace c = true) s.
Proof.
  induction s as [|c r IH]; simpl; [done|].
  destruct (py_isspace c) eqn:Hc.
  - rewrite IH. split; [by constructor|by inversion 1].
  - split; [done|]. inversion 1; congruence.
Qed.

Lemma lstrip_fixed s :
  (forall c, head s = Some c -> py_isspace c = false) -> lstrip s = s.
Proof.
  destruct s as [|c r]; [done|]. simpl. intros H. by rewrite (H c eq_refl).
Qed.

Lemma lstrip_app_keep s t :
  lstrip s <> [] -> lstrip (s ++ t) = lstrip s ++ t.
Proof.
  induction s as [|c r IH]; simpl; [done|].
  destruct (py_isspace c); [exact IH|done].
Qed.

(** What [strip] removes is white space, at both ends, and what it leaves
    neither starts nor ends with white space. *)
Lemma strip_spec s :
  exists pre post,
    s = pre ++ strip s ++ post
    /\ Forall (fun c => py_isspace c = true) pre
    /\ Forall (fun c => py_isspace c = true) post
    /\ (forall c, head (strip s) = Some c -> py_isspace c = false)
    /\ (forall c, last (strip s) = Some c -> py_isspace c = false).
Proof.
  unfold strip.
  destruct (lstrip_spec s) as (pre & Hs & Hpre & Hhd).
  destruct (lstrip_spec (reverse (lstrip s))) as (post & Hr & Hpost & Hlast).
  exists pre, (reverse post).
  assert (Hl : lstrip s = reverse (lstrip (reverse (lstrip s))) ++ reverse post).
  { rewrite <- reverse_app, <- Hr. by rewrite reverse_involutive. }
  split_and!.
  - by rewrite <- Hl.
  - done.
  - by apply Forall_reverse.
  - intros c Hc. apply Hhd. rewrite Hl.
    destruct (reverse (lstrip (reverse (lstrip s)))); [done|]. exact Hc.
  - intros c Hc. apply Hlast. by rewrite <- last_reverse, Hc.
Qed.

Lemma strip_nil s :
  strip s = [] <-> Forall (fun c => py_isspace c = true) s.
Proof.
  unfold strip. split.
  - intros H. apply (f_equal reverse) in H. rewrite reverse_involutive in H.
    change (reverse []) with (@nil N) in H. apply lstrip_nil in H.
    apply Forall_reverse in H. rewrite reverse_involutive in H.
    destruct (lstrip_spec s) as (pre & Hs & Hpre & _). rewrite Hs.
    by apply Forall_app.
  - intros H. apply lstrip_nil in H. by rewrite H.
Qed.

Lemma strip_app_space s c :
  py_isspace c = true -> strip (s ++ [c]) = strip s.
Proof.
  intros Hc. unfold strip.
  destruct (lstrip s) as [|a l] eqn:Hl.
  - assert (H : lstrip (s ++ [c]) = []); [|by rewrite H].
    apply lstrip_nil, Forall_app. split; [by apply lstrip_nil|].
    by repeat constructor.
  - rewrite lstrip_app_keep by by rewrite Hl. rewrite Hl.
    rewrite reverse_app. simpl. change (reverse [c]) with [c]. simpl.
    by rewrite Hc.
Qed.


(** ** Transcription *)

Lemma transcribe_fold segments acc :
  fold_left (fun text segment => text ++ (segment ++ py " ")) segments acc
  = acc ++ concat (map (fun segment => segment ++ py " ") segments).
Proof.
  revert acc. induction segments as [|x l IH]; intros acc; simpl.
  - by rewrite app_nil_r.
  - by rewrite IH, <- !app_assoc.
Qed.

Lemma concat_spaced_join segments :
  segments <> [] ->
  concat (map (fun segment => segment ++ py " ") segments)
  = join (py " ") segments ++ py " ".
Proof.
  induction segments as [|x l IH]; [done|]. intros _.
  destruct l as [|y l]; [simpl; by rewrite app_nil_r|].
  change (concat (map _ (x :: y :: l)))
    with ((x ++ py " ") ++ concat (map (fun s => s ++ py " ") (y :: l))).
  rewrite IH by done. change (join (py " ") (x :: y :: l))
    with (x ++ py " " ++ join (py " ") (y :: l)).
  by rewrite <- !app_assoc.
Qed.

(** X2. The transcript is the texts of the segments joined by single
    spaces, without the white space around the whole: it neither starts
    nor ends with white space, and it is empty when there is no segment
    or only white space in them. *)
Theorem transcribe_audio_join (segments : list pystr) :
  transcribe_audio segments = strip (join (py " ") segments)
  /\ (forall c, head (transcribe_audio segments) = Some c -> py_isspace c = false)
  /\ (forall c, last (transcribe_audio segments) = Some c -> py_isspace c = false)
  /\ (transcribe_audio segments = []
      <-> Forall (Forall (fun c => py_isspace c = true)) segments).
Proof.
  assert (H : transcribe_audio segments = strip (join (py " ") segments)).
  { unfold transcribe_audio. rewrite transcribe_fold. simpl.
    destruct segments as [|x l]; [done|].
    rewrite concat_spaced_join by done. by apply strip_app_space. }
  split; [exact H|]. rewrite H.
  destruct (strip_spec (join (py " ") segments)) as (? & ? & _ & _ & _ & Hhd & Hlast).
  split_and!; [exact Hhd|exact Hlast|].
  rewrite strip_nil. clear.
  induction segments as [|x l IH]; [by split; constructor|].
  destruct l as [|y l].
  - simpl. split; [by repeat constructor|by inversion 1].
  - change (join (py " ") (x :: y :: l)) with (x ++ py " " ++ join (py " ") (y :: l)).
    rewrite !Forall_app, IH. split.
    + intros (Hx & _ & Hl). by constructor.
    + inversion 1; subst. split_and!; [done|by repeat constructor|done].
Qed.

(** ** Storage: what is written *)













Lemma dump_tasks_inj (l1 l2 : list Task) :
  Forall (fun t => wf_task t = true) l1 ->
  Forall (fun t => wf_task t = true) l2 ->
  dump_tasks l1 = dump_tasks l2 -> l1 = l2.
Proof.
  intros H1 H2 Heq.
  pose proof (loads_dump_tasks l1 H1) as E1.
  pose proof (loads_dump_tasks l2 H2) as E2.
  assert (E : tasks_to_py l1 = tasks_to_py l2) by congruence.
  pose proof (tasks_of_py_to_py l1) as T1.
  rewrite E, tasks_of_py_to_py in T1. congruence.
Qed.

(** X4. Two well-formed task lists that differ in any field of any task,
    in their order or in their length are written as different files. *)
Theorem dump_tasks_distinct (l1 l2 : list Task) :
  Forall (fun t => wf_task t = true) l1 ->
  Forall (fun t => wf_task t = true) l2 ->
  l1 <> l2 -> dump_tasks l1 <> dump_tasks l2.
Proof. intros H1 H2 Hne Heq. by apply Hne, dump_tasks_inj. Qed.

(** ** What one bracketed span can hold *)








(** ** Ranking: the answers that make it fail *)

Lemma id_to_score_from_Raise len_ranked i ids d e :
  id_to_score_from len_ranked i ids d = Raise e ->
  e = TypeError /\ Exists (fun v => hashable v = false) ids.
Proof.
  revert i d. induction ids as [|v ids IH]; intros i d; simpl; [done|].
  destruct v; try (intros H; destruct (IH _ _ H); split; [done|by right]);
    intros [= <-]; split; try done; by left.
Qed.



(** ** Ranking: where the tasks end up *)

Lemma StronglySorted_lookup {A} (R : relation A) l i j a b :
  StronglySorted R l -> l !! i = Some a -> l !! j = Some b -> (i < j)%nat ->
  R a b.
Proof.
  intros Hs. revert i j. induction Hs as [|x l Hs IH Hx]; intros i j Hi Hj Hij.
  - done.
  - destruct j as [|j]; [lia|]. destruct i as [|i]; simpl in *.
    + injection Hi as ->. rewrite Forall_forall in Hx.
      apply Hx. by eapply list_elem_of_lookup_2.
    + eapply IH; [exact Hi|exact Hj|lia].
Qed.

(** Whether a string is among the items of the answer, and where it is
    last. *)
Lemma last_occurrence (s : pystr) (ids : list pyval) :
  (PyStr s ∉ ids)
  \/ exists j, ids !! j = Some (PyStr s)
               /\ forall j', (j < j')%nat -> ids !! j' <> Some (PyStr s).
Proof.
  induction ids as [|v ids IH].
  - left. apply not_elem_of_nil.
  - destruct IH as [Hno|(j & Hj & Hlast)].
    + assert (Hv : v = PyStr s \/ v <> PyStr s).
      { destruct v; try (right; discriminate).
        destruct (decide (s0 = s)) as [->|]; [by left|right; congruence]. }
      destruct Hv as [->|Hv].
      * right. exists 0%nat. split; [done|]. intros [|j'] Hj'; [lia|]. simpl.
        intros Hin. apply Hno. by eapply list_elem_of_lookup_2.
      * left. rewrite not_elem_of_cons. split; [congruence|done].
    + right. exists (S j). split; [done|]. intros [|j'] Hj'; [lia|].
      simpl. apply Hlast. lia.
Qed.

(** The score of a task after a pass, from the dict of the pass. *)
Lemma build_id_to_score_range ids d s :
  build_id_to_score ids = Ok d ->
  match d !! s with
  | Some score => PyStr s ∈ ids /\ (1 <= score <= Z.of_nat (length ids))%Z
  | None => PyStr s ∉ ids
  end.
Proof.
  intros Hd. destruct (build_id_to_score_lookup _ _ Hd) as [Habsent Hlast].
  destruct (last_occurrence s ids) as [Hno|(j & Hj & Hl)].
  - by rewrite (Habsent _ Hno).
  - rewrite (Hlast _ _ Hj Hl). split; [by eapply list_elem_of_lookup_2|].
    apply lookup_lt_Some in Hj. lia.
Qed.

(** X7. After a pass that succeeds, every score lies between 0 and the
    length of the answer, a task has a positive score exactly when the
    answer names its id, and every task the answer names stands before
    every task it does not name: the tasks the model left out sink to the
    end of the list. *)
Theorem rank_tasks_named_first (st : state) (m : pystr) (ranked_ids : list pyval) :
  Exists (fun t => completed t = false) (tasks st) ->
  Re.search (response_to (rank_prompt_of st) st) = Some m ->
  Decoder.loads m = Ok (PyList ranked_ids) ->
  Forall (fun v => hashable v = true) ranked_ids ->
  let result := tasks (rank_tasks st).2 in
  (forall t, t ∈ result ->
     (0 <= priority_score t <= Z.of_nat (length ranked_ids))%Z
     /\ ((0 < priority_score t)%Z <-> PyStr (id t) ∈ ranked_ids))
  /\ (forall i j t u,
        result !! i = Some t -> result !! j = Some u ->
        PyStr (id t) ∈ ranked_ids -> PyStr (id u) ∉ ranked_ids ->
        (i < j)%nat).
Proof.
  intros Hinc Hs Hl Hh result.
  destruct (rank_tasks_ranked st m ranked_ids Hinc Hs Hl Hh) as (d & Hd & _ & Ht).
  fold result in Ht.
  assert (Hscore : forall t, t ∈ result ->
            (0 <= priority_score t <= Z.of_nat (length ranked_ids))%Z
            /\ ((0 < priority_score t)%Z <-> PyStr (id t) ∈ ranked_ids)).
  { intros t Hin. rewrite Ht, list_sort_reverse_Permutation in Hin.
    apply list_elem_of_fmap in Hin as (t0 & -> & _).
    rewrite assign_score_id, assign_score_lookup.
    pose proof (build_id_to_score_range _ _ (id t0) Hd) as Hr.
    destruct (d !! id t0) as [score|]; simpl.
    - destruct Hr as [Hin Hr]. split; [lia|]. split; [done|lia].
    - split; [lia|]. split; [lia|done]. }
  split; [exact Hscore|].
  intros i j t u Hi Hj Hin Hout.
  destruct (Hscore t) as [_ Hpos]; [by eapply list_elem_of_lookup_2|].
  destruct (Hscore u) as [Hu0 Hneg]; [by eapply list_elem_of_lookup_2|].
  apply Hpos in Hin.
  assert (Hzero : priority_score u = 0%Z).
  { destruct (decide (0 < priority_score u)%Z) as [Hp|Hp]; [|lia].
    by apply Hneg in Hp. }
  pose proof (list_sort_reverse_sorted priority_score
                (map (assign_score d) (tasks st))) as Hsorted.
  rewrite <- Ht in Hsorted.
  destruct (decide (i < j)%nat) as [|Hge]; [done|exfalso].
  destruct (decide (i = j)) as [->|Hne].
  - rewrite Hi in Hj. injection Hj as ->. lia.
  - assert (Hlt : (j < i)%nat) by lia.
    pose proof (StronglySorted_lookup _ _ _ _ _ _ Hsorted Hj Hi Hlt) as Hle.
    unfold key_ge in Hle. lia.
Qed.

(** ** Ranking twice *)

Section SortedFacts.
Context {A : Type} (key : A -> Z).

Lemma insert_by_least x l :
  Forall (fun y => (key x <= key y)%Z) l -> insert_by key x l = x :: l.
Proof.
  destruct l as [|y l]; [done|]. intros [Hy _]%Forall_cons. simpl.
  destruct (Z.ltb_spec (key y) (key x)); [lia|done].
Qed.

Lemma sorted_stable_sorted_id l :
  StronglySorted (key_le key) l -> sorted_stable key l = l.
Proof.
  induction 1 as [|x l Hs IH Hx]; [done|]. simpl. rewrite IH.
  by apply insert_by_least.
Qed.

(** The descending sort leaves a list that is sorted as it is. *)
Lemma list_sort_reverse_sorted_id l :
  StronglySorted (key_ge key) l -> list_sort key true l = l.
Proof.
  intros Hs. unfold list_sort.
  rewrite sorted_stable_sorted_id; [by rewrite reverse_involutive|].
  exact (StronglySorted_reverse (key_ge key) l Hs).
Qed.
End SortedFacts.

Lemma assign_score_twice d t : assign_score d (assign_score d t) = assign_score d t.
Proof. unfold assign_score. by destruct (d !! id t) eqn:E; simpl; rewrite E. Qed.

(** X8. Scoring and sorting the task list twice from the same parsed
    answer gives what doing it once gives: the second pass finds every
    score and the order already in place. *)
Theorem apply_ranking_twice (ranked_ids : pyval) (st : state) :
  (apply_ranking ranked_ids ;; apply_ranking ranked_ids) st
  = apply_ranking ranked_ids st.
Proof.
  unfold apply_ranking. run.
  destruct (py_iter ranked_ids) as [ids|]; [|done]. simpl.
  destruct (build_id_to_score ids) as [d|]; [|done]. simpl.
  f_equal. unfold set_tasks. simpl. f_equal.
  set (X := map (assign_score d) (tasks st)).
  assert (Hfix : map (assign_score d) (list_sort priority_score true X)
                 = list_sort priority_score true X).
  { transitivity (map (fun t => t) (list_sort priority_score true X));
      [|apply map_id].
    apply Forall_fmap_ext_1, Forall_forall. intros t Hin.
    rewrite list_sort_reverse_Permutation in Hin.
    apply list_elem_of_fmap in Hin as (t0 & -> & _). apply assign_score_twice. }
  change (list_sort priority_score true
            (map (assign_score d) (list_sort priority_score true X))
          = list_sort priority_score true X).
  rewrite Hfix. apply list_sort_reverse_sorted_id, list_sort_reverse_sorted.
Qed.

(** ** Ranking: an answer that names every task once *)

Section DistinctKeys.
Context {A : Type} (key : A -> Z).

Lemma StronglySorted_strict l :
  StronglySorted (key_ge key) l -> NoDup (map key l) ->
  StronglySorted (fun a b => (key b < key a)%Z) l.
Proof.
  induction 1 as [|x l Hs IH Hx]; [constructor|].
  cbn [map]. intros [Hnotin Hnd]%NoDup_cons. constructor; [by apply IH|].
  rewrite Forall_forall in Hx |- *. intros y Hy.
  specialize (Hx y Hy). unfold key_ge in Hx.
  destruct (decide (key y = key x)) as [Heq|]; [|lia].
  destruct Hnotin. rewrite <- Heq. apply list_elem_of_fmap. eauto.
Qed.

(** [n] distinct keys between 1 and [n], from the largest to the
    smallest: they are [n], [n - 1], ..., 1. *)
Lemma descending_keys l (n : nat) :
  StronglySorted (fun a b => (key b < key a)%Z) l ->
  Forall (fun x => (1 <= key x <= Z.of_nat n)%Z) l ->
  length l = n ->
  forall k x, l !! k = Some x -> key x = (Z.of_nat n - Z.of_nat k)%Z.
Proof.
  intros Hs. revert n. induction Hs as [|x l Hs IH Hx]; intros n Hr Hn k y Hk.
  - done.
  - apply Forall_cons in Hr as [Hrx Hr]. destruct n as [|n]; [done|].
    simpl in Hn. injection Hn as Hn.
    assert (Hr' : Forall (fun y => (1 <= key y <= Z.of_nat n)%Z) l).
    { rewrite Forall_forall in Hx, Hr |- *. intros z Hz.
      specialize (Hx z Hz). specialize (Hr z Hz). simpl in Hx. lia. }
    destruct k as [|k].
    + injection Hk as <-. destruct l as [|z l].
      * simpl in Hn. subst n. lia.
      * pose proof (IH n Hr' Hn 0%nat z eq_refl) as Hz.
        apply Forall_cons in Hx as [Hzx _]. lia.
    + rewrite (IH n Hr' Hn k y Hk). lia.
Qed.
End DistinctKeys.

(** X9. When the ids of the stored tasks are distinct and the answer of
    the model is an array that names each of them once, the pass puts the
    tasks in the order of the answer: the task at position [k] is the one
    with the [k]-th id of the answer, and its score is [L - k]. *)
Theorem rank_tasks_follows_answer (st : state) (m : pystr) (ids : list pystr) :
  NoDup (map id (tasks st)) ->
  Exists (fun t => completed t = false) (tasks st) ->
  Re.search (response_to (rank_prompt_of st) st) = Some m ->
  Decoder.loads m = Ok (PyList (map PyStr ids)) ->
  ids ≡ₚ map id (tasks st) ->
  let result := tasks (rank_tasks st).2 in
  (rank_tasks st).1 = Ok tt
  /\ map id result = ids
  /\ forall k t, result !! k = Some t ->
       priority_score t = (Z.of_nat (length ids) - Z.of_nat k)%Z.
Proof.
  intros Hnd Hinc Hs Hl Hperm result.
  assert (Hh : Forall (fun v => hashable v = true) (map PyStr ids))
    by (apply Forall_fmap, Forall_forall; done).
  destruct (rank_tasks_ranked st m _ Hinc Hs Hl Hh) as (d & Hd & Hok & Ht).
  fold result in Ht. split; [exact Hok|].
  destruct (build_id_to_score_lookup _ _ Hd) as [_ Hlast].
  rewrite length_map in Hlast.
  assert (Hndi : NoDup ids) by by rewrite Hperm.
  set (L := Z.of_nat (length ids)) in *.
  set (g := fun s => default 0%Z (d !! s)).
  assert (Hg : forall j s, ids !! j = Some s -> g s = (L - Z.of_nat j)%Z).
  { intros j s Hj. unfold g. rewrite (Hlast s j); [done| |].
    - by rewrite list_lookup_fmap, Hj.
    - intros j' Hlt. rewrite list_lookup_fmap.
      destruct (ids !! j') as [s'|] eqn:Hj'; [|done]. simpl. intros [= ->].
      pose proof (NoDup_lookup _ _ _ _ Hndi Hj Hj'). lia. }
  assert (Hginj : forall s s', s ∈ ids -> s' ∈ ids -> g s = g s' -> s = s').
  { intros s s' [j Hj]%list_elem_of_lookup [j' Hj']%list_elem_of_lookup.
    rewrite (Hg _ _ Hj), (Hg _ _ Hj'). intros Heq.
    assert (j = j') as -> by lia. congruence. }
  set (X := map (assign_score d) (tasks st)) in *.
  assert (HidX : map id X = map id (tasks st)).
  { unfold X. rewrite map_map. apply map_ext. intros. apply assign_score_id. }
  assert (HscoreX : map priority_score X = map g (map id (tasks st))).
  { unfold X. rewrite !map_map. apply map_ext. intros.
    apply assign_score_lookup. }
  assert (Hres : result ≡ₚ X) by (rewrite Ht; apply list_sort_reverse_Permutation).
  assert (Hin : forall t, t ∈ result ->
            id t ∈ ids /\ priority_score t = g (id t)).
  { intros t Hin. rewrite Hres in Hin.
    apply list_elem_of_fmap in Hin as (t0 & -> & Hin0).
    rewrite assign_score_id, assign_score_lookup. split; [|done].
    rewrite Hperm. apply list_elem_of_fmap. eauto. }
  assert (Hlen : length result = length ids).
  { rewrite Hres. unfold X. by rewrite length_map, Hperm, length_map. }
  assert (Hscores : forall k t, result !! k = Some t ->
            priority_score t = (L - Z.of_nat k)%Z).
  { apply (descending_keys priority_score); [| |exact Hlen].
    - apply StronglySorted_strict.
      + rewrite Ht. apply list_sort_reverse_sorted.
      + rewrite Hres, HscoreX. apply NoDup_fmap_2_strong; [|done].
        intros s s' Hs1 Hs2. apply Hginj; by rewrite Hperm.
    - apply Forall_forall. intros t Ht'.
      destruct (Hin t Ht') as [[j Hj]%list_elem_of_lookup ->].
      rewrite (Hg _ _ Hj). apply lookup_lt_Some in Hj. lia. }
  split; [|exact Hscores].
  apply list_eq. intros k. rewrite list_lookup_fmap.
  destruct (result !! k) as [t|] eqn:Hk; simpl.
  - destruct (Hin t) as [[j Hj]%list_elem_of_lookup Hsc];
      [by eapply list_elem_of_lookup_2|].
    rewrite (Hscores _ _ Hk), (Hg _ _ Hj) in Hsc.
    assert (k = j) as -> by lia. done.
  - symmetry. apply lookup_ge_None. apply lookup_ge_None in Hk. lia.
Qed.

(** ** Ranking: what it leaves alone *)

Lemma apply_ranking_footprint v st :
  task_list (apply_ranking v st).2 = task_list st
  /\ TASK_FILE (apply_ranking v st).2 = TASK_FILE st
  /\ prompts (apply_ranking v st).2 = prompts st
  /\ ollama_stdout (apply_ranking v st).2 = ollama_stdout st.
Proof.
  unfold apply_ranking. run.
  destruct (py_iter v) as [ids|]; [|done]. simpl.
  by destruct (build_id_to_score ids).
Qed.

Lemma rank_tasks_footprint st :
  task_list (rank_tasks st).2 = task_list st
  /\ TASK_FILE (rank_tasks st).2 = TASK_FILE st
  /\ ollama_stdout (rank_tasks st).2 = ollama_stdout st
  /\ prompts (rank_tasks st).2
     = if decide (filter (fun t => completed t = false) (tasks st) = [])
       then prompts st else prompts st ++ [rank_prompt_of st].
Proof.
  case_decide as Hf.
  - unfold rank_tasks. run. by rewrite Hf.
  - rewrite (rank_tasks_asked _ Hf).
    destruct (Re.search _) as [m|]; [|done].
    destruct (Decoder.loads m) as [v|]; [|done].
    destruct (apply_ranking_footprint v (after_prompt (rank_prompt_of st) st))
      as (-> & -> & -> & ->). done.
Qed.

Lemma rank_tasks_outcome st :
  (rank_tasks st).1 = Ok tt \/ (rank_tasks st).1 = Raise TypeError.
Proof.
  destruct (decide (filter (fun t => completed t = false) (tasks st) = []))
    as [Hf|Hf].
  - left. unfold rank_tasks. run. by rewrite Hf.
  - rewrite (rank_tasks_asked _ Hf).
    destruct (Re.search _) as [m|]; [|by left].
    destruct (Decoder.loads m) as [v|]; [|by left].
    unfold apply_ranking. run.
    destruct (py_iter v) as [ids|] eqn:Hv; simpl.
    + unfold build_id_to_score.
      destruct (id_to_score_from _ _ _ _) as [d|e] eqn:Hd; [by left|].
      apply id_to_score_from_Raise in Hd as [-> _]. by right.
    + destruct v; simpl in Hv; try discriminate Hv; injection Hv as <-; by right.
Qed.

(** Whatever the answer, the list is the one [rank_tasks] found with new
    scores, in some order. *)
Lemma rank_tasks_keeps st :
  length (tasks (rank_tasks st).2) = length (tasks st)
  /\ map id (tasks (rank_tasks st).2) ≡ₚ map id (tasks st)
  /\ map completed (tasks (rank_tasks st).2) ≡ₚ map completed (tasks st).
Proof.
  destruct (rank_tasks_cases st) as [->|[d ->]]; [done|].
  rewrite list_sort_reverse_Permutation, length_map, !map_map.
  split_and!; [done| |]; (erewrite map_ext; [done|]);
    intros t; unfold assign_score; by destruct (d !! id t).
Qed.


(** ** The window: removing a task, the other cases *)

Lemma fmap_delete {A B} (f : A -> B) (k : nat) (l : list A) :
  delete k (map f l) = map f (delete k l).
Proof.
  revert k. induction l as [|x l IH]; intros [|k]; simpl; try done.
  by rewrite IH.
Qed.

(** X11. With no row selected [complete_selected] does nothing at all;
    with a row beyond the last task it raises [IndexError] before anything
    is changed or written. *)
Theorem complete_selected_no_row (st : state) (selected : Z) :
  ((selected < 0)%Z -> complete_selected selected st = (Ok tt, st))
  /\ ((Z.of_nat (length (tasks st)) <= selected)%Z ->
      complete_selected selected st = (Raise IndexError, st)).
Proof.
  unfold complete_selected, tasks_pop. run. split; intros H.
  - by destruct (Z.leb_spec 0 selected); [lia|].
  - destruct (Z.leb_spec 0 selected); [|lia].
    destruct (Z.ltb_spec selected 0); [lia|].
    destruct (Z.leb_spec (Z.of_nat (length (tasks st))) selected); [|lia].
    by rewrite orb_true_r.
Qed.

Lemma complete_selected_run (st : state) (k : Z) :
  (0 <= k < Z.of_nat (length (tasks st)))%Z ->
  complete_selected k st =
    let popped := set_tasks (delete (Z.to_nat k) (tasks st)) st in
    match TASK_FILE st with
    | Denied => (Raise OSError, popped)
    | _ =>
        (Ok tt,
         set_task_list (delete (Z.to_nat k) (task_list st))
           (set_TASK_FILE (Content (dump_tasks (tasks popped))) popped))
    end.
Proof.
  intros Hk.
  assert (Hlt : (Z.to_nat k < length (tasks st))%nat) by lia.
  assert (E1 : (0 <=? k)%Z = true) by lia.
  assert (E2 : (k <? 0)%Z = false) by lia.
  assert (E3 : (Z.of_nat (length (tasks st)) <=? k)%Z = false) by lia.
  unfold complete_selected, tasks_pop, save_tasks, write_file, takeItem. run.
  rewrite E1, !E2, E3. simpl.
  destruct (lookup_lt_is_Some_2 (tasks st) _ Hlt) as [t ->].
  destruct st as [ts rows f ps o]. simpl. by destruct f.
Qed.

(** X12. When a row [k] of the list is completed and the store can be
    written, the store file holds exactly the tasks that remain, the row
    [k] is gone, and rows that showed the tasks before still show them:
    row [i] is the display of task [i].  The model is not run. *)
Theorem complete_selected_stores (st : state) (k : Z) :
  (0 <= k < Z.of_nat (length (tasks st)))%Z ->
  TASK_FILE st <> Denied ->
  let st' := (complete_selected k st).2 in
  (complete_selected k st).1 = Ok tt
  /\ TASK_FILE st' = Content (dump_tasks (tasks st'))
  /\ task_list st' = delete (Z.to_nat k) (task_list st)
  /\ (task_list st = map display (tasks st) ->
      task_list st' = map display (tasks st'))
  /\ prompts st' = prompts st.
Proof.
  intros Hk Hfile st'. unfold st'. rewrite (complete_selected_run _ _ Hk).
  destruct (TASK_FILE st) eqn:Hf; try done; simpl;
    (split_and!; [done..| |done]); intros ->; apply fmap_delete.
Qed.

(** X13. When the store cannot be written, [complete_selected] raises
    [OSError] after the task has left the list and before its row is
    taken: the task is gone from the list of the window, its row is still
    shown, and the store still holds it. *)
Theorem complete_selected_store_denied (st : state) (k : Z) :
  (0 <= k < Z.of_nat (length (tasks st)))%Z ->
  TASK_FILE st = Denied ->
  complete_selected k st
  = (Raise OSError, set_tasks (delete (Z.to_nat k) (tasks st)) st)
  /\ (length (task_list st) = length (tasks st) ->
      length (task_list (complete_selected k st).2)
      = S (length (tasks (complete_selected k st).2))).
Proof.
  intros Hk Hfile. rewrite (complete_selected_run _ _ Hk), Hfile. simpl.
  split; [done|]. intros ->.
  rewrite length_delete; [lia|]. apply lookup_lt_is_Some_2. lia.
Qed.

(** ** Adding tasks *)

Ltac runW :=
  cbv [mbind mret W_bind W_ret bindW retW getW modifyW in_core
       uuid4_str time_int warning].

Lemma new_tasks_cons w text rest source :
  new_tasks w (text :: rest) source
  = mkTask (uuid4 w (uuid4_calls w)) text false (time_time w (time_calls w)) 0 source
    :: new_tasks
         (set_time_calls (S (time_calls w)) (set_uuid4_calls (S (uuid4_calls w)) w))
         rest source.
Proof.
  unfold new_tasks. cbn [imap]. rewrite !Nat.add_0_r. f_equal.
  apply imap_ext. intros k x _. simpl. f_equal; f_equal; lia.
Qed.

Lemma length_new_tasks w texts source :
  length (new_tasks w texts source) = length texts.
Proof. unfold new_tasks. apply length_imap. Qed.

(** The loop of [add_tasks] appends the new tasks and draws one id and one
    time for each. *)
Lemma add_tasks_loop_spec texts source w :
  add_tasks_loop texts source w = (Ok tt, with_new_tasks texts source w).
Proof.
  revert w. induction texts as [|text rest IH]; intros w.
  - destruct w as [[ts rows f ps o] inp ws u uc tm tc].
    unfold with_new_tasks, new_tasks, set_tasks. simpl.
    by rewrite app_nil_r, !Nat.add_0_r.
  - cbn [add_tasks_loop]. runW. cbv [modify]. rewrite IH. f_equal.
    unfold with_new_tasks. rewrite new_tasks_cons.
    destruct w as [[ts rows f ps o] inp ws u uc tm tc].
    unfold set_core, set_tasks, set_time_calls, set_uuid4_calls. simpl.
    rewrite <- app_assoc. simpl. f_equal; lia.
Qed.

Lemma add_tasks_run texts source w :
  add_tasks texts source w
  = in_core rank_tasks (with_new_tasks texts source w).
Proof. unfold add_tasks. runW. by rewrite add_tasks_loop_spec. Qed.

Lemma in_core_run {A} (m : M A) w :
  in_core m w = ((m (core w)).1, set_core (m (core w)).2 w).
Proof. unfold in_core. by destruct (m (core w)). Qed.

(** The list a pass leaves is the list it found, each task with a score
    of the pass and nothing else changed, in some order. *)
Lemma rank_tasks_scored st :
  exists scored,
    Forall2 (fun t t' => t' = set_priority_score (priority_score t') t)
      (tasks st) scored
    /\ tasks (rank_tasks st).2 ≡ₚ scored.
Proof.
  destruct (rank_tasks_cases st) as [->|[d ->]].
  - exists (tasks st). split; [|done].
    apply Forall_Forall2_diag, Forall_forall. by intros [].
  - exists (map (assign_score d) (tasks st)). split.
    + apply Forall2_fmap_r, Forall_Forall2_diag, Forall_forall.
      intros t _. unfold compose. apply assign_score_frame.
    + apply list_sort_reverse_Permutation.
Qed.

Lemma new_tasks_incomplete w texts source :
  Forall (fun t => completed t = false) (new_tasks w texts source).
Proof.
  unfold new_tasks. apply Forall_forall. intros t Hin.
  apply list_elem_of_lookup in Hin as [k Hk].
  rewrite list_lookup_imap in Hk.
  destruct (texts !! k); simpl in Hk; [|done]. by injection Hk as <-.
Qed.

(** X14. [add_tasks] appends one task to the list for each text, in
    their order, each with the next id and the next time, not completed,
    at score 0 and with the given source, and then ranks: the list it
    leaves holds the tasks that were there and the new ones, each with no
    field changed but the score, in the order of the ranking.  It neither
    writes the store nor touches the rows or the input line, and when it
    is given a text it runs the model exactly once. *)
Theorem add_tasks_appends (new_texts : list pystr) (source : pystr) (w : window) :
  let w' := (add_tasks new_texts source w).2 in
  let added := new_tasks w new_texts source in
  (forall k text, new_texts !! k = Some text ->
     added !! k
     = Some (mkTask (uuid4 w (uuid4_calls w + k)) text false
               (time_time w (time_calls w + k)) 0 source))
  /\ length added = length new_texts
  /\ (exists scored,
        Forall2 (fun t t' => t' = set_priority_score (priority_score t') t)
          (tasks (core w) ++ added) scored
        /\ tasks (core w') ≡ₚ scored)
  /\ uuid4_calls w' = (uuid4_calls w + length new_texts)%nat
  /\ time_calls w' = (time_calls w + length new_texts)%nat
  /\ input_field w' = input_field w
  /\ warnings w' = warnings w
  /\ TASK_FILE (core w') = TASK_FILE (core w)
  /\ task_list (core w') = task_list (core w)
  /\ (new_texts <> [] ->
      prompts (core w')
      = prompts (core w)
        ++ [rank_prompt_of (core (with_new_tasks new_texts source w))]).
Proof.
  intros w' added. unfold w'. rewrite add_tasks_run, in_core_run. simpl.
  set (st1 := set_tasks (tasks (core w) ++ new_tasks w new_texts source) (core w)).
  destruct (rank_tasks_footprint st1) as (Hrows & Hfile & _ & Hp).
  split_and!; try done.
  - intros k text Hk. unfold added, new_tasks.
    by rewrite list_lookup_imap, Hk.
  - apply length_new_tasks.
  - apply (rank_tasks_scored st1).
  - intros Hne. rewrite Hp. rewrite decide_False; [done|].
    apply filter_incomplete_cons. unfold st1. simpl.
    apply Exists_app. right.
    pose proof (new_tasks_incomplete w new_texts source) as Hall.
    pose proof (length_new_tasks w new_texts source) as Hlen.
    destruct (new_tasks w new_texts source) as [|t l].
    + by destruct new_texts.
    + left. by apply Forall_cons in Hall as [? _].
Qed.

(** X15. When the answer of the model holds no bracketed span, or one
    that is not JSON, [add_tasks] returns normally and the list is the old
    list, untouched, followed by the new tasks in the order of their
    texts, each at score 0. *)
Theorem add_tasks_unranked (new_texts : list pystr) (source : pystr) (w : window) :
  let st1 := core (with_new_tasks new_texts source w) in
  let response := response_to (rank_prompt_of st1) st1 in
  Re.search response = None \/
  (exists m e, Re.search response = Some m /\ Decoder.loads m = Raise e) ->
  (add_tasks new_texts source w).1 = Ok tt
  /\ tasks (core (add_tasks new_texts source w).2)
     = tasks (core w) ++ new_tasks w new_texts source.
Proof.
  intros st1 response H. rewrite add_tasks_run, in_core_run.
  change (core (with_new_tasks new_texts source w)) with st1.
  cbn [fst snd core set_core].
  destruct (decide (filter (fun t => completed t = false) (tasks st1) = []))
    as [Hnil|Hne].
  - unfold rank_tasks. run. by rewrite Hnil.
  - rewrite (rank_tasks_asked _ Hne). fold response.
    destruct H as [->|(m & e & -> & ->)]; done.
Qed.

(** ** Adding tasks: the ids stay distinct *)





(** ** The window: a task typed in *)

(** [add_manual], step by step: the task is appended and the list ranked,
    the list is saved, the list is ranked again, the rows are filled and
    the input line is cleared. *)
Lemma add_manual_run w :
  add_manual w =
    let text := strip (input_field w) in
    if is_empty_str text then (Ok tt, w)
    else
      let w1 := with_new_tasks [text] (py "manual") w in
      let r1 := rank_tasks (core w1) in
      match r1.1 with
      | Raise e => (Raise e, set_core r1.2 w1)
      | Ok _ =>
          match TASK_FILE r1.2 with
          | Denied => (Raise OSError, set_core r1.2 w1)
          | _ =>
              let r2 :=
                rank_tasks
                  (set_TASK_FILE (Content (dump_tasks (tasks r1.2))) r1.2) in
              match r2.1 with
              | Raise e => (Raise e, set_core r2.2 w1)
              | Ok _ =>
                  (Ok tt,
                   set_input_field []
                     (set_core (set_task_list (map display (tasks r2.2)) r2.2)
                        w1))
              end
          end
      end.
Proof.
  unfold add_manual.
  cbv [mbind W_bind bindW getW]. cbn beta iota.
  destruct (is_empty_str (strip (input_field w))); [done|].
  cbv [mbind W_bind bindW getW]. rewrite add_tasks_run, !in_core_run.
  cbn [fst snd core set_core].
  set (w1 := with_new_tasks [strip (input_field w)] (py "manual") w).
  destruct (rank_tasks (core w1)) as [[[]|e] st1]; [|done]. cbn [fst snd].
  unfold save_tasks, write_file. run.
  destruct (TASK_FILE st1); cbn [fst snd]; try done;
    (destruct (rank_tasks _) as [[[]|e] st2]; cbn [fst snd]; [|done]);
    unfold refresh_list; run; cbn [fst snd]; done.
Qed.

(** X16. With nothing but white space in the input line, [add_manual]
    does nothing: no task, no prompt, no write, and the line is left as it
    is. *)
Theorem add_manual_blank (w : window) :
  Forall (fun c => py_isspace c = true) (input_field w) ->
  add_manual w = (Ok tt, w).
Proof.
  intros H. apply strip_nil in H. by rewrite add_manual_run, H.
Qed.

Lemma is_empty_str_false s : s <> [] -> is_empty_str s = false.
Proof. by destruct s. Qed.

Lemma with_new_tasks_incomplete text source w :
  Exists (fun t => completed t = false)
    (tasks (core (with_new_tasks [text] source w))).
Proof. simpl. apply Exists_app. right. by left. Qed.

Lemma rank_tasks_Exists_incomplete st :
  Exists (fun t => completed t = false) (tasks st) ->
  Exists (fun t => completed t = false) (tasks (rank_tasks st).2).
Proof.
  destruct (rank_tasks_keeps st) as (_ & _ & Hc). intros H.
  apply Exists_exists in H as (t & Hin & Ht).
  assert (Hf : false ∈ map completed (tasks (rank_tasks st).2)).
  { rewrite Hc, <- Ht. apply list_elem_of_fmap. eauto. }
  apply list_elem_of_fmap in Hf as (t' & Ht' & Hin').
  apply Exists_exists. eauto.
Qed.

Lemma rank_tasks_Forall_incomplete st :
  Forall (fun t => completed t = false) (tasks st) ->
  Forall (fun t => completed t = false) (tasks (rank_tasks st).2).
Proof.
  destruct (rank_tasks_keeps st) as (_ & _ & Hc). intros H.
  apply Forall_forall. intros t Hin.
  assert (Hf : completed t ∈ map completed (tasks st)).
  { rewrite <- Hc. apply list_elem_of_fmap. eauto. }
  apply list_elem_of_fmap in Hf as (t' & -> & Hin').
  rewrite Forall_forall in H. by apply H.
Qed.

(** X17. When [add_manual] returns normally on a text, the new task is
    in the list, the rows show the list, the input line is empty and the
    model was run twice.  The store file holds the list as the first
    ranking left it, and the window the list as the second ranking left
    it: [save_tasks] is called between the two. *)
Theorem add_manual_saves_first_ranking (w w' : window) :
  let text := strip (input_field w) in
  let st1 := (rank_tasks (core (with_new_tasks [text] (py "manual") w))).2 in
  let st2 := set_TASK_FILE (Content (dump_tasks (tasks st1))) st1 in
  text <> [] ->
  add_manual w = (Ok tt, w') ->
  TASK_FILE (core w') = Content (dump_tasks (tasks st1))
  /\ tasks (core w') = tasks (rank_tasks st2).2
  /\ rows_shown (core w')
  /\ input_field w' = []
  /\ length (tasks (core w')) = S (length (tasks (core w)))
  /\ length (prompts (core w')) = S (S (length (prompts (core w)))).
Proof.
  intros text st1 st2 Htext. rewrite add_manual_run. cbv zeta. fold text.
  rewrite (is_empty_str_false _ Htext).
  set (w1 := with_new_tasks [text] (py "manual") w).
  pose proof (with_new_tasks_incomplete text (py "manual") w) as Hinc1.
  fold w1 in Hinc1.
  pose proof (rank_tasks_Exists_incomplete _ Hinc1) as Hinc2.
  destruct (rank_tasks_footprint (core w1)) as (_ & _ & _ & Hp1).
  rewrite decide_False in Hp1 by by apply filter_incomplete_cons.
  destruct (rank_tasks_keeps (core w1)) as (Hlen1 & _ & _).
  destruct (rank_tasks_footprint st2) as (_ & Hf2 & _ & Hp2).
  rewrite decide_False in Hp2 by by apply filter_incomplete_cons.
  destruct (rank_tasks_keeps st2) as (Hlen2 & _ & _).
  change (rank_tasks (core w1)).2 with st1 in Hinc2, Hp1, Hlen1 |- *.
  change (set_TASK_FILE (Content (dump_tasks (tasks st1))) st1) with st2.
  assert (Hgoal :
    TASK_FILE (rank_tasks st2).2 = Content (dump_tasks (tasks st1))
    /\ length (tasks (rank_tasks st2).2) = S (length (tasks (core w)))
    /\ length (prompts (rank_tasks st2).2) = S (S (length (prompts (core w))))).
  { split_and!.
    - by rewrite Hf2.
    - rewrite Hlen2. unfold st2. cbn [tasks set_TASK_FILE]. rewrite Hlen1.
      unfold w1. simpl. rewrite length_app. simpl. lia.
    - rewrite Hp2, length_app. unfold st2. cbn [prompts set_TASK_FILE].
      rewrite Hp1, length_app. simpl. lia. }
  destruct Hgoal as (G1 & G2 & G3).
  destruct ((rank_tasks (core w1)).1); [|done].
  destruct (TASK_FILE st1) eqn:Hfile; try done;
    (destruct ((rank_tasks st2).1); [|done]);
    intros [= <-]; by split_and!.
Qed.


(** ** The window: tasks extracted from a text *)

Lemma extract_tasks_from_text_run text st :
  extract_tasks_from_text text st
  = (match Re.search (response_to (extract_prompt text) st) with
     | None => Ok (PyList [])
     | Some m =>
         match Decoder.loads m with
         | Ok v => Ok v
         | Raise _ => Ok (PyList [])
         end
     end, after_prompt (extract_prompt text) st).
Proof.
  unfold extract_tasks_from_text. run.
  fold (response_to (extract_prompt text) st).
  fold (after_prompt (extract_prompt text) st).
  destruct (Re.search _) as [m|]; [|done]. by destruct (Decoder.loads m).
Qed.

Lemma texts_of_strs texts : texts_of (map PyStr texts) = Some texts.
Proof.
  unfold texts_of. induction texts as [|s l IH]; [done|].
  cbn [map mapM]. cbn. by rewrite IH.
Qed.

(** What [extract_text_ai] does with the texts it extracted, step by
    step: the tasks are appended and the list ranked, the list is ranked
    again, the list is saved, the rows are filled and the input line is
    cleared. *)
Lemma extract_text_ai_tail texts w1 :
  (add_tasks texts (py "ai");;
   in_core rank_tasks;;
   w2 ← getW;
   in_core (save_tasks (tasks (core w2)));;
   in_core refresh_list;;
   modifyW (set_input_field [])) w1
  = let w2 := with_new_tasks texts (py "ai") w1 in
    let r1 := rank_tasks (core w2) in
    match r1.1 with
    | Raise e => (Raise e, set_core r1.2 w2)
    | Ok _ =>
        let r2 := rank_tasks r1.2 in
        match r2.1 with
        | Raise e => (Raise e, set_core r2.2 w2)
        | Ok _ =>
            match TASK_FILE r2.2 with
            | Denied => (Raise OSError, set_core r2.2 w2)
            | _ =>
                (Ok tt,
                 set_input_field []
                   (set_core
                      (set_task_list (map display (tasks r2.2))
                         (set_TASK_FILE (Content (dump_tasks (tasks r2.2))) r2.2))
                      w2))
            end
        end
    end.
Proof.
  cbv zeta.
  cbv [mbind W_bind bindW getW]. rewrite add_tasks_run, !in_core_run.
  cbn [fst snd core set_core].
  set (w2 := with_new_tasks texts (py "ai") w1).
  destruct (rank_tasks (core w2)) as [[[]|e] st1]; [|done]. cbn [fst snd].
  destruct (rank_tasks st1) as [[[]|e] st2]; [|done]. cbn [fst snd].
  unfold save_tasks, write_file, refresh_list. run.
  by destruct (TASK_FILE st2).
Qed.

Lemma extract_text_ai_run w text texts :
  strip (input_field w) = text -> text <> [] -> texts <> [] ->
  (extract_tasks_from_text text (core w)).1 = Ok (PyList (map PyStr texts)) ->
  extract_text_ai w = Some (
    let w1 := set_core (after_prompt (extract_prompt text) (core w)) w in
    let w2 := with_new_tasks texts (py "ai") w1 in
    let r1 := rank_tasks (core w2) in
    match r1.1 with
    | Raise e => (Raise e, set_core r1.2 w2)
    | Ok _ =>
        let r2 := rank_tasks r1.2 in
        match r2.1 with
        | Raise e => (Raise e, set_core r2.2 w2)
        | Ok _ =>
            match TASK_FILE r2.2 with
            | Denied => (Raise OSError, set_core r2.2 w2)
            | _ =>
                (Ok tt,
                 set_input_field []
                   (set_core
                      (set_task_list (map display (tasks r2.2))
                         (set_TASK_FILE (Content (dump_tasks (tasks r2.2))) r2.2))
                      w2))
            end
        end
    end).
Proof.
  intros Hstrip Htext Htexts Hex. unfold extract_text_ai. rewrite Hstrip.
  rewrite (is_empty_str_false _ Htext), in_core_run.
  rewrite extract_tasks_from_text_run in Hex |- *. cbn [fst snd] in Hex |- *.
  rewrite Hex. cbn [truthy py_iter].
  destruct texts as [|s texts]; [done|]. cbn [map].
  change (PyStr s :: map PyStr texts) with (map PyStr (s :: texts)).
  rewrite texts_of_strs. f_equal. apply extract_text_ai_tail.
Qed.

(** X19. When nothing is extracted from a text (the answer of the model
    has no bracketed span, or one that is not JSON, or an empty array),
    [extract_text_ai] shows one warning and returns: the model was run
    once, and the task list, the rows, the store and the input line are
    what they were. *)
Theorem extract_text_ai_nothing_extracted (w : window) :
  let text := strip (input_field w) in
  let response := response_to (extract_prompt text) (core w) in
  text <> [] ->
  Re.search response = None
  \/ (exists m e, Re.search response = Some m /\ Decoder.loads m = Raise e)
  \/ (exists m, Re.search response = Some m /\ Decoder.loads m = Ok (PyList [])) ->
  extract_text_ai w
  = Some (Ok tt,
          set_warnings (warnings w ++ [(py "AI Error", py "No tasks extracted.")])
            (set_core (after_prompt (extract_prompt text) (core w)) w)).
Proof.
  intros text response Htext H. unfold extract_text_ai. fold text.
  rewrite (is_empty_str_false _ Htext), in_core_run.
  rewrite extract_tasks_from_text_run. cbn [fst snd]. fold response.
  by destruct H as [->|[(m & e & -> & ->)|(m & -> & ->)]].
Qed.

(** X20. When strings are extracted from a text and [extract_text_ai]
    returns normally, the store file holds the very list the window
    holds, scores and order included (the list is saved after the last
    ranking), the rows show it, the input line is empty, one task was
    added for each string and the model was run three times. *)
Theorem extract_text_ai_stores_final_list (w : window) (m : pystr)
    (texts : list pystr) :
  let text := strip (input_field w) in
  let response := response_to (extract_prompt text) (core w) in
  text <> [] -> texts <> [] ->
  Re.search response = Some m ->
  Decoder.loads m = Ok (PyList (map PyStr texts)) ->
  exists o w',
    extract_text_ai w = Some (o, w')
    /\ (o = Ok tt ->
        store_in_step (core w')
        /\ rows_shown (core w')
        /\ input_field w' = []
        /\ warnings w' = warnings w
        /\ length (tasks (core w')) = (length (tasks (core w)) + length texts)%nat
        /\ length (prompts (core w')) = (length (prompts (core w)) + 3)%nat).
Proof.
  intros text response Htext Htexts Hs Hl.
  assert (Hex : (extract_tasks_from_text text (core w)).1
                = Ok (PyList (map PyStr texts))).
  { rewrite extract_tasks_from_text_run. cbn [fst]. fold response.
    by rewrite Hs, Hl. }
  rewrite (extract_text_ai_run w text texts eq_refl Htext Htexts Hex).
  cbv zeta.
  set (w1 := set_core (after_prompt (extract_prompt text) (core w)) w).
  set (w2 := with_new_tasks texts (py "ai") w1).
  set (st1 := (rank_tasks (core w2)).2).
  set (st2 := (rank_tasks st1).2).
  assert (Hinc2 : Exists (fun t => completed t = false) (tasks (core w2))).
  { unfold w2. simpl. apply Exists_app. right.
    pose proof (new_tasks_incomplete w1 texts (py "ai")) as Hall.
    pose proof (length_new_tasks w1 texts (py "ai")) as Hlen.
    destruct (new_tasks w1 texts (py "ai")) as [|t l].
    - by destruct texts.
    - left. by apply Forall_cons in Hall as [? _]. }
  pose proof (rank_tasks_Exists_incomplete _ Hinc2) as Hinc1.
  fold st1 in Hinc1.
  destruct (rank_tasks_footprint (core w2)) as (_ & _ & _ & Hp1).
  rewrite decide_False in Hp1 by by apply filter_incomplete_cons.
  destruct (rank_tasks_keeps (core w2)) as (Hlen1 & _ & _).
  destruct (rank_tasks_footprint st1) as (_ & _ & _ & Hp2).
  rewrite decide_False in Hp2 by by apply filter_incomplete_cons.
  destruct (rank_tasks_keeps st1) as (Hlen2 & _ & _).
  fold st1 in Hp1, Hlen1. fold st2 in Hp2, Hlen2.
  assert (Hlen : length (tasks st2)
                 = (length (tasks (core w)) + length texts)%nat).
  { rewrite Hlen2, Hlen1. unfold w2. simpl.
    by rewrite length_app, length_new_tasks. }
  assert (Hp : length (prompts st2) = (length (prompts (core w)) + 3)%nat).
  { rewrite Hp2, length_app, Hp1, length_app. unfold w2, w1. simpl.
    rewrite length_app. simpl. lia. }
  destruct ((rank_tasks (core w2)).1); [|by eexists _, _].
  destruct ((rank_tasks st1).1); [|by eexists _, _].
  destruct (TASK_FILE st2) eqn:Hf; eexists _, _; (split; [done|]); try done;
    intros _; cbn [core set_core set_input_field];
    unfold store_in_step, rows_shown; by split_and!.
Qed.

(** ** The window: starting *)

(** X21. A window started on the store file that [save_tasks] wrote for
    a well-formed list holds that list and shows it, row for task; started
    on a store file that is absent, cannot be read or is not JSON, it
    holds no task and shows no row.  Either way the input line is empty,
    the store is left as it is and the model is not run. *)
Theorem TaskTracker_init_shows_store (w : window) :
  (forall l,
     TASK_FILE (core w) = Content (dump_tasks l) ->
     Forall (fun t => wf_task t = true) l ->
     exists w',
       __init__ w = Some (Ok tt, w')
       /\ tasks (core w') = l
       /\ rows_shown (core w')
       /\ input_field w' = []
       /\ TASK_FILE (core w') = TASK_FILE (core w)
       /\ prompts (core w') = prompts (core w))
  /\ (TASK_FILE (core w) = Absent \/ TASK_FILE (core w) = Denied
      \/ TASK_FILE (core w) = Undecodable
      \/ (exists s e, TASK_FILE (core w) = Content s /\ Decoder.loads s = Raise e) ->
      exists w',
        __init__ w = Some (Ok tt, w')
        /\ tasks (core w') = []
        /\ task_list (core w') = []
        /\ input_field w' = []
        /\ TASK_FILE (core w') = TASK_FILE (core w)
        /\ prompts (core w') = prompts (core w)).
Proof.
  unfold __init__. rewrite in_core_run.
  unfold load_tasks. run.
  destruct w as [[ts rows f ps o] inp ws u uc tm tc]. simpl. split.
  - intros l -> Hwf. simpl. rewrite (loads_dump_tasks l Hwf). cbn [fst snd].
    rewrite tasks_of_py_to_py. runW. unfold refresh_list. run. simpl.
    by eexists.
  - intros [->|[->|[->|(s & e & -> & H)]]]; simpl; rewrite ?H; simpl;
      runW; unfold refresh_list; run; simpl; by eexists.
Qed.

(** ** The window: tasks from a media file *)

Lemma add_media_tasks_run texts w1 :
  add_media_tasks texts w1
  = let w2 := with_new_tasks texts (py "media") w1 in
    let r1 := rank_tasks (core w2) in
    match r1.1 with
    | Raise e => (Raise e, set_core r1.2 w2)
    | Ok _ =>
        match TASK_FILE r1.2 with
        | Denied => (Raise OSError, set_core r1.2 w2)
        | _ =>
            (Ok tt,
             set_core
               (set_task_list (map display (tasks r1.2))
                  (set_TASK_FILE (Content (dump_tasks (tasks r1.2))) r1.2))
               w2)
        end
    end.
Proof.
  unfold add_media_tasks. cbv zeta.
  cbv [mbind W_bind bindW getW]. rewrite add_tasks_run, !in_core_run.
  cbn [fst snd core set_core].
  set (w2 := with_new_tasks texts (py "media") w1).
  destruct (rank_tasks (core w2)) as [[[]|e] st1]; [|done]. cbn [fst snd].
  unfold save_tasks, write_file, refresh_list. run.
  by destruct (TASK_FILE st1).
Qed.

(** X22. [upload_media] does nothing when the file dialog is cancelled;
    it shows an error box and changes nothing when a media tool fails
    ([ffmpeg] on a video, or the speech model); and when the transcript is
    empty or white space it shows one warning, without running the
    language model.  In all three cases the task list, the rows and the
    store are what they were. *)
Theorem upload_media_nothing_to_add (env : media) (w : window) :
  (chosen_file env = [] -> upload_media env w = Some (Returned, w))
  /\ (chosen_file env <> [] ->
      audio_of env = None
      \/ (exists audio, audio_of env = Some audio
                        /\ whisper_segments env audio = None) ->
      upload_media env w = Some (ErrorBox None, w))
  /\ (forall audio segments,
        chosen_file env <> [] ->
        audio_of env = Some audio ->
        whisper_segments env audio = Some segments ->
        Forall (Forall (fun c => py_isspace c = true)) segments ->
        upload_media env w
        = Some (Returned,
                set_warnings
                  (warnings w
                   ++ [(py "Transcription Error", py "Could not transcribe audio.")])
                  w)).
Proof.
  unfold upload_media, audio_of. split_and!.
  - by intros ->.
  - intros Hne H. rewrite (is_empty_str_false _ Hne).
    destruct H as [->|(audio & -> & ->)]; done.
  - intros audio segments Hne -> -> Hsp.
    rewrite (is_empty_str_false _ Hne).
    assert (Ht : transcribe_audio segments = []).
    { unfold transcribe_audio. rewrite transcribe_fold. simpl.
      apply strip_nil, Forall_concat, Forall_fmap.
      eapply Forall_impl; [exact Hsp|]. intros s Hs. simpl.
      apply Forall_app. split; [done|by repeat constructor]. }
    by rewrite Ht.
Qed.

(** X23. When strings are extracted from the transcript of the chosen
    file, [upload_media] ends in one of two ways.  It returns: then the
    store file holds the very list the window holds, the rows show it, one
    task was added for each string, the model was run twice (to extract,
    to rank) and the input line is untouched.  Or it shows an error box,
    for a [TypeError] of the ranking or an [OSError] of the store: then
    the new tasks are in the list of the window all the same, and the rows
    are not refilled. *)
Theorem upload_media_stores_or_shows (env : media) (w : window)
    (audio : pystr) (segments : list pystr) (m : pystr) (texts : list pystr) :
  let transcript := transcribe_audio segments in
  let response := response_to (extract_prompt transcript) (core w) in
  chosen_file env <> [] ->
  audio_of env = Some audio ->
  whisper_segments env audio = Some segments ->
  transcript <> [] -> texts <> [] ->
  Re.search response = Some m ->
  Decoder.loads m = Ok (PyList (map PyStr texts)) ->
  exists e w',
    upload_media env w = Some (e, w')
    /\ length (tasks (core w')) = (length (tasks (core w)) + length texts)%nat
    /\ length (prompts (core w')) = (length (prompts (core w)) + 2)%nat
    /\ input_field w' = input_field w
    /\ (e = Returned /\ store_in_step (core w') /\ rows_shown (core w')
        \/ (e = ErrorBox (Some TypeError) \/ e = ErrorBox (Some OSError))
           /\ task_list (core w') = task_list (core w)).
Proof.
  intros transcript response Hne Haudio Hseg Htr Htexts Hs Hl.
  unfold upload_media. fold (audio_of env).
  rewrite (is_empty_str_false _ Hne), Haudio, Hseg. cbv zeta. fold transcript.
  rewrite (is_empty_str_false _ Htr), in_core_run.
  rewrite extract_tasks_from_text_run. cbn [fst snd]. fold response.
  rewrite Hs, Hl. cbn [truthy py_iter].
  destruct texts as [|s0 texts0] eqn:Etexts; [done|]. cbn [map].
  change (PyStr s0 :: map PyStr texts0) with (map PyStr (s0 :: texts0)).
  rewrite texts_of_strs, <- Etexts, add_media_tasks_run. cbv zeta.
  set (w1 := set_core (after_prompt (extract_prompt transcript) (core w)) w).
  set (w2 := with_new_tasks texts (py "media") w1).
  set (st1 := (rank_tasks (core w2)).2).
  assert (Hinc2 : Exists (fun t => completed t = false) (tasks (core w2))).
  { unfold w2. simpl. apply Exists_app. right.
    pose proof (new_tasks_incomplete w1 texts (py "media")) as Hall.
    pose proof (length_new_tasks w1 texts (py "media")) as Hlen.
    destruct (new_tasks w1 texts (py "media")) as [|t l].
    - subst texts. done.
    - left. by apply Forall_cons in Hall as [? _]. }
  destruct (rank_tasks_footprint (core w2)) as (Hr1 & _ & _ & Hp1).
  rewrite decide_False in Hp1 by by apply filter_incomplete_cons.
  destruct (rank_tasks_keeps (core w2)) as (Hlen1 & _ & _).
  fold st1 in Hr1, Hp1, Hlen1.
  assert (Hlen : length (tasks st1)
                 = (length (tasks (core w)) + length texts)%nat).
  { rewrite Hlen1. unfold w2. simpl.
    by rewrite length_app, length_new_tasks. }
  assert (Hp : length (prompts st1) = (length (prompts (core w)) + 2)%nat).
  { rewrite Hp1, length_app. unfold w2, w1. simpl.
    rewrite length_app. simpl. lia. }
  destruct (rank_tasks_outcome (core w2)) as [Ho|Ho]; rewrite Ho.
  - destruct (TASK_FILE st1) eqn:Hf; eexists _, _; (split; [done|]);
      cbn [core set_core]; split_and!; try done;
      try (left; unfold store_in_step, rows_shown; by split_and!).
    right. split; [by right|done].
  - eexists _, _. split; [done|]. cbn [core set_core].
    split_and!; try done. right. split; [by left|done].
Qed.

(** ** What every handler keeps *)











(** ** The theorems at work on the example states *)

Lemma rank_tasks_scores_witness :
  let st := example_BAB in
  let ranked_ids := [PyStr (py "B"); PyStr (py "A"); PyStr (py "B")] in
  Exists (fun t => completed t = false) (tasks st)
  /\ Forall (fun v => hashable v = true) ranked_ids
  /\ (rank_tasks st).1 = Ok tt
  /\ map id (tasks (rank_tasks st).2) ≡ₚ map id (tasks st)
  /\ forall t, t ∈ tasks (rank_tasks st).2 ->
       (forall i : nat,
          ranked_ids !! i = Some (PyStr (id t)) ->
          (forall j : nat, (i < j)%nat -> ranked_ids !! j <> Some (PyStr (id t))) ->
          priority_score t = (3 - Z.of_nat i)%Z)
       /\ (PyStr (id t) ∉ ranked_ids -> priority_score t = 0%Z).
Proof.
  intros st ranked_ids.
  assert (H1 : Exists (fun t => completed t = false) (tasks st))
    by (apply Exists_cons_hd; reflexivity).
  assert (H4 : Forall (fun v => hashable v = true) ranked_ids)
    by (repeat constructor).
  split; [exact H1|]. split; [exact H4|].
  apply (rank_tasks_scores st
           (py "[" ++ quoted "B" ++ py ", " ++ quoted "A" ++ py ", "
            ++ quoted "B" ++ py "]") ranked_ids H1);
    [vm_compute; reflexivity | vm_compute; reflexivity | exact H4].
Defined.

Lemma rank_tasks_sorted_stable_witness :
  let st := example_BAB in
  (rank_tasks st).1 = Ok tt
  /\ StronglySorted (fun a b => (priority_score b <= priority_score a)%Z)
       (tasks (rank_tasks st).2)
  /\ exists scored,
       Forall2 (fun t t' => t' = set_priority_score (priority_score t') t)
         (tasks st) scored
       /\ tasks (rank_tasks st).2 ≡ₚ scored
       /\ forall k, filter (fun t => priority_score t = k) (tasks (rank_tasks st).2)
                    = filter (fun t => priority_score t = k) scored.
Proof.
  intros st.
  apply (proj1 rank_tasks_sorted_stable st
           (py "[" ++ quoted "B" ++ py ", " ++ quoted "A" ++ py ", "
            ++ quoted "B" ++ py "]")
           [PyStr (py "B"); PyStr (py "A"); PyStr (py "B")]);
    [apply Exists_cons_hd; reflexivity | vm_compute; reflexivity
    | vm_compute; reflexivity | repeat constructor].
Defined.

Lemma rank_tasks_parse_failure_witness :
  (Re.search (response_to (rank_prompt_of example_prose) example_prose) = None
   /\ tasks (rank_tasks example_prose).2 = tasks example_prose)
  /\ (exists m e,
        Re.search (response_to (rank_prompt_of example_broken) example_broken)
          = Some m
        /\ Decoder.loads m = Raise e)
  /\ tasks (rank_tasks example_broken).2 = tasks example_broken.
Proof.
  assert (H1 : Re.search (response_to (rank_prompt_of example_prose) example_prose)
               = None) by (vm_compute; reflexivity).
  assert (H2 : exists m e,
        Re.search (response_to (rank_prompt_of example_broken) example_broken)
          = Some m
        /\ Decoder.loads m = Raise e).
  { exists (py "[" ++ quoted "B" ++ py ", ]"), JSONDecodeError.
    split; vm_compute; reflexivity. }
  split; [split; [exact H1|]|split; [exact H2|]].
  - exact (proj1 (proj2 (rank_tasks_parse_failure example_prose (or_introl H1)))).
  - exact (proj1 (proj2 (rank_tasks_parse_failure example_broken (or_intror H2)))).
Defined.

Lemma load_tasks_failure_empty_witness :
  (exists s e, TASK_FILE example_bad_file = Content s /\ Decoder.loads s = Raise e)
  /\ load_tasks example_bad_file = (Ok (PyList []), example_bad_file)
  /\ load_tasks example_AB = (Ok (PyList []), example_AB).
Proof.
  assert (H : exists s e,
    TASK_FILE example_bad_file = Content s /\ Decoder.loads s = Raise e).
  { exists (py "{not json"), JSONDecodeError. split; vm_compute; reflexivity. }
  split; [exact H|]. split.
  - apply (proj2 (load_tasks_failure_empty example_bad_file)).
    right. right. right. right. exact H.
  - apply (proj2 (load_tasks_failure_empty example_AB)). left. reflexivity.
Defined.

Lemma rank_tasks_no_incomplete_witness :
  Forall (fun t => completed t = true) (tasks example_done)
  /\ rank_tasks example_done = (Ok tt, example_done)
  /\ prompts (rank_tasks example_done).2 = [].
Proof.
  assert (H : Forall (fun t => completed t = true) (tasks example_done))
    by (repeat constructor).
  split; [exact H|]. exact (rank_tasks_no_incomplete example_done H).
Defined.

Lemma extract_tasks_from_text_witness :
  (extract_tasks_from_text (py "buy milk and call mom") example_sure).1
  = Ok (PyList [PyStr (py "buy milk"); PyStr (py "call mom")])
  /\ (extract_tasks_from_text (py "buy milk and call mom") example_prose).1
     = Ok (PyList []).
Proof.
  split.
  - destruct (extract_tasks_from_text_spec (py "buy milk and call mom")
                example_sure) as (_ & _ & _ & _ & H & _).
    apply H. vm_compute. reflexivity.
  - destruct (extract_tasks_from_text_spec (py "buy milk and call mom")
                example_prose) as (_ & H & _).
    apply H. vm_compute. reflexivity.
Defined.

Lemma save_load_roundtrip_witness :
  (Forall (fun t => wf_task t = true) example_texts
   /\ (save_tasks example_texts ;; load_tasks) example_AB
      = (Ok (tasks_to_py example_texts),
         set_TASK_FILE (Content (dump_tasks example_texts)) example_AB)
   /\ tasks_of_py (tasks_to_py example_texts) = Some example_texts)
  /\ (utf8_text (dump_tasks example_texts)
      /\ load_tasks example_stored
         = (Ok (tasks_to_py example_texts), example_stored)
      /\ (save_tasks example_texts ;; load_tasks) example_stored
         = (Ok (tasks_to_py example_texts),
            set_TASK_FILE (Content (dump_tasks example_texts)) example_stored)).
Proof.
  assert (H : Forall (fun t => wf_task t = true) example_texts)
    by (repeat constructor).
  assert (Htext : utf8_text (dump_tasks example_texts))
    by (apply List.Forall_forall, forallb_forall; vm_compute; reflexivity).
  assert (Hload : load_tasks example_stored
                  = (Ok (tasks_to_py example_texts), example_stored))
    by (vm_compute; reflexivity).
  split; [split; [exact H|]|split; [exact Htext|split; [exact Hload|]]].
  - apply (proj1 save_load_roundtrip example_AB example_texts H). discriminate.
  - apply (proj2 save_load_roundtrip example_stored
             (dump_tasks example_texts) (tasks_to_py example_texts)
             example_texts eq_refl Htext Hload).
    vm_compute. reflexivity.
Defined.

Lemma complete_selected_removes_witness :
  let st := example_BAB in
  let st' := (complete_selected 1 st).2 in
  (0 <= 1 < Z.of_nat (length (tasks st)))%Z
  /\ tasks st' = [example_task "A" false 0; example_task "C" true 7]
  /\ (length (tasks st') + 1 = length (tasks st))%nat.
Proof.
  intros st st'.
  assert (H : (0 <= 1 < Z.of_nat (length (tasks st)))%Z) by (simpl; lia).
  split; [exact H|].
  destruct (complete_selected_removes st 1 H) as (H1 & H2 & _).
  split; [exact H1|exact H2].
Defined.

Lemma rank_tasks_duplicate_id_last_wins_witness :
  let st := example_BAB in
  let ranked_ids := [PyStr (py "B"); PyStr (py "A"); PyStr (py "B")] in
  let t := example_task "B" false 1 in
  (ranked_ids !! 0%nat = Some (PyStr (py "B"))
   /\ ranked_ids !! 2%nat = Some (PyStr (py "B")))
  /\ t ∈ tasks (rank_tasks st).2
  /\ priority_score t = (3 - 2)%Z /\ priority_score t <> (3 - 0)%Z.
Proof.
  intros st ranked_ids t.
  assert (Hin : t ∈ tasks (rank_tasks st).2).
  { assert (tasks (rank_tasks st).2
            = [example_task "A" false 2; t; example_task "C" true 0]) as ->
      by (vm_compute; reflexivity).
    apply list_elem_of_further, list_elem_of_here. }
  split; [split; reflexivity|]. split; [exact Hin|].
  apply (rank_tasks_duplicate_id_last_wins st
           (py "[" ++ quoted "B" ++ py ", " ++ quoted "A" ++ py ", "
            ++ quoted "B" ++ py "]") ranked_ids (py "B") 0 2);
    [apply Exists_cons_hd; reflexivity | vm_compute; reflexivity
    | vm_compute; reflexivity | repeat constructor | lia
    | reflexivity | reflexivity | | exact Hin | reflexivity].
  intros [|j'] Hj'; [lia|]. destruct j' as [|[|j']]; [lia|lia|discriminate].
Defined.

(** ** The further properties at work *)


Lemma dump_tasks_distinct_witness :
  dump_tasks example_texts <> dump_tasks [].
Proof.
  apply (dump_tasks_distinct example_texts []).
  - repeat constructor.
  - constructor.
  - discriminate.
Defined.


Lemma rank_tasks_named_first_witness :
  let result := tasks (rank_tasks example_BAB).2 in
  (forall t, t ∈ result ->
     (0 <= priority_score t <= 3)%Z
     /\ ((0 < priority_score t)%Z
         <-> PyStr (id t) ∈ [PyStr (py "B"); PyStr (py "A"); PyStr (py "B")]))
  /\ (forall i j t u,
        result !! i = Some t -> result !! j = Some u ->
        PyStr (id t) ∈ [PyStr (py "B"); PyStr (py "A"); PyStr (py "B")] ->
        PyStr (id u) ∉ [PyStr (py "B"); PyStr (py "A"); PyStr (py "B")] ->
        (i < j)%nat).
Proof.
  apply (rank_tasks_named_first example_BAB
           (py "[" ++ quoted "B" ++ py ", " ++ quoted "A" ++ py ", "
            ++ quoted "B" ++ py "]")
           [PyStr (py "B"); PyStr (py "A"); PyStr (py "B")]).
  - left. reflexivity.
  - vm_compute. reflexivity.
  - vm_compute. reflexivity.
  - repeat constructor.
Defined.

Lemma rank_tasks_follows_answer_witness :
  (rank_tasks example_AB).1 = Ok tt
  /\ map id (tasks (rank_tasks example_AB).2) = [py "B"; py "A"]
  /\ forall k t, tasks (rank_tasks example_AB).2 !! k = Some t ->
       priority_score t = (2 - Z.of_nat k)%Z.
Proof.
  apply (rank_tasks_follows_answer example_AB
           (py "[" ++ quoted "B" ++ py "," ++ quoted "A" ++ py "]")
           [py "B"; py "A"]).
  - compute_done.
  - left. reflexivity.
  - vm_compute. reflexivity.
  - vm_compute. reflexivity.
  - apply perm_swap.
Defined.


Lemma complete_selected_no_row_witness :
  complete_selected (-1) example_BAB = (Ok tt, example_BAB)
  /\ complete_selected 3 example_BAB = (Raise IndexError, example_BAB).
Proof.
  split.
  - apply (proj1 (complete_selected_no_row example_BAB (-1))). lia.
  - apply (proj2 (complete_selected_no_row example_BAB 3)). simpl. lia.
Defined.

Lemma complete_selected_stores_witness :
  let st' := (complete_selected 1 example_BAB).2 in
  (complete_selected 1 example_BAB).1 = Ok tt
  /\ TASK_FILE st' = Content (dump_tasks (tasks st'))
  /\ task_list st' = delete 1%nat (task_list example_BAB)
  /\ (task_list example_BAB = map display (tasks example_BAB) ->
      task_list st' = map display (tasks st'))
  /\ prompts st' = prompts example_BAB.
Proof.
  apply (complete_selected_stores example_BAB 1).
  - simpl. lia.
  - discriminate.
Defined.

Lemma complete_selected_store_denied_witness :
  complete_selected 0 example_denied
  = (Raise OSError,
     set_tasks (delete 0%nat (tasks example_denied)) example_denied)
  /\ (length (task_list example_denied) = length (tasks example_denied) ->
      length (task_list (complete_selected 0 example_denied).2)
      = S (length (tasks (complete_selected 0 example_denied).2))).
Proof.
  apply (complete_selected_store_denied example_denied 0).
  - simpl. lia.
  - reflexivity.
Defined.

Lemma add_tasks_appends_witness :
  let w := example_window example_prose [] in
  let w' := (add_tasks [py "buy milk"] (py "manual") w).2 in
  prompts (core w')
  = prompts (core w)
    ++ [rank_prompt_of (core (with_new_tasks [py "buy milk"] (py "manual") w))].
Proof.
  intros w w'.
  destruct (add_tasks_appends [py "buy milk"] (py "manual") w)
    as (_ & _ & _ & _ & _ & _ & _ & _ & _ & H).
  apply H. discriminate.
Defined.

Lemma add_tasks_unranked_witness :
  let w := example_window example_prose [] in
  (add_tasks [py "buy milk"] (py "manual") w).1 = Ok tt
  /\ tasks (core (add_tasks [py "buy milk"] (py "manual") w).2)
     = tasks (core w) ++ new_tasks w [py "buy milk"] (py "manual").
Proof.
  apply (add_tasks_unranked [py "buy milk"] (py "manual")
           (example_window example_prose [])).
  left. vm_compute. reflexivity.
Defined.

Lemma add_manual_blank_witness :
  add_manual (example_window example_AB (py "  "))
  = (Ok tt, example_window example_AB (py "  ")).
Proof.
  apply (add_manual_blank (example_window example_AB (py "  "))).
  repeat constructor.
Defined.

Lemma add_manual_saves_first_ranking_witness :
  let w := example_window example_AB (py " buy milk ") in
  let w' := (add_manual w).2 in
  let st1 := (rank_tasks (core (with_new_tasks [py "buy milk"] (py "manual") w))).2 in
  let st2 := set_TASK_FILE (Content (dump_tasks (tasks st1))) st1 in
  TASK_FILE (core w') = Content (dump_tasks (tasks st1))
  /\ tasks (core w') = tasks (rank_tasks st2).2
  /\ rows_shown (core w')
  /\ input_field w' = []
  /\ length (tasks (core w')) = 3%nat
  /\ length (prompts (core w')) = 2%nat.
Proof.
  apply (add_manual_saves_first_ranking
           (example_window example_AB (py " buy milk "))
           (add_manual (example_window example_AB (py " buy milk "))).2).
  - discriminate.
  - vm_compute. reflexivity.
Defined.


Lemma extract_text_ai_nothing_extracted_witness :
  let w := example_window example_prose (py "call mom tomorrow") in
  extract_text_ai w
  = Some (Ok tt,
          set_warnings [(py "AI Error", py "No tasks extracted.")]
            (set_core
               (after_prompt (extract_prompt (py "call mom tomorrow")) (core w))
               w)).
Proof.
  apply (extract_text_ai_nothing_extracted
           (example_window example_prose (py "call mom tomorrow"))).
  - discriminate.
  - left. vm_compute. reflexivity.
Defined.

Lemma extract_text_ai_stores_final_list_witness :
  let w := example_window example_sure (py "milk, and mom") in
  exists o w',
    extract_text_ai w = Some (o, w')
    /\ (o = Ok tt ->
        store_in_step (core w')
        /\ rows_shown (core w')
        /\ input_field w' = []
        /\ warnings w' = warnings w
        /\ length (tasks (core w')) = 2%nat
        /\ length (prompts (core w')) = 3%nat).
Proof.
  apply (extract_text_ai_stores_final_list
           (example_window example_sure (py "milk, and mom"))
           (py "[" ++ quoted "buy milk" ++ py ", " ++ quoted "call mom" ++ py "]")
           [py "buy milk"; py "call mom"]).
  - discriminate.
  - discriminate.
  - vm_compute. reflexivity.
  - vm_compute. reflexivity.
Defined.

Lemma TaskTracker_init_shows_store_witness :
  (exists w',
     __init__ (example_window example_stored []) = Some (Ok tt, w')
     /\ tasks (core w') = example_texts
     /\ rows_shown (core w')
     /\ input_field w' = []
     /\ TASK_FILE (core w') = TASK_FILE example_stored
     /\ prompts (core w') = prompts example_stored)
  /\ (exists w',
        __init__ (example_window example_bad_file []) = Some (Ok tt, w')
        /\ tasks (core w') = []
        /\ task_list (core w') = []
        /\ input_field w' = []
        /\ TASK_FILE (core w') = TASK_FILE example_bad_file
        /\ prompts (core w') = prompts example_bad_file).
Proof.
  split.
  - apply (proj1 (TaskTracker_init_shows_store
                    (example_window example_stored [])) example_texts).
    + reflexivity.
    + repeat constructor.
  - apply (proj2 (TaskTracker_init_shows_store
                    (example_window example_bad_file []))).
    right. right. right. exists (py "{not json"), JSONDecodeError.
    split; [reflexivity|vm_compute; reflexivity].
Defined.




Lemma upload_media_nothing_to_add_witness :
  let w := example_window example_AB [] in
  upload_media (mkMedia [] (fun _ => true) [] (fun _ => None)) w
  = Some (Returned, w)
  /\ upload_media example_bad_video w = Some (ErrorBox None, w)
  /\ upload_media (example_media (Some [py " "; []])) w
     = Some (Returned,
             set_warnings
               [(py "Transcription Error", py "Could not transcribe audio.")]
               w).
Proof.
  intros w. split_and!.
  - apply (proj1 (upload_media_nothing_to_add
                    (mkMedia [] (fun _ => true) [] (fun _ => None)) w)).
    reflexivity.
  - apply (proj1 (proj2 (upload_media_nothing_to_add example_bad_video w))).
    + discriminate.
    + left. reflexivity.
  - apply (proj2 (proj2 (upload_media_nothing_to_add
                           (example_media (Some [py " "; []])) w))
             (py "talk.mp3") [py " "; []]).
    + discriminate.
    + reflexivity.
    + reflexivity.
    + repeat constructor.
Defined.

Lemma upload_media_stores_or_shows_witness :
  let env := example_media (Some [py " buy milk,"; py " and call mom."]) in
  let w := example_window example_sure (py "draft") in
  exists e w',
    upload_media env w = Some (e, w')
    /\ length (tasks (core w')) = 2%nat
    /\ length (prompts (core w')) = 2%nat
    /\ input_field w' = py "draft"
    /\ (e = Returned /\ store_in_step (core w') /\ rows_shown (core w')
        \/ (e = ErrorBox (Some TypeError) \/ e = ErrorBox (Some OSError))
           /\ task_list (core w') = task_list (core w)).
Proof.
  apply (upload_media_stores_or_shows
           (example_media (Some [py " buy milk,"; py " and call mom."]))
           (example_window example_sure (py "draft"))
           (py "talk.mp3") [py " buy milk,"; py " and call mom."]
           (py "[" ++ quoted "buy milk" ++ py ", " ++ quoted "call mom" ++ py "]")
           [py "buy milk"; py "call mom"]).
  - discriminate.
  - reflexivity.
  - reflexivity.
  - vm_compute. discriminate.
  - discriminate.
  - vm_compute. reflexivity.
  - vm_compute. reflexivity.
Defined.
